(** * pdf-to-md: the reconstruction engine, embedded and verified

    A shallow embedding of the repository:

    - [txt_to_json_parser.py]: [parse_chapter_content], which turns the
      lines of a chapter into units, and [merge_split_paragraphs], the
      cross-boundary merger that folds a lowercase continuation fragment
      into the previous paragraph;
    - [pdf_to_json_final.py]: [analyze_font_sizes], [group_words_to_lines],
      [clean_hyphenated_text], [extract_titles], [extract_page_header],
      [extract_body_paragraphs_with_footnote_refs],
      [extract_footnotes_improved] and the loop over the pages of
      [pdf_to_json_final];
    - [pdf_to_md.py]: [extract_table_markdown] and, of [pdf_to_md], the
      grouping of the words of a page into lines and of the lines into
      paragraphs;
    - [azure_translator.py] and [azure_translator_resume.py]:
      [extract_texts_for_translation] and [translate_batch].

    Modelling conventions.

    - A Python [str] is a [string]; a character is a code point below 256
      (Latin-1, one of the encodings the text reader tries), and the
      character classes ([str.islower], [str.isspace], [\w], [\s], [\d], ...)
      are Python's tables restricted to that range.
    - A coordinate or a font size is a float, and a finite float is a
      rational ([Q]).  The order tests of the source are exact on them, and
      so is [round].  The arithmetic of the source rounds: a difference, a
      sum, a product or a quotient is the exact result rounded to the nearest
      binary64 float, a tie going to the even mantissa ([round64], with
      [fsub], [fadd], [fmul] and [fdiv]), and a decimal literal of the source
      is the float nearest to it ([py_float]).  Infinities and NaN are left
      out: the magnitudes stay in the range of the floats.
    - A Python [dict] used as a record is a [Record]; the [defaultdict]s that
      are iterated are association lists in insertion order.  The data that
      the translator loads is a JSON value, a [dict] being the list of its
      items.
    - A loop with mutable accumulators is a fold over its input with the
      accumulators as the state; where a turn of the loop can raise, the
      result is the value or the exception.
    - Files, the network and the clock are left out: a function that writes
      its result is the result, and the service that translates is a
      parameter that gives the reply to each call.

    The definitions come first, one module per source file after the
    helpers on strings ([PyStr], [TxtToJsonParser], [PdfToJsonFinal],
    [PdfToMd], [PyJson], [AzureTranslator], [AzureTranslatorResume]); the
    facts and the properties follow in the same order ([PyStrFacts],
    [TxtToJsonParserProofs], [PdfToJsonFinalProofs], [PdfToMdProofs],
    [AzureTranslatorProofs]). *)

From Stdlib Require Import List Bool Arith ZArith QArith Qabs Qround Qpower.
From Stdlib Require Import Lia Lqa.
From Stdlib Require Import Ascii String Permutation Sorted.
From Stdlib Require Import DecimalString DecimalZ.
Import ListNotations.

Set Implicit Arguments.

(* ================================================================== *)
(** * Python strings *)
(* ================================================================== *)

Module PyStr.

Local Open Scope N_scope.

(** The code point of a character. *)
Definition ord (c : ascii) : N := N_of_ascii c.

Definition in_range (lo hi : N) (c : ascii) : bool :=
  (lo <=? ord c) && (ord c <=? hi).

(** [str.isspace], which is also [\s] of [re] and what [str.strip] and
    [str.split] remove. *)
Definition isspace (c : ascii) : bool :=
  in_range 9 13 c || in_range 28 32 c || (ord c =? 133) || (ord c =? 160).

(** [str.islower] on one character. *)
Definition islower (c : ascii) : bool :=
  in_range 97 122 c || (ord c =? 170) || (ord c =? 181) || (ord c =? 186)
  || in_range 223 246 c || in_range 248 255 c.

(** [str.isupper] on one character. *)
Definition isupper (c : ascii) : bool :=
  in_range 65 90 c || in_range 192 214 c || in_range 216 222 c.

(** [str.isdigit] on one character. *)
Definition isdigit_char (c : ascii) : bool :=
  in_range 48 57 c || in_range 178 179 c || (ord c =? 185).

(** [\d] of [re]: the decimal digits. *)
Definition is_decimal (c : ascii) : bool := in_range 48 57 c.

(** [\w] of [re]: alphanumeric characters and the underscore. *)
Definition is_word (c : ascii) : bool :=
  in_range 48 57 c || in_range 65 90 c || (ord c =? 95) || in_range 97 122 c
  || (ord c =? 170) || in_range 178 179 c || (ord c =? 181)
  || in_range 185 186 c || in_range 188 190 c || in_range 192 214 c
  || in_range 216 246 c || in_range 248 255 c.

(** [[A-Z]] of [re]. *)
Definition is_AZ (c : ascii) : bool := in_range 65 90 c.

Local Close Scope N_scope.
Local Open Scope string_scope.

(** [s.isdigit()]: non-empty and every character a digit. *)
Fixpoint all_chars (p : ascii -> bool) (s : string) : bool :=
  match s with
  | EmptyString => true
  | String c r => p c && all_chars p r
  end.

Definition isdigit (s : string) : bool :=
  match s with
  | EmptyString => false
  | _ => all_chars isdigit_char s
  end.

(** The longest prefix of [s] whose characters satisfy [p], and the rest:
    what a greedy [p+] or [p*] takes when nothing after it forces it to give
    characters back. *)
Fixpoint span (p : ascii -> bool) (s : string) : string * string :=
  match s with
  | EmptyString => (EmptyString, EmptyString)
  | String c r =>
      if p c then let (a, b) := span p r in (String c a, b)
      else (EmptyString, s)
  end.

Fixpoint lstrip (s : string) : string :=
  match s with
  | EmptyString => EmptyString
  | String c r => if isspace c then lstrip r else s
  end.

(** [rstrip]: keep a character when it is not a space or something is left
    after it. *)
Fixpoint rstrip (s : string) : string :=
  match s with
  | EmptyString => EmptyString
  | String c r =>
      match rstrip r with
      | EmptyString => if isspace c then EmptyString else String c EmptyString
      | r' => String c r'
      end
  end.

(** [s.strip()] *)
Definition strip (s : string) : string := rstrip (lstrip s).

(** [len(s.split())]: the number of maximal runs of non-space characters.
    [in_word] tells whether the previous character was part of a run. *)
Fixpoint count_fields (in_word : bool) (s : string) : nat :=
  match s with
  | EmptyString => 0
  | String c r =>
      if isspace c then count_fields false r
      else (if in_word then 0 else 1) + count_fields true r
  end.

Definition split_len (s : string) : nat := count_fields false s.

(** [s.split('\n')] *)
Fixpoint split_lines (s : string) : list string :=
  match s with
  | EmptyString => [EmptyString]
  | String c r =>
      if (ord c =? 10)%N then EmptyString :: split_lines r
      else match split_lines r with
           | l :: ls => String c l :: ls
           | [] => [String c EmptyString]
           end
  end.

(** [sep.join(l)] *)
Definition join (sep : string) (l : list string) : string := String.concat sep l.

(** [str(n)] for an integer: decimal digits, with a sign when negative. *)
Definition str_of_int (n : Z) : string := NilZero.string_of_int (Z.to_int n).

Definition nonempty (s : string) : bool :=
  match s with EmptyString => false | _ => true end.

(** ** The ends of a string *)

(** The last character of [s] satisfies [p]. *)
Fixpoint ends_with (p : ascii -> bool) (s : string) : bool :=
  match s with
  | EmptyString => false
  | String c EmptyString => p c
  | String _ r => ends_with p r
  end.

(** The first character of [s] satisfies [p]. *)
Definition begins_with (p : ascii -> bool) (s : string) : bool :=
  match s with
  | EmptyString => false
  | String c _ => p c
  end.

(** [s] is not empty and has no space at either end. *)
Definition trimmed (s : string) : Prop :=
  nonempty s = true /\ begins_with isspace s = false
  /\ ends_with isspace s = false.

End PyStr.

(* ================================================================== *)
(** * txt_to_json_parser.py: the cross-boundary merger *)
(* ================================================================== *)

Module TxtToJsonParser.

Import PyStr.
Local Open Scope string_scope.

(** The value of a unit's ['type'] key. *)
Inductive unit_type : Type := title | header | paragraph | footnote.

Definition unit_type_eqb (a b : unit_type) : bool :=
  match a, b with
  | title, title | header, header | paragraph, paragraph
  | footnote, footnote => true
  | _, _ => false
  end.

(** A content unit: the dict [{"id", "type", "text"}], with ["original_id"]
    on footnotes and ["note"] once something was merged into it ([None] is
    the absent key). *)
Record content_unit : Type := mk_unit {
  uid : Z;
  utype : unit_type;
  text : string;
  original_id : option string;
  note : option (list string)
}.

(** The notes of a unit, the absent key read as the empty list. *)
Definition notes (u : content_unit) : list string :=
  match note u with Some l => l | None => [] end.

(** [f"combined by id{current_unit['id']}"] *)
Definition note_entry (i : Z) : string := "combined by id" ++ str_of_int i.

(** [current_unit['text'] and current_unit['text'][0].islower()] *)
Definition starts_lower (s : string) : bool :=
  match s with
  | EmptyString => false
  | String c _ => islower c
  end.

(** The test of the loop body at index [i], on [current_unit =
    content_units[i]]. *)
Definition is_continuation (content_units : list content_unit) (i : nat)
    (current_unit : content_unit) : bool :=
  (0 <? i)%nat
  && match nth_error content_units (i - 1) with
     | Some prev => unit_type_eqb (utype prev) footnote
     | None => false
     end
  && unit_type_eqb (utype current_unit) paragraph
  && starts_lower (text current_unit).

(** [for j in range(len(merged_units) - 1, -1, -1)]: the greatest index of a
    paragraph in [merged_units]. *)
Fixpoint prev_paragraph_idx (merged_units : list content_unit) : option nat :=
  match merged_units with
  | [] => None
  | u :: rest =>
      match prev_paragraph_idx rest with
      | Some j => Some (S j)
      | None => if unit_type_eqb (utype u) paragraph then Some 0%nat else None
      end
  end.

(** What the two statements under [if prev_paragraph_idx is not None] do to
    the target: [text += ' ' + current_unit['text']] and the note appended,
    the list created when the key is absent. *)
Definition absorb (current_unit target : content_unit) : content_unit :=
  {| uid := uid target;
     utype := utype target;
     text := text target ++ " " ++ text current_unit;
     original_id := original_id target;
     note := Some (notes target ++ [note_entry (uid current_unit)])%list |}.

(** [l[j] = f(l[j])] for an index in range. *)
Fixpoint update_at (A : Type) (j : nat) (f : A -> A) (l : list A) : list A :=
  match l, j with
  | [], _ => []
  | x :: r, O => f x :: r
  | x :: r, S j' => x :: update_at j' f r
  end.

(** One iteration of the [while] loop, at index [i].  The lists hold values:
    this is the loop as it runs when the units of [content_units] are
    distinct objects, as the parser builds them; the loop on the objects
    themselves is further down. *)
Definition merge_step (content_units : list content_unit)
    (merged_units : list content_unit) (i : nat) : list content_unit :=
  match nth_error content_units i with
  | None => merged_units
  | Some current_unit =>
      if is_continuation content_units i current_unit then
        match prev_paragraph_idx merged_units with
        | Some j => update_at j (absorb current_unit) merged_units
        | None => (merged_units ++ [current_unit])%list
        end
      else (merged_units ++ [current_unit])%list
  end.

(** [merged_units] after the iterations [i = 0 .. k-1]. *)
Definition merge_upto (content_units : list content_unit) (k : nat)
  : list content_unit :=
  fold_left (merge_step content_units) (seq 0 k) [].

Definition merge_split_paragraphs (content_units : list content_unit)
  : list content_unit :=
  if (List.length content_units <? 2)%nat then content_units
  else merge_upto content_units (List.length content_units).

(** *** The loop on the store

    The units are dicts: [merged_units] holds the very objects of
    [content_units], and [merged_units[j]['text'] += ...] updates one of them
    in place.  Here the objects live in a store, a list indexed by address,
    and the two lists of the function are lists of addresses. *)

Definition store : Type := list content_unit.

(** What an address holds; a dangling address reads as a blank unit. *)
Definition blank : content_unit := mk_unit 0 paragraph "" None None.

Definition deref (h : store) (a : nat) : content_unit := nth a h blank.

(** The units a list of addresses denotes. *)
Definition read (h : store) (refs : list nat) : list content_unit :=
  map (deref h) refs.

Definition merge_step_ref (content_units : list nat)
    (st : store * list nat) (i : nat) : store * list nat :=
  let (h, merged_units) := st in
  match nth_error content_units i with
  | None => st
  | Some a =>
      let current_unit := deref h a in
      if is_continuation (read h content_units) i current_unit then
        match prev_paragraph_idx (read h merged_units) with
        | Some j =>
            (update_at (nth j merged_units 0%nat) (absorb current_unit) h,
             merged_units)
        | None => (h, (merged_units ++ [a])%list)
        end
      else (h, (merged_units ++ [a])%list)
  end.

Definition merge_upto_ref (h : store) (content_units : list nat) (k : nat)
  : store * list nat :=
  fold_left (merge_step_ref content_units) (seq 0 k) (h, []).

(** The store after the call and the list returned. *)
Definition merge_split_paragraphs_ref (h : store) (content_units : list nat)
  : store * list nat :=
  if (List.length content_units <? 2)%nat then (h, content_units)
  else merge_upto_ref h content_units (List.length content_units).

(** *** parse_chapter_content, the caller

    The lines are those of [content.split('\n')], each one stripped: a line
    that is looked at is not empty, has no newline and no space at either
    end. *)

(** The two [re.match] of the footnote test on such a line, and the unit
    the line becomes.  The digits and the spaces after them are the whole
    runs; the line does not end with a space, so something follows the
    spaces and the second pattern matches whenever the first does. *)
Definition classify_line (unit_id : Z) (line : string) : list content_unit :=
  let (footnote_num, r) := span is_decimal line in
  let (spaces, footnote_text) := span isspace r in
  if nonempty footnote_num && nonempty spaces then
    if nonempty footnote_text
    then [mk_unit unit_id footnote (strip footnote_text) (Some footnote_num) None]
    else []
  else [mk_unit unit_id paragraph line None None].

(** [len(line) == 1 and line.isupper()] *)
Definition is_drop_cap (line : string) : bool :=
  match line with
  | String c EmptyString => isupper c
  | _ => false
  end.

(** The [while] loop from the index of the first of [lines] on; [first]
    says that this index is 0.  The units are listed in the order they are
    appended. *)
Fixpoint parse_lines (first : bool) (lines : list string) (unit_id : Z)
  : list content_unit :=
  match lines with
  | [] => []
  | l :: rest =>
      let line := strip l in
      if negb (nonempty line) then parse_lines false rest unit_id
      else
        let plain :=
          let units := classify_line unit_id line in
          (units ++ parse_lines false rest
                      (unit_id + Z.of_nat (List.length units)))%list in
        if first && is_drop_cap line then
          match rest with
          | next :: rest' =>
              let next_line := strip next in
              if nonempty next_line
              then mk_unit unit_id paragraph (line ++ next_line) None None
                   :: parse_lines false rest' (unit_id + 1)
              else plain
          | [] => plain
          end
        else plain
  end.

(** The units before the merge pass. *)
Definition parsed_units (content : string) : list content_unit :=
  parse_lines true (split_lines content) 1.

Definition parse_chapter_content (content : string) : list content_unit :=
  merge_split_paragraphs (parsed_units content).

(** ** Vocabulary of the statements *)

(** Iteration [i] appends its unit to the output (it is not absorbed). *)
Definition emitted (content_units : list content_unit) (i : nat) : bool :=
  match nth_error content_units i with
  | None => false
  | Some u =>
      negb (is_continuation content_units i u
            && match prev_paragraph_idx (merge_upto content_units i) with
               | Some _ => true | None => false end)
  end.

(** [v] is [u] after zero or more fragments were merged into it. *)
Definition extends (u v : content_unit) : Prop :=
  uid v = uid u /\ utype v = utype u /\ original_id v = original_id u
  /\ (exists s, text v = text u ++ s)
  /\ (exists l, notes v = (notes u ++ l)%list).

(** How many units of [out] have the id [k], and how many merge notes of
    [out] name the id [k]. *)
Definition emit_count (k : Z) (out : list content_unit) : nat :=
  count_occ Z.eq_dec (map uid out) k.

Definition note_count (k : Z) (out : list content_unit) : nat :=
  count_occ string_dec (flat_map notes out) (note_entry k).

(** A list as the parser builds it: the ids are pairwise distinct and no
    unit carries a merge note yet. *)
Definition fresh_units (content_units : list content_unit) : Prop :=
  NoDup (map uid content_units)
  /\ Forall (fun u => note u = None) content_units.

(** The units are numbered [first_id], [first_id + 1], ... and carry no
    note. *)
Fixpoint numbered (first_id : Z) (us : list content_unit) : Prop :=
  match us with
  | [] => True
  | u :: r => uid u = first_id /\ note u = None /\ numbered (first_id + 1) r
  end.

(** The position [i] holds a paragraph that begins with a lowercase letter
    and comes right after a footnote. *)
Definition cross_boundary_fragment (content_units : list content_unit)
    (i : nat) (u : content_unit) : Prop :=
  nth_error content_units i = Some u
  /\ (exists f, (0 < i)%nat /\ nth_error content_units (i - 1) = Some f
                /\ utype f = footnote)
  /\ utype u = paragraph
  /\ (exists c r, text u = String c r /\ islower c = true).

Definition one_if (b : bool) : nat := if b then 1 else 0.

(** What the loop on the store keeps true after [k] iterations. *)
Definition ref_inv (h : store) (refs : list nat) (k : nat)
    (st : store * list nat) : Prop :=
  let (h', m) := st in
  List.length h' = List.length h
  /\ map utype h' = map utype h
  /\ incl m (firstn k refs)
  /\ NoDup m
  /\ (forall a, ~ In a m -> deref h' a = deref h a)
  /\ read h' m = merge_upto (read h refs) k.

(** ** Example inputs *)

(** The fragment of the example inputs below and the units around it. *)
Definition para_1 : content_unit :=
  mk_unit 1 paragraph "The army crossed the river and" None None.
Definition foot_2 : content_unit :=
  mk_unit 2 footnote "Ibid., p. 14." (Some "1") None.
Definition frag_3 : content_unit :=
  mk_unit 3 paragraph "marched on the capital." None None.

(** ** More vocabulary: what the pass keeps *)

Definition is_paragraph (u : content_unit) : bool :=
  unit_type_eqb (utype u) paragraph.

(** The units that are not paragraphs, in order. *)
Definition other_units (us : list content_unit) : list content_unit :=
  filter (fun u => negb (is_paragraph u)) us.

(** The texts of the paragraphs, in order. *)
Definition paragraph_texts (us : list content_unit) : list string :=
  map text (filter is_paragraph us).

(** [l] is [l'] with some elements left out, the order kept. *)
Inductive subseq (A : Type) : list A -> list A -> Prop :=
  | subseq_nil : subseq [] []
  | subseq_keep (x : A) (l l' : list A) :
      subseq l l' -> subseq (x :: l) (x :: l')
  | subseq_skip (x : A) (l l' : list A) :
      subseq l l' -> subseq l (x :: l').

(** A unit as the parser makes them: a paragraph or a footnote with a
    trimmed text. *)
Definition plain_unit (u : content_unit) : Prop :=
  trimmed (text u) /\ (utype u = paragraph \/ utype u = footnote).

(** Two objects for the example of the loop on the store. *)
Definition example_store : store := [para_1; foot_2; frag_3].

End TxtToJsonParser.

(* ================================================================== *)
(** * pdf_to_json_final.py: the per-page stages *)
(* ================================================================== *)

Module PdfToJsonFinal.

Import PyStr.
Local Open Scope string_scope.
Local Open Scope Q_scope.

(** ** Numbers *)

(** [a < b] on coordinates and sizes. *)
Definition Qlt_bool (a b : Q) : bool := negb (Qle_bool b a).

(** [round(x)]: the nearest integer, a tie going to the even one. *)
Definition py_round (x : Q) : Z :=
  let f := Qfloor x in
  match Qcompare (x - inject_Z f) (1 # 2) with
  | Lt => f
  | Gt => (f + 1)%Z
  | Eq => if Z.even f then f else (f + 1)%Z
  end.

(** *** Float arithmetic

    A float is a rational [m * 2 ** (e - 52)] with [m] an integer below
    [2 ** 53] in magnitude and [e] at least [emin]; an operation of Python on
    floats gives the float nearest to the exact result, a tie going to the
    even [m]. *)

(** [2 ** e] *)
Definition pow2 (e : Z) : Q := Qpower 2 e.

(** The binary exponent of a positive rational: the [e] with
    [2 ** e <= x < 2 ** (e + 1)]. *)
Definition floor_log2 (x : Q) : Z :=
  let e := (Z.log2 (Qnum x) - Z.log2 (Zpos (Qden x)))%Z in
  if Qle_bool (pow2 e) x then e else (e - 1)%Z.

(** The least exponent of a normal float. *)
Definition emin : Z := (-1022)%Z.

(** The float nearest to a positive rational: 53 bits of mantissa; below
    [2 ** emin] the spacing stays that of the smallest normal floats. *)
Definition round_mag (x : Q) : Q :=
  let e := Z.max (floor_log2 x) emin in
  let ulp := pow2 (e - 52) in
  inject_Z (py_round (x / ulp)) * ulp.

(** The float nearest to a rational. *)
Definition round64 (x : Q) : Q :=
  match Qcompare x 0 with
  | Eq => 0
  | Gt => round_mag x
  | Lt => - round_mag (- x)
  end.

(** [a + b], [a - b], [a * b] and [a / b] on floats. *)
Definition fadd (a b : Q) : Q := round64 (a + b).
Definition fsub (a b : Q) : Q := round64 (a - b).
Definition fmul (a b : Q) : Q := round64 (a * b).
Definition fdiv (a b : Q) : Q := round64 (a / b).

(** The value of a decimal literal such as [0.02], and of any decimal
    numeral read as a float. *)
Definition py_float (x : Q) : Q := round64 x.

(** [x] is a float: rounding leaves it as it is. *)
Definition is_float (x : Q) : Prop := round64 x == x.

(** ** Sorting

    [sorted] and [list.sort] are stable: among elements that compare equal
    the order of the input is kept.  Insertion from the right, each element
    going before the first one it is not greater than, is a stable sort. *)

Section Sort.
Variable A : Type.
Variable leb : A -> A -> bool.

Fixpoint insert_sorted (x : A) (l : list A) : list A :=
  match l with
  | [] => [x]
  | y :: r => if leb x y then x :: l else y :: insert_sorted x r
  end.

Definition sort_with (l : list A) : list A :=
  fold_right insert_sorted [] l.

(** [x] and [y] compare equal. *)
Definition same_rank (x y : A) : bool := leb x y && leb y x.
End Sort.

(** [sorted(l, key=key)] for a rational key. *)
Definition sorted_by (A : Type) (key : A -> Q) (l : list A) : list A :=
  sort_with (fun a b => Qle_bool (key a) (key b)) l.

(** ** Words *)

(** A word of [page.extract_words(..., extra_attrs=["size", "fontname"])].
    [size] is [None] when the extractor gives none. *)
Record word : Type := mk_word {
  text : string;
  x0 : Q;
  top : Q;
  bottom : Q;
  size : option Q;
  fontname : string
}.

(** The truth value of [word['size']] and of [word.get('size')]: a size that
    is there and is not zero. *)
Definition has_size (w : word) : bool :=
  match size w with
  | Some s => negb (Qeq_bool s 0)
  | None => false
  end.

(** [word['size']] where the test above has passed. *)
Definition size_of (w : word) : Q :=
  match size w with Some s => s | None => 0 end.

(** ** group_words_to_lines *)

(** The accumulators of the loop: [lines], [current_line], [last_top]. *)
Definition lines_state : Type := (list (list word) * list word * option Q)%type.

Definition close_line (lines : list (list word)) (current_line : list word)
  : list (list word) :=
  match current_line with
  | [] => lines
  | _ => (lines ++ [current_line])%list
  end.

Definition lines_step (y_tolerance : Q) (st : lines_state) (w : word)
  : lines_state :=
  let '(lines, current_line, last_top) := st in
  let same_line :=
    match last_top with
    | None => true
    | Some t => Qlt_bool (Qabs (fsub (top w) t)) y_tolerance
    end in
  if same_line then (lines, (current_line ++ [w])%list, Some (top w))
  else (close_line lines current_line, [w], Some (top w)).

Definition group_words_to_lines (words : list word) (y_tolerance : Q)
  : list (list word) :=
  match words with
  | [] => []
  | _ =>
      let words := sorted_by top words in
      let '(lines, current_line, _) :=
        fold_left (lines_step y_tolerance) words ([], [], None) in
      close_line lines current_line
  end.

(** ** clean_hyphenated_text

    [re.sub(r'(\w+)-\s+(\w+)', r'\1\2', text)].  A match that begins at a
    given place is forced: [\w+] takes the whole run of word characters (a
    shorter one would be followed by a word character, not by the hyphen),
    [\s+] the whole run of spaces, and the last [\w+] is greedy. *)

(** The match beginning at the start of [s], if there is one: the two
    groups and what follows the match. *)
Definition match_hyphen (s : string) : option (string * string * string) :=
  let (w1, r1) := span is_word s in
  match w1, r1 with
  | String _ _, String "-"%char r2 =>
      let (sp, r3) := span isspace r2 in
      let (w2, r4) := span is_word r3 in
      match sp, w2 with
      | String _ _, String _ _ => Some (w1, w2, r4)
      | _, _ => None
      end
  | _, _ => None
  end.

(** The scan of [re.sub]: at each place, left to right, replace the match
    that begins there and go on after it, or copy one character.  [fuel]
    bounds the number of places visited. *)
Fixpoint sub_hyphen (fuel : nat) (s : string) : string :=
  match fuel with
  | O => s
  | S fuel' =>
      match s with
      | EmptyString => EmptyString
      | String c t =>
          match match_hyphen s with
          | Some (w1, w2, rest) => w1 ++ w2 ++ sub_hyphen fuel' rest
          | None => String c (sub_hyphen fuel' t)
          end
      end
  end.

Definition clean_hyphenated_text (text : string) : string :=
  sub_hyphen (String.length text) text.

(** The text of a line: [" ".join(word['text'] for word in line)]. *)
Definition line_text (line : list word) : string := join " " (map text line).

(** ** analyze_font_sizes *)

(** [tolerance = 0.5], a float as it stands. *)
Definition tolerance : Q := 0.5.

(** [size_groups]: the [defaultdict], its keys in insertion order. *)
Definition size_groups_t : Type := list (Q * list Q).

(** The inner [for group_size in size_groups] with its [break]: the first
    group whose key is within [tolerance] of [size] takes it; [None] when
    [grouped] stays [False]. *)
Fixpoint add_to_group (sz : Q) (groups : size_groups_t) : option size_groups_t :=
  match groups with
  | [] => None
  | (group_size, members) :: rest =>
      if Qle_bool (Qabs (fsub sz group_size)) tolerance
      then Some ((group_size, (members ++ [sz])%list) :: rest)
      else option_map (cons (group_size, members)) (add_to_group sz rest)
  end.

Definition group_step (groups : size_groups_t) (sz : Q) : size_groups_t :=
  match add_to_group sz groups with
  | Some groups' => groups'
  | None => (groups ++ [(sz, [sz])])%list
  end.

Definition group_sizes (font_sizes : list Q) : size_groups_t :=
  fold_left group_step font_sizes [].

(** [sum(v)/len(v)]: the sum adds the members to [0] one after the other,
    every addition rounding, and the quotient by the length rounds once
    more.  (This is the [sum] of CPython up to 3.11; from 3.12 on [sum]
    carries a correction term along and may differ in the last bit.) *)
Definition mean (v : list Q) : Q :=
  fdiv (fold_left fadd v 0) (inject_Z (Z.of_nat (List.length v))).

(** The returned dict; the empty dict is [None]. *)
Record font_info : Type := mk_font_info {
  all_sizes : list (Q * Q);
  size_frequency : list (Q * nat);
  avg_sizes : list (Q * Q);
  footnote_size : Q;
  header_size : Q;
  body_size : Q
}.

(** [[word['size'] for word in words if word['size']]] *)
Definition font_sizes_of (words : list word) : list Q :=
  map size_of (filter has_size words).

(** [l[i][1]]; the indices used below are in range. *)
Definition snd_at (l : list (Q * Q)) (i : nat) : Q := snd (nth i l (0, 0)).

Definition analyze_font_sizes (words : list word) : option font_info :=
  match font_sizes_of words with
  | [] => None
  | font_sizes =>
      let font_sizes := sort_with Qle_bool font_sizes in
      let size_groups := group_sizes font_sizes in
      let avg_sizes := map (fun kv => (fst kv, mean (snd kv))) size_groups in
      let size_frequency :=
        map (fun kv => (fst kv, List.length (snd kv))) size_groups in
      let sorted_sizes := sorted_by (@snd Q Q) avg_sizes in
      let n := List.length sorted_sizes in
      let '(footnote, header, body) :=
        if (3 <=? n)%nat then
          (snd_at sorted_sizes 0, snd_at sorted_sizes (n - 1),
           snd_at sorted_sizes (n / 2))
        else if (n =? 2)%nat then
          (snd_at sorted_sizes 0, snd_at sorted_sizes 1, snd_at sorted_sizes 1)
        else
          (snd_at sorted_sizes 0, snd_at sorted_sizes 0, snd_at sorted_sizes 0)
      in
      Some {| all_sizes := sorted_sizes;
              size_frequency := size_frequency;
              avg_sizes := avg_sizes;
              footnote_size := footnote;
              header_size := header;
              body_size := body |}
  end.

(** ** extract_titles *)

Definition is_title_word (w : word) : bool :=
  has_size w && Qlt_bool 7 (size_of w) && Qlt_bool (top w) 200.

(** [title_groups[k].append(w)] on the [defaultdict(list)]. *)
Fixpoint dict_append (k : Z) (w : word) (d : list (Z * list word))
  : list (Z * list word) :=
  match d with
  | [] => [(k, [w])]
  | (k', ws) :: rest =>
      if (k' =? k)%Z then (k', (ws ++ [w])%list) :: rest
      else (k', ws) :: dict_append k w rest
  end.

(** [title_groups[k]] for a key of the dict. *)
Fixpoint dict_get (k : Z) (d : list (Z * list word)) : list word :=
  match d with
  | [] => []
  | (k', ws) :: rest => if (k' =? k)%Z then ws else dict_get k rest
  end.

Definition title_groups_of (title_words : list word) : list (Z * list word) :=
  fold_left (fun d w => dict_append (py_round (top w)) w d) title_words [].

(** The body of [for y_pos in sorted(title_groups.keys())]. *)
Definition title_of_group (group_words : list word) : list string :=
  let group_words := sorted_by x0 group_words in
  let title_text := line_text group_words in
  if nonempty (strip title_text) then [strip title_text] else [].

Definition extract_titles (words : list word) : list string :=
  let title_words := filter is_title_word words in
  match title_words with
  | [] => []
  | _ =>
      let title_groups := title_groups_of title_words in
      flat_map (fun y_pos => title_of_group (dict_get y_pos title_groups))
               (sort_with Z.leb (map fst title_groups))
  end.

(** ** extract_body_paragraphs_with_footnote_refs *)

(** A call either returns or raises; the one exception the function can
    name is the [AttributeError] of [word['text'].append], a [str] having no
    [append]. *)
Inductive outcome (A : Type) : Type :=
  | Returns (a : A)
  | AttributeError.
Arguments Returns {A} a.
Arguments AttributeError {A}.

Definition in_body_band (w : word) : bool :=
  has_size w && Qle_bool 10 (size_of w) && Qle_bool (size_of w) 11
  && Qlt_bool 70 (top w) && Qlt_bool (top w) 400.

(** The inner test: a small all-digit token of one or two characters. *)
Definition is_footnote_ref (w : word) : bool :=
  Qle_bool (size_of w) 6 && isdigit (text w)
  && (String.length (text w) <=? 2)%nat.

(** The first loop: [body_words]. *)
Fixpoint collect_body_words (words body_words : list word)
  : outcome (list word) :=
  match words with
  | [] => Returns body_words
  | w :: rest =>
      if in_body_band w then
        if is_footnote_ref w then AttributeError
        else collect_body_words rest (body_words ++ [w])%list
      else collect_body_words rest body_words
  end.

(** An entry of [current_para]. *)
Record para_line : Type := mk_para_line {
  pl_text : string;
  pl_indent : Q;
  pl_y : Q
}.

(** [re.match(r'^[A-Z]', line_text)] *)
Definition starts_AZ (s : string) : bool :=
  match s with
  | String c _ => is_AZ c
  | EmptyString => false
  end.

(** The accumulators of the second loop: [body_paragraphs], [current_para],
    [first_para]. *)
Definition para_state : Type := (list string * list para_line * bool)%type.

Definition para_step (st : para_state) (line : list word) : para_state :=
  let '(body_paragraphs, current_para, first_para) := st in
  match line with
  | [] => st
  | first_word :: _ =>
      let indent := x0 first_word in
      let text := clean_hyphenated_text (line_text line) in
      let '(is_new_para, first_para') :=
        if first_para then
          if Qlt_bool 90 indent then (true, false) else (false, true)
        else if Qle_bool indent 90 then
          (starts_AZ text && (2 <? split_len text)%nat, false)
        else (false, false) in
      let new_line := mk_para_line text indent (top first_word) in
      match is_new_para, current_para with
      | true, _ :: _ =>
          ((body_paragraphs ++ [join " " (map pl_text current_para)])%list,
           [new_line], first_para')
      | _, _ =>
          (body_paragraphs, (current_para ++ [new_line])%list, first_para')
      end
  end.

Definition paragraphs_of_lines (body_lines : list (list word)) : list string :=
  let '(body_paragraphs, current_para, _) :=
    fold_left para_step body_lines ([], [], true) in
  match current_para with
  | [] => body_paragraphs
  | _ => (body_paragraphs ++ [join " " (map pl_text current_para)])%list
  end.

Definition extract_body_paragraphs_with_footnote_refs (words : list word)
  : outcome (list string) :=
  match collect_body_words words [] with
  | AttributeError => AttributeError
  | Returns body_words =>
      Returns (paragraphs_of_lines (group_words_to_lines body_words 2))
  end.

(** ** extract_footnotes_improved *)

(** An open or closed footnote of the first loop. *)
Record open_footnote : Type := mk_open_footnote {
  of_original_id : string;
  content : list string;
  start_y : Q
}.

(** An entry of the result. *)
Record footnote_out : Type := mk_footnote_out {
  original_id : string;
  source_text : string
}.

(** [re.match(r'^\d+', s)] *)
Definition starts_with_number (s : string) : bool :=
  match s with
  | String c _ => is_decimal c
  | EmptyString => false
  end.

(** [.] of [re]: any character but the newline. *)
Definition not_newline (c : ascii) : bool := negb (N_of_ascii c =? 10)%N.

(** The two groups of the second [re.match] on a string that begins with a
    digit: the whole run of digits, then everything up to the end of the
    line. *)
Definition number_and_rest (s : string) : string * string :=
  let (num, r) := span is_decimal s in
  (num, fst (span not_newline r)).

(** The accumulators of the first loop: [footnotes], [current_footnote]. *)
Definition footnote_state : Type :=
  (list open_footnote * option open_footnote)%type.

Definition footnote_step (st : footnote_state) (line : list word)
  : footnote_state :=
  let '(footnotes, current_footnote) := st in
  match line with
  | [] => st
  | first_word :: _ =>
      let line_y := top first_word in
      let text := clean_hyphenated_text (line_text line) in
      if starts_with_number text then
        let footnotes' :=
          match current_footnote with
          | Some cur => (footnotes ++ [cur])%list
          | None => footnotes
          end in
        let (footnote_num, rest) := number_and_rest text in
        let content := strip rest in
        (footnotes',
         Some (mk_open_footnote footnote_num
                 (if nonempty content then [content] else []) line_y))
      else
        match current_footnote with
        | Some cur =>
            if Qlt_bool (Qabs (fsub line_y (start_y cur))) 30
               && negb (starts_with_number text)
            then (footnotes,
                  Some (mk_open_footnote (of_original_id cur)
                          (content cur ++ [text])%list (start_y cur)))
            else st
        | None => st
        end
  end.

(** The first loop and [if current_footnote: footnotes.append(...)]. *)
Definition assemble_footnotes (footnote_lines : list (list word))
  : list open_footnote :=
  let '(footnotes, current_footnote) :=
    fold_left footnote_step footnote_lines ([], None) in
  match current_footnote with
  | Some cur => (footnotes ++ [cur])%list
  | None => footnotes
  end.

(** [result[-1]['source_text'] += " " + footnote_text] *)
Fixpoint append_to_last (extra : string) (result : list footnote_out)
  : list footnote_out :=
  match result with
  | [] => []
  | [r] => [mk_footnote_out (original_id r) (source_text r ++ " " ++ extra)]
  | r :: rest => r :: append_to_last extra rest
  end.

(** The second loop, with the fold of the footnotes 233 and 241 into a
    footnote 9 that ends the result so far. *)
Definition finish_step (result : list footnote_out) (fn : open_footnote)
  : list footnote_out :=
  let footnote_text := join " " (content fn) in
  if ((of_original_id fn =? "233") || (of_original_id fn =? "241"))%string
     && match last (map (fun r => Some (original_id r)) result) None with
        | Some i => (i =? "9")%string
        | None => false
        end
  then append_to_last footnote_text result
  else (result ++ [mk_footnote_out (of_original_id fn) footnote_text])%list.

Definition in_footnote_band (w : word) : bool := Qlt_bool 450 (top w).

Definition footnote_lines_of (words : list word) : list (list word) :=
  let footnote_words := filter in_footnote_band words in
  let footnote_words := sorted_by top footnote_words in
  group_words_to_lines footnote_words 2.

Definition extract_footnotes_improved (words : list word)
  : list footnote_out :=
  fold_left finish_step (assemble_footnotes (footnote_lines_of words)) [].

(** ** Vocabulary of the statements *)

Local Open Scope list_scope.

(** ** group_words_to_lines: lines are chains *)

(** The top of the last word of a list. *)
Fixpoint last_top (l : list word) : option Q :=
  match l with
  | [] => None
  | [a] => Some (top a)
  | _ :: r => last_top r
  end.

(** Each word of the line is less than [t] below or above the word before
    it. *)
Fixpoint chained (t : Q) (l : list word) : Prop :=
  match l with
  | a :: (b :: _) as r => Qabs (top b - top a) < t /\ chained t r
  | _ => True
  end.

(** The test of the loop on a height [b] that follows a height [a]:
    [abs(b - a) < t], the difference being the float the source computes. *)
Definition near (t a b : Q) : Prop := Qabs (fsub b a) < t.

(** Each word of the line passes the test of the loop against the word
    before it. *)
Fixpoint linked (t : Q) (l : list word) : Prop :=
  match l with
  | a :: (b :: _) as r => near t (top a) (top b) /\ linked t r
  | _ => True
  end.

(** The first word of [l2] fails the test of the loop against the last word
    of [l1]. *)
Definition gap (t : Q) (l1 l2 : list word) : Prop :=
  match last_top l1, l2 with
  | Some a, b :: _ => ~ near t a (top b)
  | _, _ => True
  end.

(** Consecutive lines are separated by a gap. *)
Fixpoint separated (t : Q) (ls : list (list word)) : Prop :=
  match ls with
  | l1 :: (l2 :: _) as r => gap t l1 l2 /\ separated t r
  | _ => True
  end.

(** What the loop keeps true, [ws] being the words read so far. *)
Definition lines_inv (t : Q) (ws : list word) (st : lines_state) : Prop :=
  let '(lines, current_line, last) := st in
  (List.concat lines ++ current_line)%list = ws
  /\ last = last_top current_line
  /\ (current_line = [] -> lines = [])
  /\ Forall (fun l => l <> []) lines
  /\ Forall (linked t) lines
  /\ linked t current_line
  /\ separated t (lines ++ [current_line]).

(** A word at the height [y], for the examples. *)
Definition word_at (y : Q) : word := mk_word "w" 0 y (y + 10) (Some 10) "Times".

(** ** clean_hyphenated_text: what a match is *)

(** [s] begins with a character that satisfies [p]. *)
Definition starts_with (p : ascii -> bool) (s : string) : bool :=
  match s with
  | String c _ => p c
  | EmptyString => false
  end.

(** ** analyze_font_sizes: the buckets *)

(** [abs(a - b) <= tolerance], the difference being the float the source
    computes. *)
Definition within_tolerance (a b : Q) : bool :=
  Qle_bool (Qabs (fsub a b)) tolerance.

(** What the loop computes on ascending sizes, said directly: a bucket is
    opened by a size, its representative, and takes the sizes that follow as
    long as they are within [tolerance] of the representative. *)
Fixpoint anchor_runs (anchor : Q) (members rest : list Q) : size_groups_t :=
  match rest with
  | [] => [(anchor, members)]
  | x :: r =>
      if within_tolerance x anchor
      then anchor_runs anchor (members ++ [x]) r
      else (anchor, members) :: anchor_runs x [x] r
  end.

Definition anchor_clusters (sizes : list Q) : size_groups_t :=
  match sizes with
  | [] => []
  | x :: r => anchor_runs x [x] r
  end.

(** Following the specification's words: consecutive sizes whose difference
    is at most [tolerance] fall into the same bucket ([prev] is the size just
    before). *)
Fixpoint chain_runs (prev : Q) (members rest : list Q) : list (list Q) :=
  match rest with
  | [] => [members]
  | x :: r =>
      if within_tolerance x prev
      then chain_runs x (members ++ [x]) r
      else members :: chain_runs x [x] r
  end.

Definition chain_clusters (sizes : list Q) : list (list Q) :=
  match sizes with
  | [] => []
  | x :: r => chain_runs x [x] r
  end.

(** The key of a bucket is not within [tolerance] of the key of the bucket
    before: it is more than [tolerance] above it. *)
Fixpoint keys_apart (groups : size_groups_t) : Prop :=
  match groups with
  | kv1 :: (kv2 :: _) as r =>
      within_tolerance (fst kv2) (fst kv1) = false
      /\ fst kv1 + tolerance < fst kv2
      /\ keys_apart r
  | _ => True
  end.

(** A bucket begins with its representative and holds sizes within
    [tolerance] of it. *)
Definition bucket_ok (kv : Q * list Q) : Prop :=
  hd_error (snd kv) = Some (fst kv)
  /\ Forall (fun x => within_tolerance x (fst kv) = true) (snd kv).

(** The tier sizes as the three branches choose them. *)
Definition tiers_of (sorted_sizes : list (Q * Q)) : Q * Q * Q :=
  let n := List.length sorted_sizes in
  if (3 <=? n)%nat then
    (snd_at sorted_sizes 0, snd_at sorted_sizes (n - 1),
     snd_at sorted_sizes (n / 2))
  else if (n =? 2)%nat then
    (snd_at sorted_sizes 0, snd_at sorted_sizes 1, snd_at sorted_sizes 1)
  else
    (snd_at sorted_sizes 0, snd_at sorted_sizes 0, snd_at sorted_sizes 0).

(** The sizes of the example: the floats 10.0, 10.4 and 10.8, each on a
    word. *)
Definition close_sizes : list Q := map py_float [10; 10.4; 10.8].

Definition sized_word (s : Q) : word := mk_word "x" 0 0 0 (Some s) "Times".

(** Four sizes in three buckets, for the example. *)
Definition tier_words : list word := map sized_word [14; 6; 10; 10.4].

(** ** extract_titles: one title per rounded height *)

(** The rounded height of a word, the key of [title_groups]. *)
Definition y_key (w : word) : Z := py_round (top w).

(** The title words in two groups of the example: 100.4 and 100.6 are 0.2
    apart and round to 100 and 101. *)
Definition split_title : list word :=
  [mk_word "NATIONALISM" 120 100.6 112 (Some 12) "Times-Bold";
   mk_word "ARAB" 50 100.4 112 (Some 12) "Times-Bold"].

(** Three title words whose tops all round to 100. *)
Definition one_title : list word :=
  [mk_word "NATIONALISM" 120 100.3 112 (Some 12) "Times-Bold";
   mk_word "ARAB" 50 100.4 112 (Some 12) "Times-Bold";
   mk_word "DEFINING" 10 100 112 (Some 12) "Times-Bold"].

(** A line of body text with a superscript 7 after its first word. *)
Definition marked_line : list word :=
  [mk_word "Nasser" 80 100 111 (Some 10.5) "Times";
   mk_word "7" 112 98 104 (Some 5.5) "Times";
   mk_word "said" 118 100 111 (Some 10.5) "Times"].

(** ** extract_footnotes_improved: the assembly *)

(** The text and the height the loop reads off a line. *)
Definition cleaned_text (line : list word) : string :=
  clean_hyphenated_text (line_text line).

Definition line_y (line : list word) : Q :=
  match line with
  | first_word :: _ => top first_word
  | [] => 0
  end.

(** [footnotes] with the open footnote, if any, appended. *)
Definition with_open (footnotes : list open_footnote)
    (current_footnote : option open_footnote) : list open_footnote :=
  match current_footnote with
  | Some cur => footnotes ++ [cur]
  | None => footnotes
  end.

(** The footnote a numbered line opens. *)
Definition opened_by (line : list word) : open_footnote :=
  let content := strip (snd (number_and_rest (cleaned_text line))) in
  mk_open_footnote (fst (number_and_rest (cleaned_text line)))
                   (if nonempty content then [content] else [])
                   (line_y line).

(** An entry of the result as [finish_step] appends it. *)
Definition closed (fn : open_footnote) : footnote_out :=
  mk_footnote_out (of_original_id fn) (join " " (content fn)).

(** Following the specification's words: a line that begins with a number
    opens a footnote; the lines after it, up to the next line that begins
    with a number, are appended to it when they are within 30 units of the
    opening line. *)

(** The line begins with a number. *)
Definition opens_footnote (line : list word) : bool :=
  starts_with_number (cleaned_text line).

(** [abs(line_y - start_y) < 30], the difference being the float the source
    computes. *)
Definition within_30 (start : Q) (line : list word) : bool :=
  Qlt_bool (Qabs (fsub (line_y line) start)) 30.

(** The lines up to the next line that begins with a number. *)
Fixpoint unnumbered_run (lines : list (list word)) : list (list word) :=
  match lines with
  | [] => []
  | l :: r => if opens_footnote l then [] else l :: unnumbered_run r
  end.

(** Each numbered line with the lines between it and the next numbered
    line; the lines before the first numbered line belong to no block. *)
Fixpoint footnote_blocks (lines : list (list word))
  : list (list word * list (list word)) :=
  match lines with
  | [] => []
  | l :: r =>
      if opens_footnote l then (l, unnumbered_run r) :: footnote_blocks r
      else footnote_blocks r
  end.

(** An open footnote with the lines that follow: the texts of those within
    30 units of its opening line go to its content. *)
Definition continued (cur : open_footnote) (following : list (list word))
  : open_footnote :=
  mk_open_footnote
    (of_original_id cur)
    (content cur
     ++ map cleaned_text (filter (within_30 (start_y cur)) following))
    (start_y cur).

(** The footnote of a block: the number and the stripped remainder of the
    opening line, then the texts of the following lines that are within 30
    units of it. *)
Definition footnote_of_block (b : list word * list (list word))
  : open_footnote :=
  continued (opened_by (fst b)) (snd b).

(** The footnote that is open, with the lines up to the next numbered
    line. *)
Definition open_with (cur : option open_footnote) (lines : list (list word))
  : list open_footnote :=
  match cur with
  | Some c => [continued c (unnumbered_run lines)]
  | None => []
  end.

(** The footnote is numbered 233 or 241, the two numbers that the second
    loop folds into a footnote 9. *)
Definition folded_id (fn : open_footnote) : bool :=
  ((of_original_id fn =? "233") || (of_original_id fn =? "241"))%string.

(** The words of the scenario: the block at the height 460, the wrapped
    line 12 units below. *)
Definition nine_block : list word :=
  [mk_word "9" 50 460 466 (Some 6) "Times";
   mk_word "Foo" 58 460 468 (Some 8) "Times";
   mk_word "bar" 80 460 468 (Some 8) "Times";
   mk_word "baz" 100 460 468 (Some 8) "Times"].

Definition nine_wrap : list word :=
  [mk_word "qux." 50 472 480 (Some 8) "Times"].

Definition footnote_nine : list word := nine_block ++ nine_wrap.

(** ** extract_page_header *)

(** [word.get('size') and 6.0 <= word['size'] < 7.0 and word['top'] < 70] *)
Definition is_header_word (w : word) : bool :=
  has_size w && Qle_bool 6 (size_of w) && Qlt_bool (size_of w) 7
  && Qlt_bool (top w) 70.

Definition extract_page_header (words : list word) : string :=
  match filter is_header_word words with
  | [] => EmptyString
  | header_words => line_text (sorted_by x0 header_words)
  end.

(** ** pdf_to_json_final

    The document is the list of its pages, a page being the words that
    [page.extract_words(x_tolerance=2, y_tolerance=2, ...)] gives for it.
    The value modelled is [result] as the loop over the pages leaves it,
    which the function returns after writing it out; the file system is
    left out. *)

Inductive unit_type : Type := title | header | paragraph | footnote.

(** An entry of [content_units].  [unit_original_id] is [None] where the
    dict has no key ['original_id']. *)
Record content_unit : Type := mk_content_unit {
  unit_id : Z;
  unit_kind : unit_type;
  unit_original_id : option string;
  unit_source_text : string;
  unit_status : string;
  unit_azure_translation : string;
  unit_ai_second_draft : string
}.

Record page_content : Type := mk_page_content {
  page_number : Z;
  content_units : list content_unit
}.

(** The dict literal that every [append] of the page loop builds. *)
Definition new_unit (content_id : Z) (ty : unit_type)
    (oid : option string) (src : string) : content_unit :=
  mk_content_unit content_id ty oid src "pending" EmptyString EmptyString.

(** [content_units] and [content_id], which the four loops of a page
    thread. *)
Definition units_state : Type := (list content_unit * Z)%type.

(** One turn of a [for x in xs: content_units.append({...}); content_id += 1]. *)
Definition append_unit (A : Type) (ty : unit_type) (oid : A -> option string)
    (src : A -> string) (st : units_state) (x : A) : units_state :=
  let '(units, content_id) := st in
  (units ++ [new_unit content_id ty (oid x) (src x)], (content_id + 1)%Z).

Definition append_units (A : Type) (ty : unit_type) (oid : A -> option string)
    (src : A -> string) (xs : list A) (st : units_state) : units_state :=
  fold_left (append_unit ty oid src) xs st.

(** The body of the page loop from [extract_titles] on: the units of the
    page and [content_id] after it. *)
Definition page_units (words : list word) (content_id : Z)
  : outcome units_state :=
  let titles := extract_titles words in
  let st := append_units title (fun _ => None) (fun t => t) titles
                         ([], content_id) in
  let st :=
    match titles with
    | [] =>
        let header_text := extract_page_header words in
        if nonempty header_text
        then append_unit header (fun _ => None) (fun t => t) st header_text
        else st
    | _ => st
    end in
  match extract_body_paragraphs_with_footnote_refs words with
  | AttributeError => AttributeError
  | Returns body_paragraphs =>
      let st := append_units paragraph (fun _ => None) (fun t => t)
                             body_paragraphs st in
      let footnotes := extract_footnotes_improved words in
      Returns (append_units footnote (fun f => Some (original_id f))
                            source_text footnotes st)
  end.

(** [l[i]] on a Python list: a negative index counts from the end; [None]
    stands for the [IndexError]. *)
Definition py_index (A : Type) (l : list A) (i : Z) : option A :=
  let n := Z.of_nat (List.length l) in
  if ((0 <=? i) && (i <? n))%Z then nth_error l (Z.to_nat i)
  else if ((- n <=? i) && (i <? 0))%Z then nth_error l (Z.to_nat (i + n))
  else None.

(** [range(start, stop)] *)
Definition py_range (start stop : Z) : list Z :=
  map (fun k => (start + Z.of_nat k)%Z) (seq 0 (Z.to_nat (stop - start))).

(** What a run can raise: the [IndexError] of [pdf.pages[page_num]] and the
    [AttributeError] of the body extraction. *)
Inductive raised : Type := IndexError | BodyAttributeError.

Inductive run (A : Type) : Type :=
  | Finished (a : A)
  | Raised (e : raised).
Arguments Finished {A} a.
Arguments Raised {A} e.

(** The loop [for page_num in range(...)], [result] and [content_id] being
    its accumulators. *)
Fixpoint pages_loop (pages : list (list word)) (page_nums : list Z)
    (result : list page_content) (content_id : Z) : run (list page_content) :=
  match page_nums with
  | [] => Finished result
  | page_num :: rest =>
      match py_index pages page_num with
      | None => Raised IndexError
      | Some words =>
          match page_units words content_id with
          | AttributeError => Raised BodyAttributeError
          | Returns (units, content_id') =>
              pages_loop pages rest
                (result ++ [mk_page_content (page_num + 1) units]) content_id'
          end
      end
  end.

Definition pdf_to_json_final (pages : list (list word))
    (start_page end_page : option Z) : run (list page_content) :=
  let start_page := match start_page with None => 1%Z | Some s => s end in
  let end_page :=
    match end_page with
    | None => (Z.of_nat (List.length pages) + 1)%Z
    | Some e => e
    end in
  pages_loop pages (py_range (start_page - 1) (end_page - 1)) [] 1%Z.

(** ** More vocabulary *)

(** [s] has no hyphen. *)
Definition no_hyphen (s : string) : bool :=
  all_chars (fun c => negb (Ascii.eqb c "-")) s.

(** The lines the paragraph loop looks at. *)
Definition seen_lines (lines : list (list word)) : list (list word) :=
  filter (fun line => match line with [] => false | _ => true end) lines.

(** The ids of all units of a result, page after page. *)
Definition all_unit_ids (result : list page_content) : list Z :=
  map unit_id (flat_map content_units result).

(** [first, first + 1, ...], [n] numbers. *)
Definition count_from (first : Z) (n : nat) : list Z :=
  map (fun k => (first + Z.of_nat k)%Z) (seq 0 n).

(** The types of the units of a page, in order. *)
Definition kinds (units : list content_unit) : list unit_type :=
  map unit_kind units.

(** A text made of decimal digits, at least one. *)
Definition is_number (s : string) : Prop :=
  nonempty s = true /\ all_chars is_decimal s = true.

(** A page of the example: a title, two lines of body text, a footnote. *)
Definition example_page : list word :=
  [mk_word "ONE" 50 100 112 (Some 12) "Times-Bold";
   mk_word "Nasser" 80 210 221 (Some 10.5) "Times";
   mk_word "said" 118 210 221 (Some 10.5) "Times";
   mk_word "3" 50 460 466 (Some 6) "Times";
   mk_word "Ibid." 58 460 468 (Some 8) "Times"].

(** A page with a running header and one line of body text. *)
Definition example_page_2 : list word :=
  [mk_word "12" 50 40 46 (Some 6.5) "Times";
   mk_word "CHAPTER" 70 40 46 (Some 6.5) "Times";
   mk_word "went" 80 210 221 (Some 10.5) "Times";
   mk_word "on" 118 210 221 (Some 10.5) "Times"].

(** The line begins at the left margin: its first word is not indented. *)
Definition flush_left (line : list word) : Prop :=
  match line with
  | first_word :: _ => x0 first_word <= 90
  | [] => True
  end.

(** No footnote 233 or 241 comes right after a footnote 9. *)
Fixpoint no_fold_pair (ids : list string) : Prop :=
  match ids with
  | a :: (b :: _) as r =>
      ~ (a = "9"%string /\ (b = "233"%string \/ b = "241"%string))
      /\ no_fold_pair r
  | _ => True
  end.

(** The units that one of the four loops appends, [content_id] being the
    first id it gives. *)
Fixpoint units_from (A : Type) (ty : unit_type) (oid : A -> option string)
    (src : A -> string) (content_id : Z) (xs : list A) : list content_unit :=
  match xs with
  | [] => []
  | x :: r =>
      new_unit content_id ty (oid x) (src x)
      :: units_from ty oid src (content_id + 1) r
  end.

(** The header unit of a page, if the page gets one. *)
Definition header_units (words : list word) (content_id : Z)
  : list content_unit :=
  match extract_titles words with
  | [] =>
      if nonempty (extract_page_header words)
      then [new_unit content_id header None (extract_page_header words)]
      else []
  | _ => []
  end.

(** The paragraphs of a page, the function returning for every page. *)
Definition body_paragraphs (words : list word) : list string :=
  paragraphs_of_lines (group_words_to_lines (filter in_body_band words) 2).

(** The page of the result at the index [page_num] of the loop: its number,
    and its units, which are those of the words of [pages[page_num]]. *)
Definition page_of (pages : list (list word)) (page_num : Z)
    (pg : page_content) : Prop :=
  page_number pg = (page_num + 1)%Z
  /\ exists words content_id content_id',
       py_index pages page_num = Some words
       /\ page_units words content_id = Returns (content_units pg, content_id').

End PdfToJsonFinal.

(* ================================================================== *)
(** * pdf_to_md.py: the text of a page and the tables *)
(* ================================================================== *)

(** [pdf_to_md] reaches its pages through [tqdm], a name the module does
    not import, so that a call ends there; what follows is the body of
    the page loop and the function nested in it, for a page handed to
    them, and [extract_table_markdown]. *)
Module PdfToMd.

Import PyStr PdfToJsonFinal.
Local Open Scope string_scope.
Local Open Scope Q_scope.
Local Open Scope list_scope.

(** The line feed. *)
Definition nl : string := String (ascii_of_nat 10) EmptyString.

(** ** extract_table_markdown *)

(** [cell if cell is not None else ""] *)
Definition cell_text (cell : option string) : string :=
  match cell with
  | Some c => c
  | None => EmptyString
  end.

(** ["| " + " | ".join(row) + " |\n"] *)
Definition row_line (row : list string) : string :=
  ("| " ++ join " | " row ++ " |" ++ nl)%string.

(** A table of [page.extract_tables()]: rows of cells, a cell being a text
    or [None]. *)
Definition extract_table_markdown (table : list (list (option string)))
  : string :=
  match map (map cell_text) table with
  | [] => EmptyString
  | first_row :: rows =>
      let markdown_table := row_line first_row in
      let markdown_table :=
        (markdown_table
         ++ row_line (repeat "---"%string (List.length first_row)))%string in
      let markdown_table :=
        fold_left (fun acc row => (acc ++ row_line row)%string)
                  rows markdown_table in
      (markdown_table ++ nl)%string
  end.

(** ** The words of a page *)

(** The filter on the header and the footer of the page. *)
Definition in_page_body (header_threshold footer_threshold page_height : Q)
    (w : word) : bool :=
  Qlt_bool (fmul header_threshold page_height) (top w)
  && Qlt_bool (bottom w) (fmul page_height (fsub 1 footer_threshold)).

(** ** group_words_to_lines, the function nested in the page loop

    It has neither the test on an empty list of words nor the test on
    [current_line] before a line is closed. *)

Definition lines_step (y_tolerance : Q) (st : lines_state) (w : word)
  : lines_state :=
  let '(lines, current_line, last_top) := st in
  let same_line :=
    match last_top with
    | None => true
    | Some t => Qlt_bool (Qabs (fsub (top w) t)) y_tolerance
    end in
  if same_line then (lines, current_line ++ [w], Some (top w))
  else (lines ++ [current_line], [w], Some (top w)).

Definition group_words_to_lines (words : list word) (y_tolerance : Q)
  : list (list word) :=
  let words := sorted_by top words in
  let '(lines, current_line, _) :=
    fold_left (lines_step y_tolerance) words ([], [], None) in
  close_line lines current_line.

(** ** The paragraphs of a page *)

(** The accumulators of the loop: [paragraphs], [current_para], [last_x0],
    [last_line_top]. *)
Definition paragraphs_state : Type :=
  (list (list (list word)) * list (list word) * option Q * option Q)%type.

(** [if current_para: paragraphs.append(current_para)] *)
Definition close_para (paragraphs : list (list (list word)))
    (current_para : list (list word)) : list (list (list word)) :=
  match current_para with
  | [] => paragraphs
  | _ => paragraphs ++ [current_para]
  end.

(** One turn of the loop; [None] is the [IndexError] of [line[0]] on an
    empty line, after which no turn does anything. *)
Definition paragraphs_step (indent_threshold paragraph_y_gap : Q)
    (st : option paragraphs_state) (line : list word)
  : option paragraphs_state :=
  match st, line with
  | None, _ => None
  | Some _, [] => None
  | Some (paragraphs, current_para, last_x0, last_line_top), first_word :: _ =>
      let line_top := top first_word in
      let by_indent :=
        match last_x0 with
        | Some x => Qlt_bool indent_threshold (fsub (x0 first_word) x)
        | None => false
        end in
      let by_gap :=
        match last_line_top with
        | Some t => Qlt_bool paragraph_y_gap (Qabs (fsub line_top t))
        | None => false
        end in
      if by_indent || by_gap
      then Some (close_para paragraphs current_para, [line],
                 Some (x0 first_word), Some line_top)
      else Some (paragraphs, current_para ++ [line],
                 Some (x0 first_word), Some line_top)
  end.

Definition paragraphs_of (indent_threshold paragraph_y_gap : Q)
    (lines : list (list word)) : option (list (list (list word))) :=
  match fold_left (paragraphs_step indent_threshold paragraph_y_gap) lines
                  (Some ([], [], None, None)) with
  | None => None
  | Some (paragraphs, current_para, _, _) =>
      Some (close_para paragraphs current_para)
  end.

(** [" ".join(" ".join(word['text'] for word in line) for line in para)] *)
Definition para_text (para : list (list word)) : string :=
  join " " (map line_text para).

(** What the page loop writes for the text of a page, one string a
    paragraph. *)
Definition page_text (page_width page_height header_threshold
    footer_threshold paragraph_y_gap : Q) (words : list word)
  : option (list string) :=
  let words :=
    filter (in_page_body header_threshold footer_threshold page_height)
           words in
  let lines := group_words_to_lines words 2 in
  let indent_threshold := fmul page_width (py_float 0.02) in
  option_map (map (fun para => (para_text para ++ nl ++ nl)%string))
             (paragraphs_of indent_threshold paragraph_y_gap lines).

(** ** Vocabulary *)

(** [s] has no line feed. *)
Definition one_line (s : string) : bool :=
  all_chars (fun c => negb (ord c =? 10)%N) s.

(** A row as it is written, without the line feed. *)
Definition row_text (row : list (option string)) : string :=
  ("| " ++ join " | " (map cell_text row) ++ " |")%string.

(** The separator that follows the first row. *)
Definition separator (first_row : list (option string)) : string :=
  ("| " ++ join " | " (repeat "---"%string (List.length first_row))
   ++ " |")%string.

(** A table of two rows, the second with an empty cell. *)
Definition example_table : list (list (option string)) :=
  [[Some "Year"%string; Some "Event"%string];
   [Some "1958"%string; None]].

End PdfToMd.

(* ================================================================== *)
(** * JSON values in Python *)
(* ================================================================== *)

(** What [json.load] gives, and the operations of Python that the
    translator applies to it.  A [dict] is the list of its items, each key
    once; a number is a rational. *)
Module PyJson.

Import PyStr.
Local Open Scope string_scope.

#[local] Unset Elimination Schemes.
Inductive json : Type :=
  | JNull
  | JBool (b : bool)
  | JNum (q : Q)
  | JStr (s : string)
  | JArr (items : list json)
  | JObj (fields : list (string * json)).
#[local] Set Elimination Schemes.

Inductive exn : Type := AttributeError | TypeError | KeyError | IndexError.

Inductive outcome (A : Type) : Type :=
  | Returns (a : A)
  | Raises (e : exn).
Arguments Returns {A} a.
Arguments Raises {A} e.

Definition bind (A B : Type) (a : outcome A) (f : A -> outcome B) : outcome B :=
  match a with
  | Returns x => f x
  | Raises e => Raises e
  end.

Notation "x <- a ;; b" := (bind a (fun x => b))
  (at level 61, a at next level, right associativity).

(** A loop that threads a state and stops at the first exception. *)
Fixpoint for_each (A S : Type) (f : S -> A -> outcome S) (l : list A) (s : S)
  : outcome S :=
  match l with
  | [] => Returns s
  | a :: r => s' <- f s a ;; for_each f r s'
  end.

(** [enumerate(l)] *)
Definition enumerate (A : Type) (l : list A) : list (nat * A) :=
  combine (seq 0 (List.length l)) l.

(** The truth value of a value. *)
Definition truthy (v : json) : bool :=
  match v with
  | JNull => false
  | JBool b => b
  | JNum q => negb (Qeq_bool q 0)
  | JStr s => nonempty s
  | JArr items => match items with [] => false | _ => true end
  | JObj fields => match fields with [] => false | _ => true end
  end.

(** [d.get(k)] on the items of a dict. *)
Fixpoint dict_get (fields : list (string * json)) (k : string) : option json :=
  match fields with
  | [] => None
  | (k', v) :: rest => if (k' =? k)%string then Some v else dict_get rest k
  end.

(** [sub in s] on strings. *)
Fixpoint contains (sub s : string) : bool :=
  prefix sub s
  || match s with
     | String _ r => contains sub r
     | EmptyString => false
     end.

(** [k in v] for a string [k]: a key of a dict, an element of a list, a
    part of a string; a [TypeError] on the rest. *)
Definition py_in (k : string) (v : json) : outcome bool :=
  match v with
  | JObj fields =>
      Returns (match dict_get fields k with Some _ => true | None => false end)
  | JArr items =>
      Returns (existsb (fun x => match x with
                                 | JStr s => (s =? k)%string
                                 | _ => false
                                 end) items)
  | JStr s => Returns (contains k s)
  | _ => Raises TypeError
  end.

(** [v[k]] for a string [k]. *)
Definition py_getitem (v : json) (k : string) : outcome json :=
  match v with
  | JObj fields =>
      match dict_get fields k with
      | Some x => Returns x
      | None => Raises KeyError
      end
  | _ => Raises TypeError
  end.

(** [v[0]]: no dict of [json.load] has the key [0]. *)
Definition py_first (v : json) : outcome json :=
  match v with
  | JArr (x :: _) => Returns x
  | JArr [] => Raises IndexError
  | JStr (String c _) => Returns (JStr (String c EmptyString))
  | JStr EmptyString => Raises IndexError
  | JObj _ => Raises KeyError
  | _ => Raises TypeError
  end.

(** [len(v)] *)
Definition py_len (v : json) : outcome nat :=
  match v with
  | JArr items => Returns (List.length items)
  | JStr s => Returns (String.length s)
  | JObj fields => Returns (List.length fields)
  | _ => Raises TypeError
  end.

(** What [for x in v] goes through: the elements of a list, the
    characters of a string, the keys of a dict. *)
Definition py_iter (v : json) : outcome (list json) :=
  match v with
  | JArr items => Returns items
  | JStr s =>
      Returns (map (fun c => JStr (String c EmptyString))
                   (list_ascii_of_string s))
  | JObj fields => Returns (map (fun kv => JStr (fst kv)) fields)
  | _ => Raises TypeError
  end.

End PyJson.

(* ================================================================== *)
(** * azure_translator.py: what is translated and what comes back *)
(* ================================================================== *)
Module AzureTranslator.

Import PyStr PyJson.
Local Open Scope string_scope.

(** ** extract_texts_for_translation *)

(** An entry of [texts_to_translate]. *)
Record item : Type := mk_item {
  chapter_idx : nat;
  unit_idx : nat;
  text : string;
  type : string
}.

(** [text and text.strip()] on a string. *)
Definition translatable (text : string) : bool :=
  nonempty text && nonempty (strip text).

(** The body of the inner loop.  [unit.get] fails on what is not a dict,
    and [text.strip()] on a true value that is not a string. *)
Definition unit_step (chapter_idx : nat) (texts_to_translate : list item)
    (iu : nat * json) : outcome (list item) :=
  let (unit_idx, unit) := iu in
  match unit with
  | JObj fields =>
      match dict_get fields "type" with
      | Some (JStr ty) =>
          if (ty =? "title") || (ty =? "paragraph") then
            match dict_get fields "text" with
            | None => Returns texts_to_translate
            | Some (JStr text) =>
                if translatable text
                then Returns (texts_to_translate
                              ++ [mk_item chapter_idx unit_idx text ty])%list
                else Returns texts_to_translate
            | Some v =>
                if truthy v then Raises AttributeError
                else Returns texts_to_translate
            end
          else Returns texts_to_translate
      | _ => Returns texts_to_translate
      end
  | _ => Raises AttributeError
  end.

(** The body of the outer loop. *)
Definition chapter_step (texts_to_translate : list item) (ic : nat * json)
  : outcome (list item) :=
  let (chapter_idx, chapter) := ic in
  has <- py_in "content_units" chapter ;;
  if has then
    content_units <- py_getitem chapter "content_units" ;;
    units <- py_iter content_units ;;
    for_each (unit_step chapter_idx) (enumerate units) texts_to_translate
  else Returns texts_to_translate.

Definition extract_texts_for_translation (data : list json)
  : outcome (list item) :=
  for_each chapter_step (enumerate data) [].

(** ** translate_batch *)

(** What a [requests.post] comes to: an exception, or a response with its
    status code and the value of its body, [None] where [request.json()]
    raises. *)
Inductive reply : Type :=
  | PostRaises
  | Response (status_code : Z) (body : option json).

(** [request.raise_for_status()] raises on these. *)
Definition is_error_status (status_code : Z) : bool :=
  ((400 <=? status_code) && (status_code <? 600))%Z.

(** The translation read off an item of the response. *)
Definition translation_of (item : json) : outcome json :=
  has <- py_in "translations" item ;;
  if has then
    translations <- py_getitem item "translations" ;;
    n <- py_len translations ;;
    if (0 <? n)%nat then
      first <- py_first translations ;;
      py_getitem first "text"
    else Returns (JStr EmptyString)
  else Returns (JStr EmptyString).

(** The loop [for item in response]. *)
Definition translations_of (response : json) : outcome (list json) :=
  items <- py_iter response ;;
  for_each (fun translations item =>
              t <- translation_of item ;;
              Returns (translations ++ [t])%list)
           items [].

(** The loop that gives every text its translation, [valid_idx] and
    [result] being its accumulators. *)
Fixpoint realign (texts : list string) (translations : list json)
    (valid_idx : nat) (result : list json) : outcome (list json) :=
  match texts with
  | [] => Returns result
  | text :: rest =>
      if translatable text then
        match nth_error translations valid_idx with
        | Some t => realign rest translations (S valid_idx) (result ++ [t])%list
        | None => Raises IndexError
        end
      else realign rest translations valid_idx (result ++ [JStr EmptyString])%list
  end.

(** [[""] * n] *)
Definition blanks (n : nat) : list json := repeat (JStr EmptyString) n.

(** What the [try] block makes of a reply; [None] stands for any exception,
    the two [except] clauses doing the same. *)
Definition read_reply (r : reply) (texts : list string)
  : option (list json) :=
  match r with
  | PostRaises => None
  | Response status_code body =>
      if is_error_status status_code then None
      else
        match body with
        | None => None
        | Some response =>
            match (translations <- translations_of response ;;
                   realign texts translations 0 []) with
            | Returns result => Some result
            | Raises _ => None
            end
        end
  end.

(** [post k body] is what the [k]-th call of [requests.post] comes to, with
    the texts of its body. *)
Definition translate_batch (post : nat -> list string -> reply)
    (texts : list string) : list json :=
  match texts with
  | [] => []
  | _ =>
      match filter translatable texts with
      | [] => blanks (List.length texts)
      | valid_texts =>
          let request :=
            match post 0%nat valid_texts with
            | Response status_code _ as first =>
                if (status_code =? 429)%Z then post 1%nat valid_texts
                else first
            | PostRaises => PostRaises
            end in
          match read_reply request texts with
          | Some result => result
          | None => blanks (List.length texts)
          end
      end
  end.

(** ** The two producers, as the translator reads them *)

(** A unit of [parse_chapter_content], with the keys it is given. *)
Definition txt_type_name (t : TxtToJsonParser.unit_type) : string :=
  match t with
  | TxtToJsonParser.title => "title"
  | TxtToJsonParser.header => "header"
  | TxtToJsonParser.paragraph => "paragraph"
  | TxtToJsonParser.footnote => "footnote"
  end.

Definition txt_unit_json (u : TxtToJsonParser.content_unit) : json :=
  JObj ([("id", JNum (inject_Z (TxtToJsonParser.uid u)));
         ("type", JStr (txt_type_name (TxtToJsonParser.utype u)))]
        ++ match TxtToJsonParser.original_id u with
           | Some o => [("original_id", JStr o)]
           | None => []
           end
        ++ [("text", JStr (TxtToJsonParser.text u))]
        ++ match TxtToJsonParser.note u with
           | Some n => [("note", JArr (map JStr n))]
           | None => []
           end)%list.

(** [chapter_data] of [parse_txt_to_json] for a chapter of the given
    content. *)
Definition txt_chapter_json (chapter : json) (title content : string) : json :=
  JObj [("chapter", chapter); ("title", JStr title);
        ("content_units",
         JArr (map txt_unit_json
                   (TxtToJsonParser.parse_chapter_content content)))].

(** A unit and a page of [pdf_to_json_final]. *)
Definition pdf_type_name (t : PdfToJsonFinal.unit_type) : string :=
  match t with
  | PdfToJsonFinal.title => "title"
  | PdfToJsonFinal.header => "header"
  | PdfToJsonFinal.paragraph => "paragraph"
  | PdfToJsonFinal.footnote => "footnote"
  end.

Definition pdf_unit_json (u : PdfToJsonFinal.content_unit) : json :=
  JObj ([("id", JNum (inject_Z (PdfToJsonFinal.unit_id u)));
         ("type", JStr (pdf_type_name (PdfToJsonFinal.unit_kind u)))]
        ++ match PdfToJsonFinal.unit_original_id u with
           | Some o => [("original_id", JStr o)]
           | None => []
           end
        ++ [("source_text", JStr (PdfToJsonFinal.unit_source_text u));
            ("status", JStr (PdfToJsonFinal.unit_status u));
            ("azure_translation", JStr (PdfToJsonFinal.unit_azure_translation u));
            ("ai_second_draft", JStr (PdfToJsonFinal.unit_ai_second_draft u))])%list.

Definition pdf_page_json (pg : PdfToJsonFinal.page_content) : json :=
  JObj [("page_number", JNum (inject_Z (PdfToJsonFinal.page_number pg)));
        ("content_units",
         JArr (map pdf_unit_json (PdfToJsonFinal.content_units pg)))].

(** ** Vocabulary *)

(** [data[c]['content_units'][u]], where the three lookups succeed. *)
Definition unit_at (data : list json) (c u : nat) : option json :=
  match nth_error data c with
  | Some (JObj fields) =>
      match dict_get fields "content_units" with
      | Some (JArr units) => nth_error units u
      | _ => None
      end
  | _ => None
  end.

(** The unit is a title or a paragraph of the type [ty] with the text [s],
    which is not blank. *)
Definition wanted (unit : json) (s ty : string) : Prop :=
  exists fields,
    unit = JObj fields
    /\ dict_get fields "type" = Some (JStr ty)
    /\ (ty = "title" \/ ty = "paragraph")
    /\ dict_get fields "text" = Some (JStr s)
    /\ translatable s = true.

(** The place of an entry comes before the place of another. *)
Definition before (a b : item) : Prop :=
  (chapter_idx a < chapter_idx b)%nat
  \/ (chapter_idx a = chapter_idx b /\ (unit_idx a < unit_idx b)%nat).

(** The entries of the paragraphs of a chapter. *)
Definition paragraph_items (chapter_idx : nat)
    (units : list TxtToJsonParser.content_unit) : list item :=
  flat_map (fun iu =>
              match TxtToJsonParser.utype (snd iu) with
              | TxtToJsonParser.paragraph =>
                  [mk_item chapter_idx (fst iu)
                           (TxtToJsonParser.text (snd iu)) "paragraph"]
              | _ => []
              end)
           (enumerate units).

(** A chapter of three lines, for the examples: a drop cap, the line it
    belongs to and a footnote. *)
Definition example_data : list json :=
  [txt_chapter_json (JNum 1) "DEFINING ARAB NATIONALISM"
     ("T" ++ String (ascii_of_nat 10) "he Arab world."
      ++ String (ascii_of_nat 10) "1 Ibid., p. 3.")].

(** A blank text has the empty string for its translation. *)
Definition blank_kept (text : string) (translation : json) : Prop :=
  translatable text = false -> translation = JStr EmptyString.

(** The translations of the texts that are not blank, in order. *)
Definition translated (texts : list string) (result : list json) : list json :=
  map snd (filter (fun p => translatable (fst p)) (combine texts result)).

(** A service that answers every call with the same reply. *)
Definition always (r : reply) : nat -> list string -> reply := fun _ _ => r.

(** An answer of the service with two translations. *)
Definition two_translations : json :=
  JArr [JObj [("translations", JArr [JObj [("text", JStr "un"); ("to", JStr "fr")]])];
        JObj [("translations", JArr [JObj [("text", JStr "deux"); ("to", JStr "fr")]])]].

End AzureTranslator.

(* ================================================================== *)
(** * azure_translator_resume.py: the retries and the global index *)
(* ================================================================== *)
Module AzureTranslatorResume.

Import PyStr PyJson.
Local Open Scope string_scope.

(** An entry of [texts_to_translate], with its ['global_index']. *)
Record item : Type := mk_item {
  chapter_idx : nat;
  unit_idx : nat;
  text : string;
  type : string;
  global_index : nat
}.

Definition unit_step (chapter_idx : nat) (texts_to_translate : list item)
    (iu : nat * json) : outcome (list item) :=
  let (unit_idx, unit) := iu in
  match unit with
  | JObj fields =>
      match dict_get fields "type" with
      | Some (JStr ty) =>
          if (ty =? "title") || (ty =? "paragraph") then
            match dict_get fields "text" with
            | None => Returns texts_to_translate
            | Some (JStr text) =>
                if AzureTranslator.translatable text
                then Returns (texts_to_translate
                              ++ [mk_item chapter_idx unit_idx text ty
                                          (List.length texts_to_translate)])%list
                else Returns texts_to_translate
            | Some v =>
                if truthy v then Raises AttributeError
                else Returns texts_to_translate
            end
          else Returns texts_to_translate
      | _ => Returns texts_to_translate
      end
  | _ => Raises AttributeError
  end.

Definition chapter_step (texts_to_translate : list item) (ic : nat * json)
  : outcome (list item) :=
  let (chapter_idx, chapter) := ic in
  has <- py_in "content_units" chapter ;;
  if has then
    content_units <- py_getitem chapter "content_units" ;;
    units <- py_iter content_units ;;
    for_each (unit_step chapter_idx) (enumerate units) texts_to_translate
  else Returns texts_to_translate.

Definition extract_texts_for_translation (data : list json)
  : outcome (list item) :=
  for_each chapter_step (enumerate data) [].

(** ** translate_batch, with its retries *)

(** What an attempt comes to: a result, the [continue] after a status 429,
    or an exception. *)
Inductive attempt_result : Type :=
  | Result (result : list json)
  | TooManyRequests
  | Exception.

Definition attempt_on (r : AzureTranslator.reply) (texts : list string)
  : attempt_result :=
  match r with
  | AzureTranslator.PostRaises => Exception
  | AzureTranslator.Response status_code _ =>
      if (status_code =? 429)%Z then TooManyRequests
      else
        match AzureTranslator.read_reply r texts with
        | Some result => Result result
        | None => Exception
        end
  end.

(** The loop [for attempt in range(max_retries)], over the attempts that
    are left. *)
Fixpoint retry_loop (post : nat -> list string -> AzureTranslator.reply)
    (valid_texts texts : list string) (max_retries : nat)
    (attempts : list nat) : list json :=
  match attempts with
  | [] => AzureTranslator.blanks (List.length texts)
  | attempt :: rest =>
      match attempt_on (post attempt valid_texts) texts with
      | Result result => result
      | TooManyRequests => retry_loop post valid_texts texts max_retries rest
      | Exception =>
          if (attempt <? max_retries - 1)%nat
          then retry_loop post valid_texts texts max_retries rest
          else AzureTranslator.blanks (List.length texts)
      end
  end.

(** [max_retries] is the length of [range(max_retries)]: zero for a
    negative argument. *)
Definition translate_batch (post : nat -> list string -> AzureTranslator.reply)
    (texts : list string) (max_retries : nat) : list json :=
  match texts with
  | [] => []
  | _ =>
      match filter AzureTranslator.translatable texts with
      | [] => AzureTranslator.blanks (List.length texts)
      | valid_texts =>
          retry_loop post valid_texts texts max_retries (seq 0 max_retries)
      end
  end.

(** An entry without its global index. *)
Definition plain (it : item) : AzureTranslator.item :=
  AzureTranslator.mk_item (chapter_idx it) (unit_idx it) (text it) (type it).

(** The entries are numbered by their places in the list. *)
Definition indexed (items : list item) : Prop :=
  map global_index items = seq 0 (List.length items).

(** A run of the variant with the global index and a run of the plain
    extraction end alike: with the same entries, or with the same
    exception. *)
Definition same_run (resume : outcome (list item))
    (plain_run : outcome (list AzureTranslator.item)) : Prop :=
  match resume with
  | Returns items => plain_run = Returns (map plain items) /\ indexed items
  | Raises e => plain_run = Raises e
  end.

End AzureTranslatorResume.

(* ================================================================== *)
(** * Facts on Python strings *)
(* ================================================================== *)

Module PyStrFacts.

Import PyStr.
Local Open Scope string_scope.

Lemma append_nil_r (s : string) : s ++ "" = s.
Proof. induction s as [|c s IH]; simpl; [reflexivity | now rewrite IH]. Qed.

Lemma append_assoc (a b c : string) : (a ++ b) ++ c = a ++ (b ++ c).
Proof. induction a as [|x a IH]; simpl; [reflexivity | now rewrite IH]. Qed.

Lemma str_of_int_inj (n m : Z) : str_of_int n = str_of_int m -> n = m.
Proof.
  unfold str_of_int. intros H.
  assert (Hn : forall z, NilZero.int_of_string (NilZero.string_of_int (Z.to_int z))
                         = Some (Z.to_int z)).
  { intros z. destruct z as [|p|p]; try reflexivity.
    - apply NilZero.isi; simpl; intro E; inversion E.
      all: destruct (Pos.to_uint p) eqn:Ep; try discriminate;
        pose proof (DecimalPos.Unsigned.to_uint_nonnil p); congruence.
    - apply NilZero.isi; simpl; intro E; inversion E.
      all: destruct (Pos.to_uint p) eqn:Ep; try discriminate;
        pose proof (DecimalPos.Unsigned.to_uint_nonnil p); congruence. }
  assert (E : Some (Z.to_int n) = Some (Z.to_int m)).
  { rewrite <- !Hn. now rewrite H. }
  inversion E as [E'].
  rewrite <- (DecimalZ.of_to n), <- (DecimalZ.of_to m). now rewrite E'.
Qed.

(** ** Joining *)

Lemma join_snoc (l : list string) (x : string) :
  join " " (l ++ [x])%list
  = match l with
    | [] => x
    | _ => join " " l ++ " " ++ x
    end.
Proof.
  induction l as [|a r IH]; [reflexivity|].
  cbn [app]. unfold join in *. cbn [String.concat].
  destruct r as [|b r']; [reflexivity|].
  cbn [app] in *. rewrite IH. now rewrite !append_assoc.
Qed.

Lemma join_glue_last (l : list string) (t x : string) :
  join " " (l ++ [(t ++ " " ++ x)%string])%list
  = join " " (l ++ [t])%list ++ " " ++ x.
Proof.
  rewrite !join_snoc. destruct l; [reflexivity|].
  now rewrite !append_assoc.
Qed.

(** ** Stripping and the ends of a string *)

Lemma lstrip_begins (s : string) : begins_with isspace (lstrip s) = false.
Proof.
  induction s as [|c r IH]; [reflexivity|]. cbn [lstrip].
  destruct (isspace c) eqn:E; [exact IH|]. exact E.
Qed.

Lemma lstrip_id (s : string) : begins_with isspace s = false -> lstrip s = s.
Proof. destruct s as [|c r]; [reflexivity|]. cbn. now intros ->. Qed.

Lemma rstrip_ends (s : string) : ends_with isspace (rstrip s) = false.
Proof.
  induction s as [|c r IH]; [reflexivity|]. cbn [rstrip].
  destruct (rstrip r) as [|d r'] eqn:E.
  - destruct (isspace c) eqn:Ec; [reflexivity|]. exact Ec.
  - exact IH.
Qed.

Lemma rstrip_begins (s : string) :
  begins_with isspace s = false -> begins_with isspace (rstrip s) = false.
Proof.
  destruct s as [|c r]; [reflexivity|]. cbn [begins_with rstrip]. intros Hc.
  destruct (rstrip r); [now rewrite Hc|exact Hc].
Qed.

Lemma rstrip_nonempty (s : string) :
  nonempty s = true -> begins_with isspace s = false ->
  nonempty (rstrip s) = true.
Proof.
  destruct s as [|c r]; [discriminate|]. cbn [begins_with rstrip].
  intros _ Hc. destruct (rstrip r); [now rewrite Hc|reflexivity].
Qed.

Lemma strip_trimmed (s : string) :
  nonempty (strip s) = true -> trimmed (strip s).
Proof.
  intros H. repeat split; [exact H| |apply rstrip_ends].
  apply rstrip_begins, lstrip_begins.
Qed.

Lemma ends_with_append (p : ascii -> bool) (a b : string) :
  nonempty b = true -> ends_with p (a ++ b) = ends_with p b.
Proof.
  intros Hb. induction a as [|c a IH]; [reflexivity|].
  cbn [append ends_with]. rewrite IH.
  destruct (a ++ b) eqn:E; [|reflexivity].
  destruct a; [cbn in E; subst; discriminate|discriminate].
Qed.

Lemma begins_with_append (p : ascii -> bool) (a b : string) :
  nonempty a = true -> begins_with p (a ++ b) = begins_with p a.
Proof. destruct a; [discriminate|reflexivity]. Qed.

Lemma all_chars_ends (p : ascii -> bool) (s : string) :
  nonempty s = true -> all_chars p s = true -> ends_with p s = true.
Proof.
  induction s as [|c r IH]; [discriminate|]. intros _ H.
  cbn [all_chars] in H. apply andb_true_iff in H. destruct H as [Hc Hr].
  cbn [ends_with]. destruct r; [exact Hc|]. now apply IH.
Qed.

Lemma nonempty_append (a b : string) :
  nonempty (a ++ b) = nonempty a || nonempty b.
Proof. destruct a; [reflexivity|reflexivity]. Qed.

Lemma trimmed_append (a b : string) :
  trimmed a -> trimmed b -> trimmed (a ++ b).
Proof.
  intros (Na & Ba & Ea) (Nb & Bb & Eb). repeat split.
  - now rewrite nonempty_append, Na.
  - now rewrite begins_with_append.
  - now rewrite ends_with_append.
Qed.

Lemma trimmed_glue (a b : string) :
  trimmed a -> trimmed b -> trimmed (a ++ " " ++ b).
Proof.
  intros (Na & Ba & Ea) (Nb & Bb & Eb). repeat split.
  - now rewrite nonempty_append, Na.
  - now rewrite begins_with_append.
  - rewrite ends_with_append by reflexivity.
    now rewrite (ends_with_append isspace " " b Nb).
Qed.

Lemma span_cat (p : ascii -> bool) (s : string) :
  fst (span p s) ++ snd (span p s) = s.
Proof.
  induction s as [|c r IH]; [reflexivity|]. cbn [span].
  destruct (p c); [|reflexivity].
  destruct (span p r) as [a b]. cbn [fst snd append] in *. now rewrite IH.
Qed.

Lemma span_fst_all (p : ascii -> bool) (s : string) :
  all_chars p (fst (span p s)) = true.
Proof.
  induction s as [|c r IH]; [reflexivity|]. cbn [span].
  destruct (p c) eqn:E; [|reflexivity].
  destruct (span p r). cbn [fst all_chars] in *. now rewrite E, IH.
Qed.

Lemma span_snd_begins (p : ascii -> bool) (s : string) :
  begins_with p (snd (span p s)) = false.
Proof.
  induction s as [|c r IH]; [reflexivity|]. cbn [span].
  destruct (p c) eqn:E.
  - destruct (span p r). exact IH.
  - cbn [snd begins_with]. exact E.
Qed.

End PyStrFacts.

(* ================================================================== *)
(** * The cross-boundary merger, verified *)
(* ================================================================== *)

Module TxtToJsonParserProofs.

Import PyStr PyStrFacts TxtToJsonParser.
Local Open Scope string_scope.

(** ** The loop, one iteration at a time *)

Lemma merge_upto_S (us : list content_unit) (k : nat) :
  merge_upto us (S k) = merge_step us (merge_upto us k) k.
Proof.
  unfold merge_upto. rewrite seq_S, fold_left_app. reflexivity.
Qed.

Lemma merge_step_out_of_range (us merged : list content_unit) (i : nat) :
  (List.length us <= i)%nat -> merge_step us merged i = merged.
Proof.
  intros H. unfold merge_step.
  now rewrite (proj2 (nth_error_None us i) H).
Qed.

(** The guard [len(content_units) < 2] returns what the loop would. *)
Lemma merge_split_paragraphs_loop (us : list content_unit) :
  merge_split_paragraphs us = merge_upto us (List.length us).
Proof.
  unfold merge_split_paragraphs.
  destruct us as [|a [|b r]]; try reflexivity.
Qed.

Lemma update_at_length (A : Type) (f : A -> A) (l : list A) (j : nat) :
  List.length (update_at j f l) = List.length l.
Proof.
  revert j; induction l as [|x r IH]; intros [|j]; simpl; auto.
Qed.

Lemma update_at_nth_same (A : Type) (f : A -> A) (l : list A) (j : nat) (x : A) :
  nth_error l j = Some x -> nth_error (update_at j f l) j = Some (f x).
Proof.
  revert j; induction l as [|y r IH]; intros [|j]; simpl; try discriminate.
  - now intros [= ->].
  - apply IH.
Qed.

Lemma update_at_nth_other (A : Type) (f : A -> A) (l : list A) (j k : nat) :
  j <> k -> nth_error (update_at j f l) k = nth_error l k.
Proof.
  revert j k; induction l as [|y r IH]; intros [|j] [|k] H; simpl; auto.
  - congruence.
Qed.

Lemma update_at_map (A B : Type) (g : A -> B) (f : A -> A) (l : list A) (j : nat) :
  (forall x, g (f x) = g x) -> map g (update_at j f l) = map g l.
Proof.
  intros Hg. revert j; induction l as [|y r IH]; intros [|j]; simpl; auto.
  - now rewrite Hg.
  - now rewrite IH.
Qed.

(** ** The backward search *)

Lemma prev_paragraph_idx_types (l l' : list content_unit) :
  map utype l = map utype l' -> prev_paragraph_idx l = prev_paragraph_idx l'.
Proof.
  revert l'; induction l as [|x r IH]; intros [|y r']; simpl; try discriminate; auto.
  intros [= Hx Hr]. rewrite (IH _ Hr), Hx. reflexivity.
Qed.

Lemma prev_paragraph_idx_snoc (l : list content_unit) (u : content_unit) :
  prev_paragraph_idx (l ++ [u])%list =
  if unit_type_eqb (utype u) paragraph then Some (List.length l)
  else prev_paragraph_idx l.
Proof.
  induction l as [|x r IH]; simpl.
  - destruct (unit_type_eqb (utype u) paragraph); reflexivity.
  - rewrite IH. destruct (unit_type_eqb (utype u) paragraph); [reflexivity|].
    reflexivity.
Qed.

Lemma unit_type_eqb_eq (a b : unit_type) : unit_type_eqb a b = true <-> a = b.
Proof. destruct a, b; simpl; split; congruence. Qed.

(** The search returns the nearest paragraph: a paragraph, with none after
    it. *)
Lemma prev_paragraph_idx_Some (l : list content_unit) (j : nat) :
  prev_paragraph_idx l = Some j ->
  exists t, nth_error l j = Some t /\ utype t = paragraph
    /\ forall k v, (j < k)%nat -> nth_error l k = Some v -> utype v <> paragraph.
Proof.
  revert j; induction l as [|x r IH]; simpl; intros j H; [discriminate|].
  destruct (prev_paragraph_idx r) as [j'|] eqn:E.
  - injection H as <-. destruct (IH j' eq_refl) as (t & Ht & Hp & Hafter).
    exists t. repeat split; auto.
    intros [|k] v Hk Hv; [lia|]. simpl in Hv. apply (Hafter k v); [lia|auto].
  - destruct (unit_type_eqb (utype x) paragraph) eqn:Ex; [|discriminate].
    injection H as <-. exists x. repeat split; auto.
    + now apply unit_type_eqb_eq.
    + intros [|k] v Hk Hv; [lia|]. simpl in Hv.
      clear IH Hk. revert k Hv E. induction r as [|y r IHr]; intros k Hv E.
      * destruct k; discriminate.
      * simpl in E. destruct (prev_paragraph_idx r) eqn:E'; [discriminate|].
        destruct (unit_type_eqb (utype y) paragraph) eqn:Ey; [discriminate|].
        destruct k as [|k]; simpl in Hv.
        -- injection Hv as <-. intros Hc. apply unit_type_eqb_eq in Hc. congruence.
        -- apply (IHr k Hv eq_refl).
Qed.

Lemma prev_paragraph_idx_None (l : list content_unit) :
  prev_paragraph_idx l = None <-> Forall (fun v => utype v <> paragraph) l.
Proof.
  induction l as [|x r IH]; simpl.
  - split; auto.
  - destruct (prev_paragraph_idx r) as [j|].
    + split; [discriminate|]. intros H. inversion H; subst.
      apply IH in H3. discriminate.
    + destruct (unit_type_eqb (utype x) paragraph) eqn:Ex.
      * split; [discriminate|]. intros H. inversion H; subst.
        apply unit_type_eqb_eq in Ex. contradiction.
      * split; auto. intros _. constructor.
        -- intros Hc. apply unit_type_eqb_eq in Hc. congruence.
        -- now apply IH.
Qed.

(** ** The test of the loop body *)

Lemma starts_lower_iff (s : string) :
  starts_lower s = true <-> exists c r, s = String c r /\ islower c = true.
Proof.
  destruct s as [|c r]; simpl; split.
  - discriminate.
  - intros (c & r & H & _). discriminate.
  - intros H. now exists c, r.
  - intros (c' & r' & [= -> ->] & H). exact H.
Qed.

Lemma is_continuation_iff (us : list content_unit) (i : nat) (u : content_unit) :
  nth_error us i = Some u ->
  (is_continuation us i u = true <-> cross_boundary_fragment us i u).
Proof.
  intros Hu. unfold is_continuation, cross_boundary_fragment.
  rewrite !andb_true_iff, Nat.ltb_lt, unit_type_eqb_eq, starts_lower_iff.
  split.
  - intros [[[Hi Hf] Hp] Hl]. repeat split; auto.
    destruct (nth_error us (i - 1)) as [f|]; [|discriminate].
    exists f. repeat split; auto. now apply unit_type_eqb_eq.
  - intros (_ & (f & Hi & Hf & Ht) & Hp & Hl). repeat split; auto.
    rewrite Hf. now apply unit_type_eqb_eq.
Qed.

(** What one iteration does, by cases. *)
Lemma merge_upto_S_absorb (us : list content_unit) (i j : nat) (u : content_unit) :
  cross_boundary_fragment us i u ->
  prev_paragraph_idx (merge_upto us i) = Some j ->
  merge_upto us (S i) = update_at j (absorb u) (merge_upto us i).
Proof.
  intros Hc Hj. rewrite merge_upto_S. unfold merge_step.
  destruct Hc as [Hu Hc'].
  assert (Hc : is_continuation us i u = true)
    by (apply is_continuation_iff; [|split]; assumption).
  now rewrite Hu, Hc, Hj.
Qed.

Lemma merge_upto_S_orphan (us : list content_unit) (i : nat) (u : content_unit) :
  nth_error us i = Some u ->
  prev_paragraph_idx (merge_upto us i) = None ->
  merge_upto us (S i) = (merge_upto us i ++ [u])%list.
Proof.
  intros Hu Hj. rewrite merge_upto_S. unfold merge_step. rewrite Hu, Hj.
  now destruct (is_continuation us i u).
Qed.

Lemma merge_upto_S_plain (us : list content_unit) (i : nat) (u : content_unit) :
  nth_error us i = Some u ->
  is_continuation us i u = false ->
  merge_upto us (S i) = (merge_upto us i ++ [u])%list.
Proof.
  intros Hu Hc. rewrite merge_upto_S. unfold merge_step. now rewrite Hu, Hc.
Qed.

(** The three shapes of an iteration in range. *)
Lemma merge_upto_S_cases (us : list content_unit) (i : nat) (u : content_unit) :
  nth_error us i = Some u ->
  (merge_upto us (S i) = (merge_upto us i ++ [u])%list /\ emitted us i = true)
  \/ (exists j t, prev_paragraph_idx (merge_upto us i) = Some j
        /\ nth_error (merge_upto us i) j = Some t
        /\ cross_boundary_fragment us i u
        /\ merge_upto us (S i) = update_at j (absorb u) (merge_upto us i)
        /\ emitted us i = false).
Proof.
  intros Hu. unfold emitted. rewrite Hu.
  destruct (is_continuation us i u) eqn:Hc.
  - destruct (prev_paragraph_idx (merge_upto us i)) as [j|] eqn:Hj.
    + right. destruct (prev_paragraph_idx_Some _ Hj) as (t & Ht & _).
      exists j, t. apply is_continuation_iff in Hc; [|exact Hu].
      repeat split; auto; try apply Hc.
      now apply merge_upto_S_absorb.
    + left. split; [now apply merge_upto_S_orphan | reflexivity].
  - left. split; [now apply merge_upto_S_plain | reflexivity].
Qed.

(** ** A paragraph is in the output as soon as one was read *)

Lemma absorb_utype (u t : content_unit) : utype (absorb u t) = utype t.
Proof. reflexivity. Qed.

Lemma absorb_uid (u t : content_unit) : uid (absorb u t) = uid t.
Proof. reflexivity. Qed.

Lemma no_prior_paragraph_iff (us : list content_unit) (i : nat) :
  (i <= List.length us)%nat ->
  (prev_paragraph_idx (merge_upto us i) = None
   <-> forall j p, (j < i)%nat -> nth_error us j = Some p -> utype p <> paragraph).
Proof.
  induction i as [|i IH]; intros Hi.
  - simpl. split; [intros _ j p Hj; lia | reflexivity].
  - assert (Hlt : (i < List.length us)%nat) by lia.
    destruct (nth_error us i) as [u|] eqn:Hu;
      [|apply nth_error_None in Hu; lia].
    specialize (IH ltac:(lia)).
    destruct (merge_upto_S_cases us i Hu)
      as [[E _] | (j & t & Hj & Ht & Hc & E & _)]; rewrite E.
    + rewrite prev_paragraph_idx_snoc.
      destruct (unit_type_eqb (utype u) paragraph) eqn:Ep.
      * split; [discriminate|]. intros H. exfalso.
        apply (H i u); [lia|exact Hu|]. now apply unit_type_eqb_eq.
      * rewrite IH. split.
        -- intros H j p Hj Hp. destruct (Nat.eq_dec j i) as [->|Hne].
           ++ rewrite Hu in Hp. injection Hp as <-. intros Hc.
              apply unit_type_eqb_eq in Hc. congruence.
           ++ apply (H j p); [lia|exact Hp].
        -- intros H j p Hj Hp. apply (H j p); [lia|exact Hp].
    + rewrite (prev_paragraph_idx_types (update_at j (absorb u) (merge_upto us i))
                 (merge_upto us i)) by (apply update_at_map; reflexivity).
      rewrite Hj. split; [discriminate|].
      intros H. exfalso.
      assert (Hn : prev_paragraph_idx (merge_upto us i) = None).
      { apply IH. intros j' p Hj' Hp. apply (H j' p); [lia|exact Hp]. }
      congruence.
Qed.

(** ** Units only grow *)

Lemma extends_refl (u : content_unit) : extends u u.
Proof.
  repeat split; auto.
  - exists "". now rewrite append_nil_r.
  - exists []. now rewrite app_nil_r.
Qed.

Lemma extends_trans (u v w : content_unit) :
  extends u v -> extends v w -> extends u w.
Proof.
  intros (A1 & A2 & A3 & [s Hs] & [l Hl]) (B1 & B2 & B3 & [s' Hs'] & [l' Hl']).
  repeat split; try congruence.
  - exists (s ++ s'). rewrite Hs', Hs. apply append_assoc.
  - exists (l ++ l')%list. rewrite Hl', Hl. now rewrite app_assoc.
Qed.

Lemma extends_absorb (u t : content_unit) : extends t (absorb u t).
Proof.
  repeat split.
  - exists (" " ++ text u). reflexivity.
  - exists [note_entry (uid u)]. reflexivity.
Qed.

Lemma merge_upto_grows_S (us : list content_unit) (k j : nat) (t : content_unit) :
  nth_error (merge_upto us k) j = Some t ->
  exists t', nth_error (merge_upto us (S k)) j = Some t' /\ extends t t'.
Proof.
  intros Ht. destruct (nth_error us k) as [u|] eqn:Hu.
  - destruct (merge_upto_S_cases us k Hu)
      as [[E _] | (j' & t0 & Hj & Ht0 & Hc & E & _)]; rewrite E.
    + exists t. split; [|apply extends_refl].
      rewrite nth_error_app1; [exact Ht|]. apply nth_error_Some. congruence.
    + destruct (Nat.eq_dec j' j) as [->|Hne].
      * exists (absorb u t). split; [now apply update_at_nth_same|].
        apply extends_absorb.
      * exists t. split; [|apply extends_refl].
        now rewrite update_at_nth_other.
  - rewrite merge_upto_S, merge_step_out_of_range by now apply nth_error_None.
    exists t. split; [exact Ht|apply extends_refl].
Qed.

Lemma merge_upto_grows (us : list content_unit) (k k' j : nat) (t : content_unit) :
  (k <= k')%nat ->
  nth_error (merge_upto us k) j = Some t ->
  exists t', nth_error (merge_upto us k') j = Some t' /\ extends t t'.
Proof.
  induction 1 as [|k' Hle IH]; intros Ht.
  - exists t. split; [exact Ht|apply extends_refl].
  - destruct (IH Ht) as (t1 & Ht1 & E1).
    destruct (merge_upto_grows_S us k' j Ht1) as (t2 & Ht2 & E2).
    exists t2. split; [exact Ht2|]. eapply extends_trans; eauto.
Qed.

(** ** Which ids are in the output *)

Lemma merge_upto_ids (us : list content_unit) (k : nat) (x : Z) :
  In x (map uid (merge_upto us k)) ->
  exists j w, (j < k)%nat /\ emitted us j = true
              /\ nth_error us j = Some w /\ uid w = x.
Proof.
  induction k as [|k IH]; intros Hx; [destruct Hx|].
  destruct (nth_error us k) as [u|] eqn:Hu.
  - destruct (merge_upto_S_cases us k Hu)
      as [[E He] | (j' & t0 & Hj & Ht0 & Hc & E & He)]; rewrite E in Hx.
    + rewrite map_app in Hx. apply in_app_or in Hx. destruct Hx as [Hx|Hx].
      * destruct (IH Hx) as (j & w & ? & ? & ? & ?). exists j, w. repeat split; auto.
      * destruct Hx as [Hx|[]]. exists k, u. repeat split; auto.
    + rewrite update_at_map in Hx by reflexivity.
      destruct (IH Hx) as (j & w & ? & ? & ? & ?). exists j, w. repeat split; auto.
  - rewrite merge_upto_S, merge_step_out_of_range in Hx by now apply nth_error_None.
    destruct (IH Hx) as (j & w & ? & ? & ? & ?). exists j, w. repeat split; auto.
Qed.

(** ** Counting ids: emitted or noted, never both *)

Lemma note_entry_inj (a b : Z) : note_entry a = note_entry b -> a = b.
Proof.
  unfold note_entry. intros H. apply str_of_int_inj.
  simpl in H. now injection H.
Qed.

Lemma firstn_S_snoc (A : Type) (l : list A) (n : nat) (x : A) :
  nth_error l n = Some x -> firstn (S n) l = (firstn n l ++ [x])%list.
Proof.
  revert n; induction l as [|y r IH]; intros [|n] H; simpl in *; try discriminate.
  - now injection H as ->.
  - now rewrite (IH n H).
Qed.

Lemma firstn_S_none (A : Type) (l : list A) (n : nat) :
  nth_error l n = None -> firstn (S n) l = firstn n l.
Proof.
  intros H. apply nth_error_None in H.
  rewrite !firstn_all2; auto; lia.
Qed.

Lemma emit_count_snoc (k : Z) (l : list content_unit) (u : content_unit) :
  emit_count k (l ++ [u])%list = (emit_count k l + one_if (uid u =? k)%Z)%nat.
Proof.
  unfold emit_count. rewrite map_app, count_occ_app. simpl.
  destruct (Z.eq_dec (uid u) k) as [E|E].
  - apply Z.eqb_eq in E. now rewrite E.
  - apply Z.eqb_neq in E. now rewrite E.
Qed.

Lemma note_count_snoc (k : Z) (l : list content_unit) (u : content_unit) :
  note u = None -> note_count k (l ++ [u])%list = note_count k l.
Proof.
  intros H. unfold note_count. rewrite flat_map_app, count_occ_app. simpl.
  unfold notes. rewrite H. simpl. lia.
Qed.

Lemma notes_absorb (u t : content_unit) :
  notes (absorb u t) = (notes t ++ [note_entry (uid u)])%list.
Proof. reflexivity. Qed.

Lemma count_occ_note_entry (a k : Z) :
  count_occ string_dec [note_entry a] (note_entry k) = one_if (a =? k)%Z.
Proof.
  cbn [count_occ].
  destruct (string_dec (note_entry a) (note_entry k)) as [E|E].
  - apply note_entry_inj in E. apply Z.eqb_eq in E. now rewrite E.
  - destruct (a =? k)%Z eqn:E'; [|reflexivity].
    apply Z.eqb_eq in E'. subst. now contradiction E.
Qed.

Lemma note_count_absorb (k : Z) (l : list content_unit) (j : nat)
    (u t : content_unit) :
  nth_error l j = Some t ->
  note_count k (update_at j (absorb u) l)
  = (note_count k l + one_if (uid u =? k)%Z)%nat.
Proof.
  unfold note_count.
  revert j; induction l as [|y r IH]; intros [|j] H;
    cbn [nth_error update_at flat_map] in *; try discriminate.
  - injection H as ->.
    rewrite notes_absorb, !count_occ_app, count_occ_note_entry. lia.
  - rewrite !count_occ_app, (IH j H). lia.
Qed.

Lemma merge_upto_counts (us : list content_unit) (n : nat) (k : Z) :
  Forall (fun u => note u = None) us ->
  (emit_count k (merge_upto us n) + note_count k (merge_upto us n))%nat
  = count_occ Z.eq_dec (map uid (firstn n us)) k.
Proof.
  intros Hfresh. induction n as [|n IH]; [reflexivity|].
  destruct (nth_error us n) as [u|] eqn:Hu.
  - rewrite (firstn_S_snoc _ _ Hu), map_app, count_occ_app, <- IH.
    assert (Hnote : note u = None).
    { apply nth_error_In in Hu. rewrite Forall_forall in Hfresh. now apply Hfresh. }
    assert (Hone : count_occ Z.eq_dec (map uid [u]) k = one_if (uid u =? k)%Z).
    { simpl. destruct (Z.eq_dec (uid u) k) as [E|E].
      - apply Z.eqb_eq in E. now rewrite E.
      - apply Z.eqb_neq in E. now rewrite E. }
    rewrite Hone.
    destruct (merge_upto_S_cases us n Hu)
      as [[E _] | (j & t & Hj & Ht & Hc & E & _)]; rewrite E.
    + rewrite emit_count_snoc, note_count_snoc by exact Hnote. lia.
    + rewrite (note_count_absorb k _ _ u Ht).
      unfold emit_count. rewrite update_at_map by reflexivity. lia.
  - rewrite (firstn_S_none _ _ Hu), <- IH.
    rewrite merge_upto_S, merge_step_out_of_range by now apply nth_error_None.
    reflexivity.
Qed.

Lemma in_notes_note_count (out : list content_unit) (v : content_unit) (k : Z) :
  In v out -> In (note_entry k) (notes v) -> (1 <= note_count k out)%nat.
Proof.
  intros Hv Hk. unfold note_count.
  assert (H : In (note_entry k) (flat_map notes out)).
  { apply in_flat_map. now exists v. }
  apply (count_occ_In string_dec) in H. lia.
Qed.

Lemma update_at_notes_in (l : list content_unit) (j : nat) (u : content_unit)
    (e : string) :
  In e (flat_map notes (update_at j (absorb u) l)) ->
  In e (flat_map notes l) \/ e = note_entry (uid u).
Proof.
  revert j; induction l as [|y r IH]; intros [|j];
    cbn [update_at flat_map]; intros H; auto.
  - rewrite notes_absorb in H. apply in_app_or in H. destruct H as [H|H].
    + apply in_app_or in H. destruct H as [H|[<-|[]]]; auto.
      left. apply in_or_app. now left.
    + left. apply in_or_app. now right.
  - apply in_app_or in H. destruct H as [H|H].
    + left. apply in_or_app. now left.
    + destruct (IH j H) as [H'|H']; auto. left. apply in_or_app. now right.
Qed.

Lemma merge_upto_notes_origin (us : list content_unit) (n : nat) (e : string) :
  Forall (fun u => note u = None) us ->
  In e (flat_map notes (merge_upto us n)) ->
  exists u, In u us /\ e = note_entry (uid u).
Proof.
  intros Hfresh. induction n as [|n IH]; intros He; [destruct He|].
  destruct (nth_error us n) as [u|] eqn:Hu.
  - assert (Hin : In u us) by (eapply nth_error_In; eauto).
    destruct (merge_upto_S_cases us n Hu)
      as [[E _] | (j & t & Hj & Ht & Hc & E & _)]; rewrite E in He.
    + rewrite flat_map_app in He. apply in_app_or in He. destruct He as [He|He]; auto.
      simpl in He. rewrite app_nil_r in He. unfold notes in He.
      rewrite Forall_forall in Hfresh. rewrite (Hfresh u Hin) in He. destruct He.
    + apply update_at_notes_in in He. destruct He as [He| ->]; auto.
      now exists u.
  - rewrite merge_upto_S, merge_step_out_of_range in He by now apply nth_error_None.
    auto.
Qed.

(** ** The store and the values agree

    When the input list holds pairwise distinct objects, the list returned,
    read in the final store, is [merge_split_paragraphs] of the input read
    in the initial store. *)

Lemma nth_update_at_other (A : Type) (f : A -> A) (l : list A) (a b : nat) (d : A) :
  a <> b -> nth a (update_at b f l) d = nth a l d.
Proof.
  revert a b; induction l as [|x r IH]; intros [|a] [|b] H; simpl; auto.
  congruence.
Qed.

Lemma nth_update_at_same (A : Type) (f : A -> A) (l : list A) (b : nat) (d : A) :
  (b < List.length l)%nat -> nth b (update_at b f l) d = f (nth b l d).
Proof.
  revert b; induction l as [|x r IH]; intros [|b] H; simpl in *; try lia; auto.
  apply IH. lia.
Qed.

Lemma read_update_at (h : store) (m : list nat) (j b : nat) (f : content_unit -> content_unit) :
  NoDup m -> nth_error m j = Some b -> (b < List.length h)%nat ->
  read (update_at b f h) m = update_at j f (read h m).
Proof.
  unfold read, deref. intros Hnd. revert j.
  induction Hnd as [|a r Hnot Hnd IH]; intros [|j] Hj Hb; simpl in *; try discriminate.
  - injection Hj as ->. rewrite nth_update_at_same by exact Hb. f_equal.
    apply map_ext_in. intros a Ha. apply nth_update_at_other. congruence.
  - rewrite nth_update_at_other.
    + f_equal. now apply IH.
    + intros ->. apply Hnot. eapply nth_error_In; eauto.
Qed.

Lemma is_continuation_types (l l' : list content_unit) (i : nat) (u : content_unit) :
  map utype l = map utype l' -> is_continuation l i u = is_continuation l' i u.
Proof.
  intros H. unfold is_continuation. f_equal. f_equal. f_equal.
  assert (E : nth_error (map utype l) (i - 1) = nth_error (map utype l') (i - 1))
    by now rewrite H.
  rewrite !nth_error_map in E.
  destruct (nth_error l (i - 1)), (nth_error l' (i - 1)); simpl in E;
    try discriminate; [|reflexivity].
  now injection E as ->.
Qed.

Lemma read_types (h h' : store) (refs : list nat) :
  map utype h' = map utype h -> map utype (read h' refs) = map utype (read h refs).
Proof.
  intros H. unfold read, deref. rewrite !map_map. apply map_ext. intros a.
  rewrite <- !(map_nth utype). now rewrite H.
Qed.

Lemma merge_step_ref_inv (h : store) (refs : list nat) (k : nat)
    (st : store * list nat) :
  NoDup refs -> Forall (fun a => (a < List.length h)%nat) refs ->
  (k < List.length refs)%nat ->
  ref_inv h refs k st -> ref_inv h refs (S k) (merge_step_ref refs st k).
Proof.
  intros Hnd Hvalid Hk. destruct st as [h' m].
  intros (Hlen & Htypes & Hincl & Hm & Hrest & Hread).
  destruct (nth_error refs k) as [a|] eqn:Ha;
    [|apply nth_error_None in Ha; lia].
  assert (Hfirst : firstn (S k) refs = (firstn k refs ++ [a])%list)
    by now apply firstn_S_snoc.
  assert (Hfresh : ~ In a (firstn k refs)).
  { intros Hin. rewrite <- (firstn_skipn k refs) in Hnd.
    apply NoDup_app_remove_l in Hnd as Hsk.
    assert (Hin' : In a (skipn k refs)).
    { assert (E : skipn k refs = a :: skipn (S k) refs).
      { clear -Ha. revert k Ha. induction refs as [|x r IH]; intros [|k] Ha;
          simpl in *; try discriminate.
        - now injection Ha as ->.
        - now apply IH. }
      rewrite E. now left. }
    clear Hsk. revert Hnd Hin Hin'. generalize (firstn k refs) (skipn k refs).
    intros l1 l2 Hnd Hin Hin'. induction l1 as [|x l1 IH]; [destruct Hin|].
    simpl in Hnd. inversion Hnd as [|? ? Hx Hnd']; subst.
    destruct Hin as [->|Hin].
    - apply Hx. apply in_or_app. now right.
    - now apply IH. }
  assert (Hnotm : ~ In a m) by (intros Hin; apply Hfresh; now apply Hincl).
  assert (Hcur : deref h' a = deref h a) by now apply Hrest.
  assert (Hu : nth_error (read h refs) k = Some (deref h a))
    by (unfold read; rewrite nth_error_map, Ha; reflexivity).
  unfold merge_step_ref. rewrite Ha. cbv zeta. rewrite Hcur.
  rewrite (is_continuation_types (read h' refs) (read h refs))
    by now apply read_types.
  assert (Hstep : merge_upto (read h refs) (S k)
                  = merge_step (read h refs) (read h' m) k)
    by (rewrite Hread; apply merge_upto_S).
  unfold merge_step in Hstep. rewrite Hu in Hstep.
  assert (Hsnoc : forall x, In x (m ++ [a])%list -> In x (firstn (S k) refs)).
  { intros x Hx. rewrite Hfirst. apply in_app_or in Hx. apply in_or_app.
    destruct Hx as [Hx|Hx]; [left; now apply Hincl|now right]. }
  assert (Hnd' : NoDup (m ++ [a])%list).
  { apply NoDup_app; [exact Hm|repeat constructor; intros []|].
    intros x Hx [<-|[]]. contradiction. }
  assert (Hread' : read h' (m ++ [a])%list = (read h' m ++ [deref h a])%list).
  { unfold read. rewrite map_app. cbn [map]. now rewrite Hcur. }
  assert (Hrest' : forall x, ~ In x (m ++ [a])%list -> deref h' x = deref h x).
  { intros x Hx. apply Hrest. intros Hin. apply Hx. apply in_or_app. now left. }
  destruct (is_continuation (read h refs) k (deref h a)).
  - destruct (prev_paragraph_idx (read h' m)) as [j|] eqn:Hj.
    + destruct (prev_paragraph_idx_Some _ Hj) as (t & Ht & _).
      assert (Hjm : (j < List.length m)%nat).
      { assert (Hlt : (j < List.length (read h' m))%nat)
          by (apply nth_error_Some; congruence).
        unfold read in Hlt. now rewrite length_map in Hlt. }
      assert (Hb : nth_error m j = Some (nth j m 0%nat))
        by now apply nth_error_nth'.
      assert (Hbin : In (nth j m 0%nat) m) by now apply nth_In.
      assert (Hbvalid : (nth j m 0 < List.length h')%nat).
      { rewrite Hlen. rewrite Forall_forall in Hvalid. apply Hvalid.
        apply Hincl in Hbin. rewrite <- (firstn_skipn k refs).
        apply in_or_app. now left. }
      unfold ref_inv. repeat split.
      * now rewrite update_at_length.
      * rewrite update_at_map by reflexivity. exact Htypes.
      * intros x Hx. rewrite Hfirst. apply in_or_app. left. now apply Hincl.
      * exact Hm.
      * intros x Hx. unfold deref. rewrite nth_update_at_other.
        -- now apply Hrest.
        -- intros ->. now apply Hx.
      * rewrite Hstep. now apply read_update_at.
    + unfold ref_inv. repeat split; auto. now rewrite Hstep.
  - unfold ref_inv. repeat split; auto. now rewrite Hstep.
Qed.

Lemma merge_upto_ref_inv (h : store) (refs : list nat) (k : nat) :
  NoDup refs -> Forall (fun a => (a < List.length h)%nat) refs ->
  (k <= List.length refs)%nat ->
  ref_inv h refs k (merge_upto_ref h refs k).
Proof.
  intros Hnd Hvalid. induction k as [|k IH]; intros Hk.
  - repeat split; auto; [intros x []|constructor].
  - unfold merge_upto_ref. rewrite seq_S, fold_left_app. cbn [fold_left].
    apply merge_step_ref_inv; auto. apply IH. lia.
Qed.

(** On distinct objects the loop on the store computes the function of
    values. *)
Lemma merge_split_paragraphs_ref_read (h : store) (refs : list nat) :
  NoDup refs -> Forall (fun a => (a < List.length h)%nat) refs ->
  read (fst (merge_split_paragraphs_ref h refs))
       (snd (merge_split_paragraphs_ref h refs))
  = merge_split_paragraphs (read h refs).
Proof.
  intros Hnd Hvalid. unfold merge_split_paragraphs_ref, merge_split_paragraphs.
  assert (Hl : List.length (read h refs) = List.length refs)
    by (unfold read; apply length_map).
  rewrite Hl.
  destruct (List.length refs <? 2)%nat; [reflexivity|].
  pose proof (@merge_upto_ref_inv h refs (List.length refs) Hnd Hvalid (le_n _)) as H.
  destruct (merge_upto_ref h refs (List.length refs)) as [h' m].
  apply H.
Qed.

(** ** What the parser hands to the merger *)

Lemma numbered_lower_bound (us : list content_unit) :
  forall first_id, numbered first_id us ->
                   Forall (fun u => (first_id <= uid u)%Z) us.
Proof.
  induction us as [|u r IH]; intros first_id H; [constructor|].
  destruct H as (Hu & _ & Hr). constructor; [lia|].
  apply IH in Hr. eapply Forall_impl; [|exact Hr]. intros a Ha. simpl in Ha. lia.
Qed.

Lemma numbered_fresh (us : list content_unit) (first_id : Z) :
  numbered first_id us -> fresh_units us.
Proof.
  revert first_id. induction us as [|u r IH]; intros first_id H.
  - split; constructor.
  - destruct H as (Hu & Hn & Hr). destruct (IH _ Hr) as [Hnd Hnone].
    split; [|now constructor]. cbn [map]. constructor; [|exact Hnd].
    intros Hin. apply in_map_iff in Hin. destruct Hin as (v & Hv & Hvin).
    pose proof (numbered_lower_bound _ _ Hr) as Hlb.
    rewrite Forall_forall in Hlb. specialize (Hlb v Hvin). lia.
Qed.

Lemma numbered_app (a b : list content_unit) (first_id : Z) :
  numbered first_id a ->
  numbered (first_id + Z.of_nat (List.length a)) b ->
  numbered first_id (a ++ b)%list.
Proof.
  revert first_id. induction a as [|u r IH]; intros first_id Ha Hb.
  - simpl in *. now rewrite Z.add_0_r in Hb.
  - destruct Ha as (Hu & Hn & Hr). cbn [app numbered]. repeat split; auto.
    apply IH; [exact Hr|].
    replace (first_id + 1 + Z.of_nat (List.length r))%Z
      with (first_id + Z.of_nat (List.length (u :: r)))%Z; [exact Hb|].
    cbn [List.length]. lia.
Qed.

Lemma classify_line_numbered (unit_id : Z) (line : string) :
  numbered unit_id (classify_line unit_id line).
Proof.
  unfold classify_line.
  destruct (span is_decimal line) as [num r].
  destruct (span isspace r) as [sp rest].
  destruct (nonempty num && nonempty sp); [destruct (nonempty rest)|];
    simpl; auto.
Qed.

Lemma parse_lines_numbered (n : nat) :
  forall (lines : list string) (first : bool) (unit_id : Z),
    (List.length lines <= n)%nat ->
    numbered unit_id (parse_lines first lines unit_id).
Proof.
  induction n as [|n IH]; intros lines first unit_id Hn.
  - destruct lines; [exact I|simpl in Hn; lia].
  - destruct lines as [|l rest]; [exact I|]. simpl in Hn.
    cbn [parse_lines].
    destruct (negb (nonempty (strip l))); [apply IH; lia|].
    assert (Hplain : numbered unit_id
              (classify_line unit_id (strip l)
               ++ parse_lines false rest
                    (unit_id
                     + Z.of_nat (List.length (classify_line unit_id (strip l)))))%list).
    { apply numbered_app; [apply classify_line_numbered|apply IH; lia]. }
    destruct (first && is_drop_cap (strip l)); [|exact Hplain].
    destruct rest as [|next rest']; [exact Hplain|].
    destruct (nonempty (strip next)); [|exact Hplain].
    cbn [numbered uid note]. repeat split. apply IH. simpl in Hn. lia.
Qed.

(** The parser numbers its units 1, 2, 3, ... and gives them no note. *)
Lemma parsed_units_fresh (content : string) :
  fresh_units (parsed_units content).
Proof.
  apply (@numbered_fresh _ 1%Z). unfold parsed_units.
  now apply (@parse_lines_numbered (List.length (split_lines content))).
Qed.

(** A lowercase continuation fragment with no paragraph before it is
    appended to the output as it is, and the final output has, at that
    place, a unit with its id and type whose text begins with its text. *)
Lemma merge_orphan_kept (us : list content_unit) (i : nat) (u : content_unit) :
  cross_boundary_fragment us i u ->
  (forall j p, (j < i)%nat -> nth_error us j = Some p -> utype p <> paragraph) ->
  merge_upto us (S i) = (merge_upto us i ++ [u])%list
  /\ exists final,
       nth_error (merge_split_paragraphs us) (List.length (merge_upto us i))
       = Some final
       /\ extends u final.
Proof.
  intros Hc Hnone.
  assert (Hu : nth_error us i = Some u) by apply Hc.
  assert (Hi : (i < List.length us)%nat) by (apply nth_error_Some; congruence).
  assert (Hj : prev_paragraph_idx (merge_upto us i) = None)
    by (apply no_prior_paragraph_iff; [lia|exact Hnone]).
  pose proof (merge_upto_S_orphan _ _ Hu Hj) as E.
  split; [exact E|].
  rewrite merge_split_paragraphs_loop.
  apply (merge_upto_grows us (k := S i)); [lia|].
  rewrite E, nth_error_app2, Nat.sub_diag by lia. reflexivity.
Qed.

(** ** The claims on the merger *)

(** C1, as amended: a paragraph that comes right after a footnote and begins
    with a lowercase letter, when some paragraph precedes it in the input, is
    merged into the nearest paragraph of the output built so far (the
    greatest index [j] holding a paragraph): that unit's text gets a space
    and the fragment's text appended and its note list the fragment's entry,
    the output does not grow, the final output still has that unit at [j]
    with the merged text and note as a prefix of its own, and (the ids being
    distinct) no unit of the final output has the fragment's id.  When no
    paragraph precedes the fragment it is appended to the output as it is.
    The scenario paragraph, footnote, lowercase paragraph yields two
    units. *)
Theorem merge_cross_boundary_fragment :
  (forall (us : list content_unit) (i : nat) (u : content_unit),
     cross_boundary_fragment us i u ->
     (exists j p, (j < i)%nat /\ nth_error us j = Some p /\ utype p = paragraph) ->
     exists j target,
       prev_paragraph_idx (merge_upto us i) = Some j
       /\ nth_error (merge_upto us i) j = Some target
       /\ utype target = paragraph
       /\ (forall k v, (j < k)%nat -> nth_error (merge_upto us i) k = Some v ->
                       utype v <> paragraph)
       /\ merge_upto us (S i) = update_at j (absorb u) (merge_upto us i)
       /\ List.length (merge_upto us (S i)) = List.length (merge_upto us i)
       /\ (exists final, nth_error (merge_split_paragraphs us) j = Some final
                         /\ extends (absorb u target) final)
       /\ (NoDup (map uid us) ->
           ~ In (uid u) (map uid (merge_split_paragraphs us))))
  /\ (forall (us : list content_unit) (i : nat) (u : content_unit),
        cross_boundary_fragment us i u ->
        (forall j p, (j < i)%nat -> nth_error us j = Some p ->
                     utype p <> paragraph) ->
        merge_upto us (S i) = (merge_upto us i ++ [u])%list)
  /\ (forall p f q : content_unit,
        utype p = paragraph -> utype f = footnote -> utype q = paragraph ->
        starts_lower (text q) = true ->
        merge_split_paragraphs [p; f; q] = [absorb q p; f]).
Proof.
  split; [|split].
  2:{ intros us i u Hc Hnone. now apply merge_orphan_kept. }
  - intros us i u Hc (j0 & p0 & Hj0 & Hp0 & Htp0).
    assert (Hu : nth_error us i = Some u) by apply Hc.
    assert (Hi : (i < List.length us)%nat) by (apply nth_error_Some; congruence).
    destruct (prev_paragraph_idx (merge_upto us i)) as [j|] eqn:Hj.
    2:{ exfalso. assert (Hle : (i <= List.length us)%nat) by lia.
        pose proof (proj1 (no_prior_paragraph_iff us Hle) Hj) as Hn.
        now apply (Hn j0 p0). }
    destruct (prev_paragraph_idx_Some _ Hj) as (target & Ht & Htp & Hafter).
    pose proof (merge_upto_S_absorb Hc Hj) as Estep.
    exists j, target. repeat split; auto.
    + rewrite Estep. apply update_at_length.
    + rewrite merge_split_paragraphs_loop.
      apply (merge_upto_grows us (k := S i)); [lia|].
      rewrite Estep. now apply update_at_nth_same.
    + intros Hnd Hin. rewrite merge_split_paragraphs_loop in Hin.
      destruct (merge_upto_ids _ _ _ Hin) as (j' & w & _ & He & Hw & Hid).
      assert (j' = i).
      { apply (proj1 (NoDup_nth_error (map uid us)) Hnd).
        - rewrite length_map. apply nth_error_Some. congruence.
        - rewrite !nth_error_map, Hw, Hu. simpl. congruence. }
      subst j'. unfold emitted in He. rewrite Hu, Hj in He.
      apply (is_continuation_iff _ _ Hu) in Hc. rewrite Hc in He. discriminate.
  - intros p f q Hp Hf Hq Hl.
    unfold merge_split_paragraphs, merge_upto, merge_step, is_continuation.
    cbn. rewrite Hp, Hf, Hq, Hl. cbn. rewrite ?Hp, ?Hf. reflexivity.
Qed.

Lemma merge_cross_boundary_fragment_witness :
  merge_upto [para_1; foot_2; frag_3] 3
  = update_at 0 (absorb frag_3) (merge_upto [para_1; foot_2; frag_3] 2)
  /\ merge_split_paragraphs [para_1; foot_2; frag_3] = [absorb frag_3 para_1; foot_2].
Proof.
  split.
  - destruct (proj1 merge_cross_boundary_fragment
                [para_1; foot_2; frag_3] 2%nat frag_3) as (j & t & Hj & _ & _ & _ & E & _).
    + repeat split; try reflexivity.
      * exists foot_2. repeat split; try reflexivity. lia.
      * exists "m"%char, "arched on the capital.". split; reflexivity.
    + exists 0%nat, para_1. repeat split; try reflexivity. lia.
    + vm_compute in Hj. injection Hj as <-. exact E.
  - apply (proj2 (proj2 merge_cross_boundary_fragment)); reflexivity.
Defined.

(** C1 as stated fails when no paragraph precedes the fragment: a footnote
    followed by a lowercase paragraph is returned as it is, the fragment
    emitted and nothing recorded. *)
Lemma merge_cross_boundary_fragment_counterexample :
  cross_boundary_fragment [foot_2; frag_3] 1 frag_3
  /\ merge_split_paragraphs [foot_2; frag_3] = [foot_2; frag_3]
  /\ ~ (forall us i u, cross_boundary_fragment us i u ->
                       ~ In u (merge_split_paragraphs us)).
Proof.
  assert (Hc : cross_boundary_fragment [foot_2; frag_3] 1 frag_3).
  { repeat split; try reflexivity.
    - exists foot_2. repeat split; try reflexivity. lia.
    - exists "m"%char, "arched on the capital.". split; reflexivity. }
  split; [exact Hc|]. split; [reflexivity|].
  intros H. apply (H _ _ _ Hc). right. left. reflexivity.
Qed.

(** C3: on a list with distinct ids and no notes yet, no id named by a merge
    note of the output is the id of a unit of the output; every input unit
    is either in the output under its id exactly once and named by no note,
    or in no output unit and named by exactly one note; and every note of
    the output names the id of an input unit.  The lists the parser hands to
    the merger are such lists. *)
Theorem merge_notes_never_emitted :
  (forall us : list content_unit,
     fresh_units us ->
     let out := merge_split_paragraphs us in
     (forall v k, In v out -> In (note_entry k) (notes v) ->
                  ~ In k (map uid out))
     /\ (forall u, In u us ->
           (emit_count (uid u) out = 1%nat /\ note_count (uid u) out = 0%nat)
           \/ (emit_count (uid u) out = 0%nat /\ note_count (uid u) out = 1%nat))
     /\ (forall v e, In v out -> In e (notes v) ->
           exists u, In u us /\ e = note_entry (uid u)))
  /\ (forall content : string, fresh_units (parsed_units content)).
Proof.
  split; [|exact parsed_units_fresh].
  intros us [Hnd Hfresh] out. subst out. rewrite merge_split_paragraphs_loop.
  assert (Hsum : forall k,
    (emit_count k (merge_upto us (List.length us))
     + note_count k (merge_upto us (List.length us)))%nat
    = count_occ Z.eq_dec (map uid us) k).
  { intros k. rewrite (merge_upto_counts _ _ Hfresh), firstn_all. reflexivity. }
  assert (Hle : forall k, (count_occ Z.eq_dec (map uid us) k <= 1)%nat).
  { now apply (NoDup_count_occ Z.eq_dec). }
  repeat split.
  - intros v k Hv Hk Hin.
    pose proof (in_notes_note_count _ _ _ Hv Hk) as H1.
    apply (count_occ_In Z.eq_dec) in Hin.
    fold (emit_count k (merge_upto us (List.length us))) in Hin.
    specialize (Hsum k). specialize (Hle k). lia.
  - intros u Hu.
    assert (H1 : (1 <= count_occ Z.eq_dec (map uid us) (uid u))%nat).
    { apply count_occ_In. now apply in_map. }
    specialize (Hsum (uid u)). specialize (Hle (uid u)). lia.
  - intros v e Hv He.
    apply (@merge_upto_notes_origin us (List.length us) e Hfresh).
    apply in_flat_map. now exists v.
Qed.

Lemma merge_notes_never_emitted_witness :
  emit_count 3 (merge_split_paragraphs [para_1; foot_2; frag_3]) = 0%nat
  /\ note_count 3 (merge_split_paragraphs [para_1; foot_2; frag_3]) = 1%nat.
Proof.
  assert (Hf : fresh_units [para_1; foot_2; frag_3]).
  { split.
    - repeat constructor; simpl; intuition discriminate.
    - repeat constructor. }
  destruct (proj1 merge_notes_never_emitted _ Hf) as (_ & H & _).
  destruct (H frag_3) as [[He _]|H'].
  - right. right. left. reflexivity.
  - vm_compute in He. discriminate He.
  - exact H'.
Defined.

(** ** What the pass keeps *)

Lemma other_units_app (a b : list content_unit) :
  other_units (a ++ b)%list = (other_units a ++ other_units b)%list.
Proof. apply filter_app. Qed.

Lemma paragraph_texts_app (a b : list content_unit) :
  paragraph_texts (a ++ b)%list
  = (paragraph_texts a ++ paragraph_texts b)%list.
Proof. unfold paragraph_texts. now rewrite filter_app, map_app. Qed.

Lemma other_units_update_paragraph (l : list content_unit) (j : nat)
    (t u : content_unit) :
  nth_error l j = Some t -> utype t = paragraph ->
  other_units (update_at j (absorb u) l) = other_units l.
Proof.
  revert j. induction l as [|x r IH]; intros [|j] Ht Hp;
    cbn [nth_error update_at] in *; try discriminate.
  - injection Ht as ->. unfold other_units. cbn [filter].
    unfold is_paragraph. cbn [utype absorb]. now rewrite Hp.
  - unfold other_units in *. cbn [filter]. now rewrite (IH j Ht Hp).
Qed.

Lemma merge_upto_other_units (us : list content_unit) (k : nat) :
  other_units (merge_upto us k) = other_units (firstn k us).
Proof.
  induction k as [|k IH]; [reflexivity|].
  destruct (nth_error us k) as [u|] eqn:Hu.
  - rewrite (firstn_S_snoc _ _ Hu), other_units_app, <- IH.
    destruct (merge_upto_S_cases us k Hu)
      as [[E _] | (j & t & Hj & Ht & Hc & E & _)]; rewrite E.
    + apply other_units_app.
    + destruct (prev_paragraph_idx_Some _ Hj) as (t' & Ht' & Hp & _).
      rewrite (other_units_update_paragraph _ _ u Ht' Hp).
      destruct Hc as (_ & _ & Hpu & _).
      unfold other_units at 3. cbn [filter]. unfold is_paragraph.
      rewrite Hpu. cbn. now rewrite app_nil_r.
  - rewrite (firstn_S_none _ _ Hu), <- IH.
    rewrite merge_upto_S, merge_step_out_of_range by now apply nth_error_None.
    reflexivity.
Qed.

(** The target of a merge is the last paragraph: its text is the last of the
    paragraph texts, and the merge glues the fragment's text to it. *)
Lemma paragraph_texts_absorb (l : list content_unit) (j : nat) (u : content_unit) :
  prev_paragraph_idx l = Some j ->
  exists P t,
    paragraph_texts l = (P ++ [t])%list
    /\ paragraph_texts (update_at j (absorb u) l)
       = (P ++ [(t ++ " " ++ text u)%string])%list.
Proof.
  revert j. induction l as [|x r IH]; intros j Hj; [discriminate|].
  cbn [prev_paragraph_idx] in Hj.
  destruct (prev_paragraph_idx r) as [j'|] eqn:E.
  - injection Hj as <-. destruct (IH j' eq_refl) as (P & t & H1 & H2).
    cbn [update_at]. unfold paragraph_texts in *. cbn [filter].
    destruct (is_paragraph x).
    + exists (text x :: P), t. cbn [map]. now rewrite H1, H2.
    + exists P, t. now rewrite H1, H2.
  - destruct (unit_type_eqb (utype x) paragraph) eqn:Ex; [|discriminate].
    injection Hj as <-. exists [], (text x).
    assert (Hr : filter is_paragraph r = []).
    { apply prev_paragraph_idx_None in E. clear -E.
      induction E as [|y r Hy Hr IHr]; [reflexivity|]. cbn [filter].
      unfold is_paragraph at 1.
      destruct (unit_type_eqb (utype y) paragraph) eqn:Ey; [|exact IHr].
      apply unit_type_eqb_eq in Ey. contradiction. }
    assert (Hx : is_paragraph x = true) by exact Ex.
    assert (Hx' : is_paragraph (absorb u x) = true) by exact Ex.
    cbn [update_at]. unfold paragraph_texts. cbn [filter].
    rewrite Hx, Hx', Hr. split; reflexivity.
Qed.

Lemma paragraph_texts_one (u : content_unit) :
  paragraph_texts [u] = if is_paragraph u then [text u] else [].
Proof. unfold paragraph_texts. cbn [filter]. now destruct (is_paragraph u). Qed.

Lemma merge_upto_paragraph_texts (us : list content_unit) (k : nat) :
  join " " (paragraph_texts (merge_upto us k))
  = join " " (paragraph_texts (firstn k us))
  /\ (paragraph_texts (merge_upto us k) = []
      <-> paragraph_texts (firstn k us) = []).
Proof.
  induction k as [|k [IHj IHe]]; [split; [reflexivity|tauto]|].
  destruct (nth_error us k) as [u|] eqn:Hu.
  - rewrite (firstn_S_snoc _ _ Hu), paragraph_texts_app, paragraph_texts_one.
    destruct (merge_upto_S_cases us k Hu)
      as [[E _] | (j & t & Hj & Ht & Hc & E & _)]; rewrite E.
    + rewrite paragraph_texts_app, paragraph_texts_one.
      destruct (is_paragraph u).
      * split.
        -- rewrite !join_snoc.
           destruct (paragraph_texts (merge_upto us k)) eqn:E1,
                    (paragraph_texts (firstn k us)) eqn:E2; try reflexivity.
           ++ destruct IHe as [H _]. specialize (H eq_refl). discriminate.
           ++ destruct IHe as [_ H]. specialize (H eq_refl). discriminate.
           ++ now rewrite IHj.
        -- split; intros H; apply app_eq_nil in H; destruct H as [_ H];
             discriminate H.
      * rewrite !app_nil_r. split; assumption.
    + destruct (paragraph_texts_absorb _ u Hj) as (P & t0 & H1 & H2).
      destruct Hc as (_ & _ & Hpu & _).
      assert (Hp : is_paragraph u = true)
        by (unfold is_paragraph; now rewrite Hpu).
      rewrite Hp, H2. split.
      * rewrite join_glue_last, <- H1, IHj, join_snoc.
        destruct (paragraph_texts (firstn k us)) eqn:E2; [|reflexivity].
        destruct IHe as [_ H]. specialize (H eq_refl). rewrite H1 in H.
        destruct P; discriminate.
      * split; intros H; apply app_eq_nil in H; destruct H as [_ H];
          discriminate H.
  - rewrite (firstn_S_none _ _ Hu).
    rewrite merge_upto_S, merge_step_out_of_range by now apply nth_error_None.
    now split.
Qed.

(** Units that are not paragraphs go through the pass unchanged and in
    order: the pass only ever writes to a paragraph and only ever leaves out
    a paragraph. *)
Theorem merge_keeps_other_units (us : list content_unit) :
  other_units (merge_split_paragraphs us) = other_units us.
Proof.
  rewrite merge_split_paragraphs_loop, merge_upto_other_units.
  now rewrite firstn_all.
Qed.

(** The pass keeps the running text: the paragraph texts of the output,
    joined by single spaces, are the paragraph texts of the input joined by
    single spaces. *)
Theorem merge_keeps_reading_order (us : list content_unit) :
  join " " (paragraph_texts (merge_split_paragraphs us))
  = join " " (paragraph_texts us).
Proof.
  rewrite merge_split_paragraphs_loop.
  destruct (merge_upto_paragraph_texts us (List.length us)) as [H _].
  now rewrite H, firstn_all.
Qed.

(** ** The ids of the output *)

Lemma subseq_refl (A : Type) (l : list A) : subseq l l.
Proof. induction l; constructor; assumption. Qed.

Lemma subseq_snoc_keep (A : Type) (l l' : list A) (x : A) :
  subseq l l' -> subseq (l ++ [x])%list (l' ++ [x])%list.
Proof.
  induction 1; cbn [app]; try (constructor; assumption).
  apply subseq_refl.
Qed.

Lemma subseq_snoc_skip (A : Type) (l l' : list A) (x : A) :
  subseq l l' -> subseq l (l' ++ [x])%list.
Proof.
  induction 1; cbn [app]; try (constructor; assumption).
  apply subseq_skip. constructor.
Qed.

Lemma subseq_length (A : Type) (l l' : list A) :
  subseq l l' -> (List.length l <= List.length l')%nat.
Proof. induction 1; simpl; lia. Qed.

Lemma subseq_Forall (A : Type) (P : A -> Prop) (l l' : list A) :
  subseq l l' -> Forall P l' -> Forall P l.
Proof.
  induction 1 as [|x l l' Hs IH|x l l' Hs IH]; intros HP; auto.
  - inversion HP; subst. constructor; auto.
  - inversion HP; subst. auto.
Qed.

Lemma subseq_sorted (l l' : list Z) :
  subseq l l' -> StronglySorted Z.lt l' -> StronglySorted Z.lt l.
Proof.
  induction 1 as [|x l l' Hsub IH|x l l' Hsub IH]; intros Hs; auto.
  - inversion Hs; subst. constructor; auto.
    eapply subseq_Forall; eauto.
  - inversion Hs; subst. auto.
Qed.

Lemma merge_upto_subseq (us : list content_unit) (k : nat) :
  subseq (map uid (merge_upto us k)) (map uid (firstn k us)).
Proof.
  induction k as [|k IH]; [constructor|].
  destruct (nth_error us k) as [u|] eqn:Hu.
  - rewrite (firstn_S_snoc _ _ Hu), map_app. cbn [map].
    destruct (merge_upto_S_cases us k Hu)
      as [[E _] | (j & t & Hj & Ht & Hc & E & _)]; rewrite E.
    + rewrite map_app. cbn [map]. now apply subseq_snoc_keep.
    + rewrite update_at_map by reflexivity. now apply subseq_snoc_skip.
  - rewrite (firstn_S_none _ _ Hu).
    rewrite merge_upto_S, merge_step_out_of_range by now apply nth_error_None.
    exact IH.
Qed.

Lemma merge_ids_subseq (us : list content_unit) :
  subseq (map uid (merge_split_paragraphs us)) (map uid us).
Proof.
  rewrite merge_split_paragraphs_loop.
  pose proof (merge_upto_subseq us (List.length us)) as H.
  now rewrite firstn_all in H.
Qed.

(** The ids of the output are the ids of the input with some left out, in
    the same order; the output is never longer than the input, and ids that
    ascend in the input ascend in the output. *)
Theorem merge_ids_in_order (us : list content_unit) :
  subseq (map uid (merge_split_paragraphs us)) (map uid us)
  /\ (List.length (merge_split_paragraphs us) <= List.length us)%nat
  /\ (StronglySorted Z.lt (map uid us) ->
      StronglySorted Z.lt (map uid (merge_split_paragraphs us))).
Proof.
  pose proof (merge_ids_subseq us) as H.
  repeat split; auto.
  - apply subseq_length in H. now rewrite !length_map in H.
  - now apply subseq_sorted.
Qed.

Lemma merge_ids_in_order_witness :
  StronglySorted Z.lt
    (map uid (merge_split_paragraphs [para_1; foot_2; frag_3])).
Proof.
  apply (proj2 (proj2 (merge_ids_in_order [para_1; foot_2; frag_3]))).
  repeat constructor.
Defined.

Lemma numbered_ids (us : list content_unit) :
  forall first_id,
    numbered first_id us ->
    StronglySorted Z.lt (map uid us)
    /\ Forall (fun i => (first_id <= i < first_id + Z.of_nat (List.length us))%Z)
              (map uid us).
Proof.
  induction us as [|u r IH]; intros first_id H; [split; constructor|].
  destruct H as (Hu & _ & Hr). destruct (IH _ Hr) as [Hs Hb].
  cbn [map List.length]. split.
  - constructor; [exact Hs|].
    eapply Forall_impl; [|exact Hb]. intros a Ha. simpl in Ha. lia.
  - constructor; [lia|].
    eapply Forall_impl; [|exact Hb]. intros a Ha. simpl in Ha. lia.
Qed.

Lemma parse_lines_length (n : nat) :
  forall (lines : list string) (first : bool) (unit_id : Z),
    (List.length lines <= n)%nat ->
    (List.length (parse_lines first lines unit_id) <= List.length lines)%nat.
Proof.
  induction n as [|n IH]; intros lines first unit_id Hn.
  - destruct lines; [simpl; lia|simpl in Hn; lia].
  - destruct lines as [|l rest]; [simpl; lia|]. simpl in Hn.
    cbn [parse_lines].
    destruct (negb (nonempty (strip l))).
    { specialize (IH rest false unit_id ltac:(lia)). simpl. lia. }
    assert (Hone : (List.length (classify_line unit_id (strip l)) <= 1)%nat).
    { unfold classify_line.
      destruct (span is_decimal (strip l)) as [num r].
      destruct (span isspace r) as [sp rest'].
      destruct (nonempty num && nonempty sp); [destruct (nonempty rest')|];
        simpl; lia. }
    assert (Hplain :
      (List.length
         (classify_line unit_id (strip l)
          ++ parse_lines false rest
               (unit_id
                + Z.of_nat (List.length (classify_line unit_id (strip l)))))%list
       <= List.length (l :: rest))%nat).
    { rewrite length_app.
      specialize (IH rest false
        (unit_id + Z.of_nat (List.length (classify_line unit_id (strip l))))%Z
        ltac:(lia)).
      simpl. lia. }
    destruct (first && is_drop_cap (strip l)); [|exact Hplain].
    destruct rest as [|next rest']; [exact Hplain|].
    destruct (nonempty (strip next)); [|exact Hplain].
    simpl in Hn. specialize (IH rest' false (unit_id + 1)%Z ltac:(lia)).
    simpl. lia.
Qed.

(** The ids of a chapter's units, after the pass, ascend strictly and lie
    between 1 and the number of lines of the chapter. *)
Theorem parse_chapter_content_ids (content : string) :
  StronglySorted Z.lt (map uid (parse_chapter_content content))
  /\ Forall (fun i => (1 <= i <= Z.of_nat (List.length (split_lines content)))%Z)
            (map uid (parse_chapter_content content)).
Proof.
  unfold parse_chapter_content.
  assert (Hnum : numbered 1 (parsed_units content)).
  { unfold parsed_units.
    now apply (@parse_lines_numbered (List.length (split_lines content))). }
  destruct (numbered_ids _ _ Hnum) as [Hs Hb].
  pose proof (merge_ids_subseq (parsed_units content)) as Hsub.
  split; [now apply (subseq_sorted Hsub)|].
  apply (subseq_Forall Hsub).
  eapply Forall_impl; [|exact Hb]. intros a Ha. cbv beta in Ha.
  pose proof (@parse_lines_length (List.length (split_lines content))
                (split_lines content) true 1%Z (le_n _)) as Hl.
  unfold parsed_units in Ha. lia.
Qed.

(** ** Stripped lines and the units they become *)

Lemma classify_line_cases (l : string) (unit_id : Z) :
  nonempty (strip l) = true ->
  exists u,
    classify_line unit_id (strip l) = [u]
    /\ uid u = unit_id /\ note u = None /\ trimmed (text u)
    /\ ((utype u = footnote
         /\ original_id u = Some (fst (span is_decimal (strip l)))
         /\ nonempty (fst (span is_decimal (strip l))) = true
         /\ all_chars is_decimal (fst (span is_decimal (strip l))) = true
         /\ nonempty (fst (span isspace (snd (span is_decimal (strip l)))))
            = true
         /\ text u
            = strip (snd (span isspace (snd (span is_decimal (strip l))))))
        \/ (utype u = paragraph /\ original_id u = None
            /\ text u = strip l
            /\ nonempty (fst (span is_decimal (strip l)))
               && nonempty (fst (span isspace (snd (span is_decimal (strip l)))))
               = false)).
Proof.
  intros Hne. pose proof (strip_trimmed l Hne) as Ht.
  unfold classify_line.
  pose proof (span_cat is_decimal (strip l)) as C1.
  pose proof (span_fst_all is_decimal (strip l)) as A1.
  destruct (span is_decimal (strip l)) as [num r]. cbn [fst snd] in *.
  pose proof (span_cat isspace r) as C2.
  pose proof (span_fst_all isspace r) as A2.
  pose proof (span_snd_begins isspace r) as B2.
  destruct (span isspace r) as [sp rest]. cbn [fst snd] in *.
  destruct (nonempty num && nonempty sp) eqn:E.
  - apply andb_true_iff in E. destruct E as [Nn Ns].
    assert (Nr : nonempty rest = true).
    { destruct rest; [|reflexivity]. exfalso.
      rewrite append_nil_r in C2. subst r.
      destruct Ht as (_ & _ & He). rewrite <- C1 in He.
      rewrite (ends_with_append isspace num sp Ns) in He.
      rewrite (all_chars_ends isspace sp Ns A2) in He. discriminate. }
    rewrite Nr. eexists. split; [reflexivity|]. cbn [uid note text utype original_id].
    repeat split.
    + unfold strip. rewrite (lstrip_id _ B2). now apply rstrip_nonempty.
    + unfold strip. rewrite (lstrip_id _ B2). now apply rstrip_begins.
    + apply rstrip_ends.
    + left. repeat split; assumption.
  - eexists. split; [reflexivity|]. cbn [uid note text utype original_id].
    repeat split; try apply Ht. right. repeat split.
Qed.

(** Every line that is looked at becomes exactly one unit: the footnote
    test, once passed, always finds a text.  The unit has the current id
    and no note; it is a footnote when the line begins with digits followed
    by a space, numbered by the run of digits, its text being what follows
    the digits and the run of spaces, stripped; otherwise it is a paragraph
    whose text is the line. *)
Theorem classify_line_total (l : string) (unit_id : Z) :
  nonempty (strip l) = true ->
  exists u,
    classify_line unit_id (strip l) = [u]
    /\ uid u = unit_id /\ note u = None /\ trimmed (text u)
    /\ ((utype u = footnote
         /\ original_id u = Some (fst (span is_decimal (strip l)))
         /\ nonempty (fst (span is_decimal (strip l))) = true
         /\ all_chars is_decimal (fst (span is_decimal (strip l))) = true
         /\ nonempty (fst (span isspace (snd (span is_decimal (strip l)))))
            = true
         /\ text u
            = strip (snd (span isspace (snd (span is_decimal (strip l))))))
        \/ (utype u = paragraph /\ original_id u = None
            /\ text u = strip l
            /\ nonempty (fst (span is_decimal (strip l)))
               && nonempty (fst (span isspace (snd (span is_decimal (strip l)))))
               = false)).
Proof. apply classify_line_cases. Qed.

Lemma classify_line_total_witness :
  exists u, classify_line 7 (strip "  12 Ibid., p. 3. ") = [u]
            /\ utype u = footnote /\ text u = "Ibid., p. 3.".
Proof.
  destruct (@classify_line_total "  12 Ibid., p. 3. " 7 eq_refl)
    as (u & Hu & _).
  exists u. split; [exact Hu|].
  vm_compute in Hu. injection Hu as <-. split; reflexivity.
Defined.

Lemma Forall_update_at (A : Type) (Q : A -> Prop) (f : A -> A) (l : list A) (j : nat) :
  Forall Q l -> (forall x, Q x -> Q (f x)) -> Forall Q (update_at j f l).
Proof.
  intros H Hf. revert j. induction H as [|x r Hx Hr IH]; intros [|j];
    cbn [update_at]; constructor; auto.
Qed.

Lemma merge_upto_Forall (Q : content_unit -> Prop) (us : list content_unit) (k : nat) :
  Forall Q us -> (forall t u, Q t -> Q u -> Q (absorb u t)) ->
  Forall Q (merge_upto us k).
Proof.
  intros Hus Hq. induction k as [|k IH]; [constructor|].
  destruct (nth_error us k) as [u|] eqn:Hu.
  - assert (Qu : Q u).
    { rewrite Forall_forall in Hus. apply Hus. eapply nth_error_In; eauto. }
    destruct (merge_upto_S_cases us k Hu)
      as [[E _] | (j & t & Hj & Ht & Hc & E & _)]; rewrite E.
    + apply Forall_app. split; [exact IH|]. now constructor.
    + apply Forall_update_at; [exact IH|]. intros x Hx. now apply Hq.
  - rewrite merge_upto_S, merge_step_out_of_range by now apply nth_error_None.
    exact IH.
Qed.

Lemma parse_lines_plain (n : nat) :
  forall (lines : list string) (first : bool) (unit_id : Z),
    (List.length lines <= n)%nat ->
    Forall plain_unit (parse_lines first lines unit_id).
Proof.
  induction n as [|n IH]; intros lines first unit_id Hn.
  - destruct lines; [constructor|simpl in Hn; lia].
  - destruct lines as [|l rest]; [constructor|]. simpl in Hn.
    cbn [parse_lines].
    destruct (nonempty (strip l)) eqn:Hl; cbn [negb]; [|apply IH; lia].
    assert (Hplain : Forall plain_unit
              (classify_line unit_id (strip l)
               ++ parse_lines false rest
                    (unit_id
                     + Z.of_nat (List.length (classify_line unit_id (strip l)))))%list).
    { apply Forall_app. split; [|apply IH; lia].
      destruct (classify_line_cases l unit_id Hl)
        as (u & -> & _ & _ & Ht & Hty).
      constructor; [|constructor]. split; [exact Ht|].
      destruct Hty as [[Hf _] | [Hp _]]; auto. }
    destruct (first && is_drop_cap (strip l)); [|exact Hplain].
    destruct rest as [|next rest']; [exact Hplain|].
    destruct (nonempty (strip next)) eqn:Hnext; [|exact Hplain].
    constructor; [|apply IH; simpl in Hn; lia].
    split; [|now left].
    cbn [text]. apply trimmed_append; now apply strip_trimmed.
Qed.

Lemma parse_chapter_content_plain (content : string) :
  Forall plain_unit (parse_chapter_content content).
Proof.
  unfold parse_chapter_content. rewrite merge_split_paragraphs_loop.
  apply merge_upto_Forall.
  - apply (@parse_lines_plain (List.length (split_lines content))). lia.
  - intros t u [Ht Hty] [Hu _]. split.
    + cbn [text absorb]. now apply trimmed_glue.
    + now rewrite absorb_utype.
Qed.

(** Every unit of a chapter is a paragraph or a footnote, and its text is
    not empty and has no space at either end, merged paragraphs
    included. *)
Theorem parse_chapter_content_units (content : string) :
  Forall plain_unit (parse_chapter_content content).
Proof. apply parse_chapter_content_plain. Qed.

(** ** The loop on the store, an example *)

Lemma merge_split_paragraphs_ref_read_witness :
  read (fst (merge_split_paragraphs_ref example_store [0; 1; 2]%nat))
       (snd (merge_split_paragraphs_ref example_store [0; 1; 2]%nat))
  = merge_split_paragraphs (read example_store [0; 1; 2]%nat).
Proof.
  apply merge_split_paragraphs_ref_read.
  - repeat constructor; simpl; intuition discriminate.
  - repeat constructor.
Defined.

End TxtToJsonParserProofs.

(* ================================================================== *)
(** * The per-page stages, verified *)
(* ================================================================== *)

Module PdfToJsonFinalProofs.

Import PyStr PyStrFacts PdfToJsonFinal.
Local Open Scope string_scope.
Local Open Scope Q_scope.
Local Open Scope list_scope.

(** ** Facts on the order of numbers *)

Lemma Qlt_bool_iff (a b : Q) : Qlt_bool a b = true <-> a < b.
Proof.
  unfold Qlt_bool. rewrite negb_true_iff. split.
  - intros H. apply Qnot_le_lt. intros Hle.
    apply Qle_bool_iff in Hle. congruence.
  - intros H. destruct (Qle_bool b a) eqn:E; [|reflexivity].
    apply Qle_bool_iff in E. exfalso. now apply (Qlt_not_le a b).
Qed.

Lemma Qlt_bool_false_iff (a b : Q) : Qlt_bool a b = false <-> b <= a.
Proof.
  unfold Qlt_bool. rewrite negb_false_iff. apply Qle_bool_iff.
Qed.

Lemma Qle_bool_false_iff (a b : Q) : Qle_bool a b = false <-> b < a.
Proof.
  rewrite <- Qlt_bool_iff. unfold Qlt_bool.
  destruct (Qle_bool a b); simpl; split; congruence.
Qed.

(** ** Facts on floats *)

Lemma py_round_cases (x : Q) :
  py_round x = Qfloor x \/ py_round x = (Qfloor x + 1)%Z.
Proof.
  unfold py_round.
  destruct (Qcompare (x - inject_Z (Qfloor x)) (1 # 2)); auto.
  destruct (Z.even (Qfloor x)); auto.
Qed.

Lemma py_round_le (x y : Q) : x <= y -> (py_round x <= py_round y)%Z.
Proof.
  intros H. pose proof (@Qfloor_resp_le x y H) as Hf.
  destruct (Z.eq_dec (Qfloor x) (Qfloor y)) as [E|E].
  - unfold py_round. rewrite <- E.
    destruct (Qcompare_spec (x - inject_Z (Qfloor x)) (1 # 2)) as [Hx|Hx|Hx];
      destruct (Qcompare_spec (y - inject_Z (Qfloor x)) (1 # 2)) as [Hy|Hy|Hy];
      try lia; try (destruct (Z.even (Qfloor x)); lia); exfalso; lra.
  - destruct (py_round_cases x) as [-> | ->], (py_round_cases y) as [-> | ->];
      lia.
Qed.

Lemma py_round_Z (n : Z) : py_round (inject_Z n) = n.
Proof.
  unfold py_round. rewrite Qfloor_Z.
  destruct (Qcompare_spec (inject_Z n - inject_Z n) (1 # 2)) as [H|H|H];
    try reflexivity; exfalso; lra.
Qed.

Lemma pow2_pos (e : Z) : 0 < pow2 e.
Proof. apply Qpower_0_lt. reflexivity. Qed.

Lemma pow2_le (a b : Z) : (a <= b)%Z -> pow2 a <= pow2 b.
Proof. intros H. apply Qpower_le_compat_l; [exact H|]. discriminate. Qed.

Lemma pow2_lt (a b : Z) : (a < b)%Z -> pow2 a < pow2 b.
Proof. intros H. apply Qpower_lt_compat_l; [exact H|]. reflexivity. Qed.

Lemma pow2_add (a b : Z) : pow2 (a + b) == pow2 a * pow2 b.
Proof. apply Qpower_plus. discriminate. Qed.

Lemma pow2_Z (n : Z) : (0 <= n)%Z -> pow2 n == inject_Z (2 ^ n).
Proof. intros H. unfold pow2. now rewrite Zpower_Qpower. Qed.

(** The exponent is the right one. *)
Lemma floor_log2_spec (x : Q) :
  0 < x -> pow2 (floor_log2 x) <= x /\ x < pow2 (floor_log2 x + 1).
Proof.
  intros Hx. destruct x as [n d]. unfold floor_log2. cbn [Qnum Qden].
  assert (Hn : (0 < n)%Z).
  { unfold Qlt in Hx. cbn in Hx. lia. }
  pose proof (Z.log2_spec n Hn) as [Ha1 Ha2].
  pose proof (Z.log2_spec (Zpos d) (Pos2Z.is_pos d)) as [Hb1 Hb2].
  pose proof (Z.log2_nonneg n) as Ha0.
  pose proof (Z.log2_nonneg (Zpos d)) as Hb0.
  set (a := Z.log2 n) in *. set (b := Z.log2 (Zpos d)) in *.
  assert (Ex : n # d == inject_Z n / inject_Z (Zpos d)) by apply Qmake_Qdiv.
  assert (Hd : 0 < inject_Z (Zpos d)) by reflexivity.
  assert (Pa : pow2 a == inject_Z (2 ^ a)) by now apply pow2_Z.
  assert (Pb : pow2 b == inject_Z (2 ^ b)) by now apply pow2_Z.
  assert (Pa1 : pow2 (a + 1) == inject_Z (2 ^ (a + 1))) by (apply pow2_Z; lia).
  assert (Pb1 : pow2 (b + 1) == inject_Z (2 ^ (b + 1))) by (apply pow2_Z; lia).
  assert (Hna : pow2 a <= inject_Z n) by (rewrite Pa, <- Zle_Qle; exact Ha1).
  assert (Hna1 : inject_Z n < pow2 (a + 1))
    by (rewrite Pa1, <- Zlt_Qlt; unfold Z.succ in Ha2; exact Ha2).
  assert (Hdb : pow2 b <= inject_Z (Zpos d)) by (rewrite Pb, <- Zle_Qle; exact Hb1).
  assert (Hdb1 : inject_Z (Zpos d) < pow2 (b + 1))
    by (rewrite Pb1, <- Zlt_Qlt; unfold Z.succ in Hb2; exact Hb2).
  (* upper: x < 2^(a-b+1);  lower: 2^(a-b-1) < x *)
  assert (Hup : n # d < pow2 (a - b + 1)).
  { rewrite Ex. apply Qlt_shift_div_r; [exact Hd|].
    eapply Qlt_le_trans; [exact Hna1|].
    replace (a + 1)%Z with ((a - b + 1) + b)%Z by lia. rewrite pow2_add.
    apply Qmult_le_l; [apply pow2_pos|exact Hdb]. }
  assert (Hlo : pow2 (a - b - 1) < n # d).
  { rewrite Ex. apply Qlt_shift_div_l; [exact Hd|].
    eapply Qlt_le_trans; [|exact Hna].
    replace a with ((a - b - 1) + (b + 1))%Z at 2 by lia. rewrite pow2_add.
    apply Qmult_lt_l; [apply pow2_pos|exact Hdb1]. }
  destruct (Qle_bool (pow2 (a - b)) (n # d)) eqn:E.
  - apply Qle_bool_iff in E. split; [exact E|exact Hup].
  - split; [apply Qlt_le_weak; exact Hlo|].
    replace (a - b - 1 + 1)%Z with (a - b)%Z by lia.
    apply Qnot_le_lt. intros H. apply Qle_bool_iff in H. congruence.
Qed.

Lemma floor_log2_le (x y : Q) :
  0 < x -> x <= y -> (floor_log2 x <= floor_log2 y)%Z.
Proof.
  intros Hx Hxy.
  destruct (floor_log2_spec Hx) as [Hx1 _].
  destruct (@floor_log2_spec y) as [_ Hy2]; [lra|].
  destruct (Z_le_gt_dec (floor_log2 x) (floor_log2 y)) as [H|H]; [exact H|].
  exfalso. assert (Hp : pow2 (floor_log2 y + 1) <= pow2 (floor_log2 x))
    by (apply pow2_le; lia).
  lra.
Qed.

Lemma round_mag_nonneg (x : Q) : 0 < x -> 0 <= round_mag x.
Proof.
  intros Hx. unfold round_mag.
  set (u := pow2 _). pose proof (pow2_pos (Z.max (floor_log2 x) emin - 52)) as Hu.
  fold u in Hu.
  apply Qmult_le_0_compat; [|lra].
  change 0 with (inject_Z 0). rewrite <- Zle_Qle.
  rewrite <- (py_round_Z 0). apply py_round_le.
  apply Qle_shift_div_l; [exact Hu|]. change (inject_Z 0) with 0. lra.
Qed.

Lemma round_mag_le (x y : Q) :
  0 < x -> x <= y -> round_mag x <= round_mag y.
Proof.
  intros Hx Hxy. assert (Hy : 0 < y) by lra.
  pose proof (floor_log2_le Hx Hxy) as He.
  destruct (floor_log2_spec Hx) as [_ Hx2].
  destruct (floor_log2_spec Hy) as [Hy1 _].
  unfold round_mag.
  set (cx := Z.max (floor_log2 x) emin).
  set (cy := Z.max (floor_log2 y) emin).
  assert (Hc : (cx <= cy)%Z) by (unfold cx, cy; lia).
  pose proof (pow2_pos (cx - 52)) as Hux. pose proof (pow2_pos (cy - 52)) as Huy.
  destruct (Z.eq_dec cx cy) as [E|E].
  - rewrite <- E. apply Qmult_le_compat_r; [|lra].
    rewrite <- Zle_Qle. apply py_round_le.
    apply Qmult_le_compat_r; [exact Hxy|].
    apply Qlt_le_weak, Qinv_lt_0_compat, Hux.
  - assert (Hcy : cy = floor_log2 y) by (unfold cx, cy in *; lia).
    assert (Hcx : (floor_log2 x <= cx)%Z) by (unfold cx; lia).
    apply Qle_trans with (pow2 (cx + 1)).
    + (* round_mag x <= 2^(cx+1) *)
      assert (Hb : x / pow2 (cx - 52) <= inject_Z (2 ^ 53)).
      { apply Qle_shift_div_r; [exact Hux|].
        rewrite <- (@pow2_Z 53) by lia. rewrite <- pow2_add.
        replace (53 + (cx - 52))%Z with (cx + 1)%Z by lia.
        apply Qlt_le_weak. eapply Qlt_le_trans; [exact Hx2|].
        apply pow2_le. lia. }
      apply py_round_le in Hb. rewrite py_round_Z in Hb.
      replace (cx + 1)%Z with (53 + (cx - 52))%Z by lia.
      rewrite pow2_add. apply Qmult_le_compat_r; [|lra].
      rewrite (@pow2_Z 53) by lia. now rewrite <- Zle_Qle.
    + apply Qle_trans with (pow2 cy); [apply pow2_le; lia|].
      assert (Hb : inject_Z (2 ^ 52) <= y / pow2 (cy - 52)).
      { apply Qle_shift_div_l; [exact Huy|].
        rewrite <- (@pow2_Z 52) by lia. rewrite <- pow2_add.
        replace (52 + (cy - 52))%Z with cy by lia.
        rewrite Hcy. exact Hy1. }
      apply py_round_le in Hb. rewrite py_round_Z in Hb.
      replace cy with (52 + (cy - 52))%Z at 1 by lia.
      rewrite pow2_add. apply Qmult_le_compat_r; [|lra].
      rewrite (@pow2_Z 52) by lia. now rewrite <- Zle_Qle.
Qed.

Lemma round64_zero (x : Q) : x == 0 -> round64 x = 0.
Proof.
  intros H. unfold round64. apply Qeq_alt in H. now rewrite H.
Qed.

Lemma round64_nonneg (x : Q) : 0 <= x -> 0 <= round64 x.
Proof.
  intros H. unfold round64.
  destruct (Qcompare_spec x 0) as [E|E|E]; [lra|lra|].
  now apply round_mag_nonneg.
Qed.

Lemma round64_nonpos (x : Q) : x <= 0 -> round64 x <= 0.
Proof.
  intros H. unfold round64.
  destruct (Qcompare_spec x 0) as [E|E|E]; [lra| |lra].
  assert (0 <= round_mag (- x)) by (apply round_mag_nonneg; lra). lra.
Qed.

(** Rounding keeps the order. *)
Lemma round64_le (x y : Q) : x <= y -> round64 x <= round64 y.
Proof.
  intros H.
  destruct (Qlt_le_dec 0 x) as [Hx|Hx].
  - unfold round64.
    destruct (Qcompare_spec x 0) as [E|E|E]; [lra|lra|].
    destruct (Qcompare_spec y 0) as [E'|E'|E']; [lra|lra|].
    now apply round_mag_le.
  - destruct (Qlt_le_dec 0 y) as [Hy|Hy].
    + apply Qle_trans with 0; [now apply round64_nonpos|].
      apply round64_nonneg. lra.
    + unfold round64.
      destruct (Qcompare_spec y 0) as [E'|E'|E'].
      * destruct (Qcompare_spec x 0) as [E|E|E]; [lra| |lra].
        assert (0 <= round_mag (- x)) by (apply round_mag_nonneg; lra). lra.
      * destruct (Qcompare_spec x 0) as [E|E|E]; [lra| |lra].
        assert (round_mag (- y) <= round_mag (- x))
          by (apply round_mag_le; lra).
        lra.
      * lra.
Qed.

Lemma round64_eq (x y : Q) : x == y -> round64 x == round64 y.
Proof.
  intros H. apply Qle_antisym; apply round64_le; lra.
Qed.

Lemma round64_abs (x : Q) : Qabs (round64 x) == round64 (Qabs x).
Proof.
  destruct (Qlt_le_dec x 0) as [H|H].
  - rewrite (@round64_eq (Qabs x) (- x)) by (apply Qabs_neg; lra).
    rewrite Qabs_neg by (apply round64_nonpos; lra).
    unfold round64.
    destruct (Qcompare_spec x 0) as [E|E|E]; [lra| |lra].
    destruct (Qcompare_spec (- x) 0) as [E'|E'|E']; [lra|lra|]. lra.
  - rewrite (@round64_eq (Qabs x) x) by (apply Qabs_pos; exact H).
    rewrite Qabs_pos by now apply round64_nonneg. reflexivity.
Qed.

(** Rounding a float gives it back, and rounding is monotone: a bound that
    is a float passes through a rounding. *)
Lemma round64_le_float (x t : Q) : is_float t -> x <= t -> round64 x <= t.
Proof.
  intros Ht H. unfold is_float in Ht. rewrite <- Ht. now apply round64_le.
Qed.

Lemma round64_ge_float (x t : Q) : is_float t -> t <= x -> t <= round64 x.
Proof.
  intros Ht H. unfold is_float in Ht. rewrite <- Ht. now apply round64_le.
Qed.

(** A rounded magnitude below a float: the exact magnitude is below it
    too. *)
Lemma round64_abs_lt (d t : Q) :
  is_float t -> Qabs (round64 d) < t -> Qabs d < t.
Proof.
  intros Ht H. apply Qnot_le_lt. intros Hle.
  apply (round64_ge_float Ht) in Hle.
  rewrite <- round64_abs in Hle. lra.
Qed.

(** A rounded magnitude above a float: the exact magnitude is above it
    too. *)
Lemma round64_abs_gt (d t : Q) :
  is_float t -> t < Qabs (round64 d) -> t < Qabs d.
Proof.
  intros Ht H. apply Qnot_le_lt. intros Hle.
  apply (round64_le_float Ht) in Hle.
  rewrite <- round64_abs in Hle. lra.
Qed.

Lemma fsub_nonneg (a b : Q) : b <= a -> 0 <= fsub a b.
Proof. intros H. apply round64_nonneg. lra. Qed.

Lemma fsub_le (a a' b b' : Q) : a <= a' -> b' <= b -> fsub a b <= fsub a' b'.
Proof. intros Ha Hb. apply round64_le. lra. Qed.

Lemma fsub_self (a : Q) : fsub a a = 0.
Proof. apply round64_zero. lra. Qed.

Lemma py_round_eq (x y : Q) : x == y -> py_round x = py_round y.
Proof.
  intros H. apply Z.le_antisymm; apply py_round_le; lra.
Qed.

(** The exponent of a positive rational below [2 ** n]. *)
Lemma floor_log2_lt (x : Q) (n : Z) :
  0 < x -> x < pow2 n -> (floor_log2 x < n)%Z.
Proof.
  intros Hx H. destruct (floor_log2_spec Hx) as [H1 _].
  destruct (Z_lt_le_dec (floor_log2 x) n) as [L|L]; [exact L|].
  exfalso. pose proof (@pow2_le n (floor_log2 x) L). lra.
Qed.

(** The exponent of a rational that is [2 ** n] or more. *)
Lemma floor_log2_ge (x : Q) (n : Z) :
  pow2 n <= x -> (n <= floor_log2 x)%Z.
Proof.
  intros H. pose proof (pow2_pos n) as Hn.
  destruct (@floor_log2_spec x) as [_ H2]; [lra|].
  destruct (Z_le_gt_dec n (floor_log2 x)) as [L|L]; [exact L|].
  exfalso. assert (Hp : pow2 (floor_log2 x + 1) <= pow2 n) by (apply pow2_le; lia).
  lra.
Qed.

(** A positive multiple of [2 ** c] that needs no more than 53 bits is a
    float. *)
Lemma round_mag_grid (x : Q) (k c : Z) :
  0 < x -> x == inject_Z k * pow2 c -> (emin - 52 <= c)%Z ->
  x < pow2 (c + 53) -> round_mag x == x.
Proof.
  intros Hx Hk Hc Hlt. unfold round_mag.
  pose proof (@floor_log2_lt x (c + 53) Hx Hlt) as Hfl.
  set (e := Z.max (floor_log2 x) emin).
  assert (He : (e - 52 <= c)%Z) by (unfold e; lia).
  set (j := (c - (e - 52))%Z).
  pose proof (pow2_pos (e - 52)) as Hu.
  assert (Hc' : pow2 c == inject_Z (2 ^ j) * pow2 (e - 52)).
  { rewrite <- (@pow2_Z j) by (unfold j; lia). rewrite <- pow2_add.
    replace (j + (e - 52))%Z with c by (unfold j; lia). reflexivity. }
  assert (Hq : x / pow2 (e - 52) == inject_Z (k * 2 ^ j)).
  { rewrite inject_Z_mult. rewrite Hk, Hc'. field. lra. }
  rewrite (@py_round_eq _ _ Hq), py_round_Z, inject_Z_mult, Hk, Hc'. ring.
Qed.

(** A multiple of [2 ** c] that needs no more than 53 bits is a float. *)
Lemma round64_grid (x : Q) (k c : Z) :
  x == inject_Z k * pow2 c -> (emin - 52 <= c)%Z ->
  Qabs x < pow2 (c + 53) -> is_float x.
Proof.
  intros Hk Hc Hlt. unfold is_float, round64.
  destruct (Qcompare_spec x 0) as [E|E|E].
  - lra.
  - rewrite Qabs_neg in Hlt by lra.
    rewrite (@round_mag_grid (- x) (- k) c); [lra|lra| |exact Hc|exact Hlt].
    rewrite inject_Z_opp, Hk. ring.
  - rewrite Qabs_pos in Hlt by lra.
    now apply (@round_mag_grid x k c).
Qed.

(** A float that is [2 ** n] or more is a multiple of [2 ** (n - 52)]. *)
Lemma float_grid (a : Q) (n : Z) :
  is_float a -> pow2 n <= a -> exists k, a == inject_Z k * pow2 (n - 52).
Proof.
  intros Ha Hn. pose proof (pow2_pos n) as Hp.
  pose proof (@floor_log2_ge a n Hn) as Hfl.
  unfold is_float, round64 in Ha.
  destruct (Qcompare_spec a 0) as [E|E|E]; [lra|lra|].
  unfold round_mag in Ha.
  set (e := Z.max (floor_log2 a) emin) in Ha.
  assert (He : (n <= e)%Z) by (unfold e; lia).
  set (m := py_round (a / pow2 (e - 52))) in Ha.
  exists (m * 2 ^ (e - n))%Z.
  rewrite inject_Z_mult, <- (@pow2_Z (e - n)) by lia.
  rewrite <- Qmult_assoc, <- pow2_add.
  replace (e - n + (n - 52))%Z with (e - 52)%Z by lia.
  symmetry. exact Ha.
Qed.

(** The difference of two floats that are [2 ** n] or more, when it is
    below [2 ** (n + 1)] in magnitude, is a float: the subtraction is
    exact. *)
Lemma fsub_exact (a b : Q) (n : Z) :
  is_float a -> is_float b -> pow2 n <= a -> pow2 n <= b ->
  (emin <= n)%Z -> Qabs (a - b) < pow2 (n + 1) -> fsub a b == a - b.
Proof.
  intros Ha Hb Hna Hnb Hn Hd.
  destruct (@float_grid a n Ha Hna) as [ka Eka].
  destruct (@float_grid b n Hb Hnb) as [kb Ekb].
  apply (@round64_grid (a - b) (ka - kb) (n - 52)).
  - assert (Ek : inject_Z (ka - kb) == inject_Z ka - inject_Z kb).
    { unfold Z.sub. rewrite inject_Z_plus, inject_Z_opp. ring. }
    rewrite Ek. set (u := pow2 (n - 52)) in *. lra.
  - lia.
  - replace (n - 52 + 53)%Z with (n + 1)%Z by lia. exact Hd.
Qed.

Lemma is_float_30 : is_float 30.
Proof. vm_compute. reflexivity. Qed.

Lemma is_float_tolerance : is_float tolerance.
Proof. vm_compute. reflexivity. Qed.

(** ** Facts on sorting *)


Section SortFacts.
Variable A : Type.
Variable leb : A -> A -> bool.
Hypothesis leb_total : forall a b, leb a b = true \/ leb b a = true.

Let le (a b : A) : Prop := leb a b = true.

Lemma insert_sorted_perm (x : A) (l : list A) :
  Permutation (x :: l) (insert_sorted leb x l).
Proof.
  induction l as [|y r IH]; simpl; [reflexivity|].
  destruct (leb x y); [reflexivity|].
  rewrite perm_swap. now constructor.
Qed.

Lemma sort_with_perm (l : list A) : Permutation l (sort_with leb l).
Proof.
  induction l as [|x r IH]; simpl; [constructor|].
  rewrite <- insert_sorted_perm. now constructor.
Qed.

Lemma insert_sorted_sorted (x : A) (l : list A) :
  Sorted le l -> Sorted le (insert_sorted leb x l).
Proof.
  induction 1 as [|y r Hs IH Hhd]; simpl.
  - repeat constructor.
  - destruct (leb x y) eqn:E.
    + constructor; [now constructor|]. constructor. exact E.
    + constructor; [exact IH|].
      assert (Hyx : le y x) by (destruct (leb_total x y); congruence).
      destruct r as [|z r']; simpl.
      * constructor. exact Hyx.
      * destruct (leb x z); constructor; [exact Hyx|].
        now inversion Hhd.
Qed.

Lemma sort_with_sorted (l : list A) : Sorted le (sort_with leb l).
Proof.
  induction l as [|x r IH]; simpl; [constructor|].
  now apply insert_sorted_sorted.
Qed.

(** A sorted list is left as it is. *)
Lemma sort_with_id (l : list A) : Sorted le l -> sort_with leb l = l.
Proof.
  induction 1 as [|y r Hs IH Hhd]; simpl; [reflexivity|].
  rewrite IH. destruct Hhd as [|z r' Hyz]; simpl; [reflexivity|].
  unfold le in Hyz. now rewrite Hyz.
Qed.
End SortFacts.

Section SortStable.
Variable A : Type.
Variable leb : A -> A -> bool.
Hypothesis leb_trans :
  forall a b c, leb a b = true -> leb b c = true -> leb a c = true.

Lemma insert_sorted_filter (p : A -> bool) (x : A) (l : list A) :
  (forall y, In y l -> p x = true -> p y = true -> leb x y = true) ->
  filter p (insert_sorted leb x l)
  = if p x then x :: filter p l else filter p l.
Proof.
  induction l as [|y r IH]; intros Hp; cbn [insert_sorted filter].
  - reflexivity.
  - destruct (leb x y) eqn:E; cbn [filter]; [reflexivity|].
    rewrite IH by (intros y' Hy'; apply Hp; now right).
    destruct (p y) eqn:Ey; [|reflexivity].
    destruct (p x) eqn:Ex; [|reflexivity].
    rewrite (Hp y (or_introl eq_refl) eq_refl Ey) in E. discriminate.
Qed.

(** The sort is stable: the elements that compare equal to [z] come out in
    the order they went in. *)
Lemma sort_with_stable (z : A) (l : list A) :
  filter (same_rank leb z) (sort_with leb l) = filter (same_rank leb z) l.
Proof.
  induction l as [|x r IH]; [reflexivity|].
  cbn [sort_with fold_right filter]. fold (sort_with leb r).
  rewrite insert_sorted_filter, IH; [reflexivity|].
  unfold same_rank. intros y _ Hx Hy.
  apply andb_true_iff in Hx. apply andb_true_iff in Hy.
  apply leb_trans with z; tauto.
Qed.
End SortStable.

Lemma Qle_bool_total (a b : Q) : Qle_bool a b = true \/ Qle_bool b a = true.
Proof.
  rewrite !Qle_bool_iff. destruct (Qlt_le_dec a b) as [H|H]; auto.
  left. now apply Qlt_le_weak.
Qed.

Lemma sorted_by_perm (A : Type) (key : A -> Q) (l : list A) :
  Permutation l (sorted_by key l).
Proof. apply sort_with_perm. Qed.

(** [sorted_by] sorts: the keys ascend, each one at most every later one. *)
Lemma sorted_by_sorted (A : Type) (key : A -> Q) (l : list A) :
  StronglySorted (fun a b => key a <= key b) (sorted_by key l).
Proof.
  apply Sorted_StronglySorted.
  - intros a b c. apply Qle_trans.
  - pose proof (@sort_with_sorted A (fun a b => Qle_bool (key a) (key b))
                  (fun a b => Qle_bool_total (key a) (key b)) l) as H.
    unfold sorted_by.
    induction H as [|x r Hs IH Hhd]; constructor; auto.
    destruct Hhd as [|y r' Hxy]; constructor. now apply Qle_bool_iff.
Qed.

Lemma sorted_by_idem (A : Type) (key : A -> Q) (l : list A) :
  sorted_by key (sorted_by key l) = sorted_by key l.
Proof.
  unfold sorted_by. apply sort_with_id.
  apply sort_with_sorted. intros a b. apply Qle_bool_total.
Qed.

(** ** group_words_to_lines: lines are chains *)

Lemma last_top_snoc (l : list word) (w : word) :
  last_top (l ++ [w]) = Some (top w).
Proof.
  induction l as [|a r IH]; [reflexivity|].
  simpl. destruct (r ++ [w])%list eqn:E; [now destruct r|]. exact IH.
Qed.

Lemma linked_snoc (t : Q) (l : list word) (w : word) :
  linked t l ->
  (forall a, last_top l = Some a -> near t a (top w)) ->
  linked t (l ++ [w]).
Proof.
  induction l as [|a r IH]; intros Hc Hl; [exact I|].
  destruct r as [|b r'].
  - simpl. split; [|exact I]. apply Hl. reflexivity.
  - destruct Hc as [Hab Hc]. split; [exact Hab|].
    apply IH; [exact Hc|]. intros a' Ha'. apply Hl. exact Ha'.
Qed.

(** The test of the loop, passed against a float [t]: the exact difference
    of the two heights is below [t] as well. *)
Lemma near_exact (t a b : Q) : is_float t -> near t a b -> Qabs (b - a) < t.
Proof. intros Ht H. apply round64_abs_lt; assumption. Qed.

Lemma linked_chained (t : Q) (l : list word) :
  is_float t -> linked t l -> chained t l.
Proof.
  intros Ht. induction l as [|a r IH]; intros H; [exact I|].
  destruct r as [|b r']; [exact I|].
  destruct H as [Hab Hr]. split; [now apply near_exact|now apply IH].
Qed.

Lemma separated_snoc_line (t : Q) (ls : list (list word)) (c d : list word) :
  separated t (ls ++ [c]) -> gap t c d -> separated t ((ls ++ [c]) ++ [d]).
Proof.
  induction ls as [|l r IH]; intros Hs Hg.
  - simpl. auto.
  - change ((l :: r) ++ [c])%list with (l :: (r ++ [c]))%list in *.
    change ((l :: r ++ [c]) ++ [d])%list with (l :: ((r ++ [c]) ++ [d]))%list.
    destruct (r ++ [c])%list as [|l2 r2] eqn:E; [now destruct r|].
    destruct Hs as [Hg1 Hs]. split; [exact Hg1|]. apply IH; auto.
Qed.

Lemma separated_snoc_word (t : Q) (ls : list (list word)) (c : list word)
    (w : word) :
  c <> [] -> separated t (ls ++ [c]) -> separated t (ls ++ [c ++ [w]]).
Proof.
  intros Hc. induction ls as [|l r IH]; intros Hs; [exact I|].
  change ((l :: r) ++ [c])%list with (l :: (r ++ [c]))%list in Hs.
  change ((l :: r) ++ [c ++ [w]])%list with (l :: (r ++ [c ++ [w]]))%list.
  destruct r as [|l2 r2].
  - simpl in *. destruct Hs as [Hg _]. split; [|exact I].
    unfold gap in *. destruct (last_top l); [|exact I].
    destruct c as [|b c']; [contradiction|]. exact Hg.
  - simpl in *. destruct Hs as [Hg Hs]. split; [exact Hg|]. apply IH. exact Hs.
Qed.

Lemma lines_step_inv (t : Q) (ws : list word) (st : lines_state) (w : word) :
  lines_inv t ws st -> lines_inv t (ws ++ [w]) (lines_step t st w).
Proof.
  destruct st as [[lines cur] last].
  intros (Hcat & Hlast & Hempty & Hne & Hch & Hcur & Hsep).
  unfold lines_step. subst last.
  destruct (last_top cur) as [a|] eqn:Ea.
  - assert (Hcne : cur <> []) by (intros ->; discriminate).
    destruct (Qlt_bool (Qabs (fsub (top w) a)) t) eqn:E.
    + apply Qlt_bool_iff in E. repeat split.
      * now rewrite app_assoc, Hcat.
      * now rewrite last_top_snoc.
      * intros H. now destruct cur.
      * exact Hne.
      * exact Hch.
      * apply linked_snoc; [exact Hcur|]. intros a' Ha'.
        rewrite Ea in Ha'. injection Ha' as <-. exact E.
      * now apply separated_snoc_word.
    + apply Qlt_bool_false_iff in E.
      assert (Hclose : close_line lines cur = (lines ++ [cur])%list)
        by (destruct cur; [contradiction|reflexivity]).
      rewrite Hclose. repeat split.
      * rewrite concat_app. simpl. rewrite app_nil_r. now rewrite Hcat.
      * discriminate.
      * apply Forall_app. split; [exact Hne|]. now constructor.
      * apply Forall_app. split; [exact Hch|]. now constructor.
      * apply separated_snoc_line; [exact Hsep|].
        unfold gap, near. rewrite Ea. intros Hlt.
        now apply (Qlt_not_le _ _ Hlt).
  - assert (Hc : cur = []).
    { destruct cur as [|x [|y r]]; try discriminate; [reflexivity|].
      exfalso. clear -Ea. revert x y Ea. induction r as [|z r IH]; intros x y Ea.
      - discriminate.
      - apply (IH y z). exact Ea. }
    subst cur. rewrite (Hempty eq_refl) in *. simpl in Hcat. subst ws.
    repeat split; auto.
Qed.

Lemma lines_fold_inv (t : Q) (ws pre : list word) (st : lines_state) :
  lines_inv t pre st ->
  lines_inv t (pre ++ ws) (fold_left (lines_step t) ws st).
Proof.
  revert pre st. induction ws as [|w r IH]; intros pre st H; simpl.
  - now rewrite app_nil_r.
  - replace (pre ++ w :: r)%list with ((pre ++ [w]) ++ r)%list
      by (now rewrite <- app_assoc).
    apply IH. now apply lines_step_inv.
Qed.

(** The lines of a word list: they concatenate to the sorted words, none is
    empty, each is linked by the test of the loop, and consecutive ones are
    a gap apart. *)
Lemma group_words_to_lines_spec (words : list word) (t : Q) :
  let lines := group_words_to_lines words t in
  List.concat lines = sorted_by top words
  /\ Forall (fun l => l <> []) lines
  /\ Forall (linked t) lines
  /\ separated t lines.
Proof.
  unfold group_words_to_lines. destruct words as [|w0 r0]; [now repeat split|].
  set (ws := sorted_by top (w0 :: r0)).
  pose proof (@lines_fold_inv t ws [] ([], [], None)) as H.
  destruct (fold_left (lines_step t) ws ([], [], None)) as [[lines cur] last].
  destruct H as (Hcat & Hlast & Hempty & Hne & Hch & Hcur & Hsep).
  { repeat split; auto. }
  simpl in Hcat. destruct cur as [|c cr].
  - rewrite (Hempty eq_refl) in *. simpl in *. now repeat split.
  - unfold close_line. repeat split.
    + rewrite concat_app. simpl. now rewrite app_nil_r.
    + apply Forall_app. split; [exact Hne|]. constructor; [discriminate|constructor].
    + apply Forall_app. split; [exact Hch|]. now constructor.
    + exact Hsep.
Qed.

(** Three words at the heights 0, [t / 2] and [t], the half of [t] being a
    float: one line. *)
Lemma drifting_line (t : Q) :
  0 < t -> is_float (t * (1 # 2)) ->
  group_words_to_lines [word_at 0; word_at (t * (1 # 2)); word_at t] t
  = [[word_at 0; word_at (t * (1 # 2)); word_at t]].
Proof.
  intros Ht Hh.
  assert (H01 : Qle_bool 0 (t * (1 # 2)) = true) by (apply Qle_bool_iff; lra).
  assert (H12 : Qle_bool (t * (1 # 2)) t = true) by (apply Qle_bool_iff; lra).
  assert (E1 : fsub (t * (1 # 2)) 0 == t * (1 # 2)).
  { unfold fsub. eapply Qeq_trans; [|exact Hh]. apply round64_eq. lra. }
  assert (E2 : fsub t (t * (1 # 2)) == t * (1 # 2)).
  { unfold fsub. eapply Qeq_trans; [|exact Hh]. apply round64_eq. lra. }
  assert (A1 : Qlt_bool (Qabs (fsub (t * (1 # 2)) 0)) t = true).
  { apply Qlt_bool_iff. rewrite E1. apply Qabs_case; intros; lra. }
  assert (A2 : Qlt_bool (Qabs (fsub t (t * (1 # 2)))) t = true).
  { apply Qlt_bool_iff. rewrite E2. apply Qabs_case; intros; lra. }
  unfold group_words_to_lines, sorted_by, sort_with.
  cbn [fold_right insert_sorted top word_at].
  rewrite H12. cbn [insert_sorted top word_at]. rewrite H01.
  cbn [fold_left lines_step top word_at app].
  rewrite A1. cbn [fold_left lines_step top word_at app]. rewrite A2.
  reflexivity.
Qed.

(** C10: for a tolerance [t > 0] the lines of a word list are contiguous
    runs of the words sorted by [top] (a permutation of the words,
    ascending, no run empty); in each line every word passes the test of
    the loop against the word before it, [abs(top - last_top) < t] on the
    float difference, and a new line begins exactly where that test fails;
    [t] being a float, the top of every word of a line differs from the top
    of the word before it by strictly less than [t], exactly; and since the
    test is against the previous word only, the words at the heights 0,
    [t / 2] and [t] (floats) make one line whose first and last words are
    [t] apart. *)
Theorem group_words_to_lines_chaining (words : list word) (t : Q) :
  0 < t ->
  (let lines := group_words_to_lines words t in
   List.concat lines = sorted_by top words
   /\ Permutation words (List.concat lines)
   /\ StronglySorted (fun a b => top a <= top b) (List.concat lines)
   /\ Forall (fun l => l <> []) lines
   /\ Forall (linked t) lines
   /\ separated t lines
   /\ (is_float t -> Forall (chained t) lines))
  /\ (is_float t -> is_float (t * (1 # 2)) ->
      exists ws line a b,
        Forall (fun w => is_float (top w)) ws
        /\ group_words_to_lines ws t = [line]
        /\ In a line /\ In b line
        /\ t <= Qabs (top b - top a)).
Proof.
  intros Ht. split.
  - destruct (group_words_to_lines_spec words t) as (Hcat & Hne & Hch & Hsep).
    cbv zeta. rewrite Hcat. repeat split; auto.
    + apply sorted_by_perm.
    + apply sorted_by_sorted.
    + intros Hf. eapply Forall_impl; [|exact Hch].
      intros l. now apply linked_chained.
  - intros Hf Hh.
    exists [word_at 0; word_at (t * (1 # 2)); word_at t],
           [word_at 0; word_at (t * (1 # 2)); word_at t],
           (word_at 0), (word_at t).
    rewrite (drifting_line Ht Hh). repeat split.
    + repeat constructor; cbn [top word_at]; assumption.
    + now left.
    + right. right. now left.
    + cbn [top word_at]. apply Qabs_case; intros; lra.
Qed.

Lemma group_words_to_lines_chaining_witness :
  exists ws line a b,
    Forall (fun w => is_float (top w)) ws
    /\ group_words_to_lines ws 2 = [line]
    /\ In a line /\ In b line
    /\ 2 <= Qabs (top b - top a).
Proof.
  apply (@group_words_to_lines_chaining [word_at 0; word_at 3] 2).
  - reflexivity.
  - vm_compute. reflexivity.
  - vm_compute. reflexivity.
Defined.

(** The floats 0.9 and 2.9 are less than 2 apart and their difference
    rounds to 2.0: with the tolerance 2 they are on two lines. *)
Lemma rounded_difference_splits :
  Qabs (py_float 2.9 - py_float 0.9) < 2
  /\ fsub (py_float 2.9) (py_float 0.9) == 2
  /\ group_words_to_lines [word_at (py_float 0.9); word_at (py_float 2.9)] 2
     = [[word_at (py_float 0.9)]; [word_at (py_float 2.9)]].
Proof.
  split; [vm_compute; reflexivity|].
  split; vm_compute; reflexivity.
Qed.

(** ** clean_hyphenated_text: the scan and its fuel *)

Lemma span_append (p : ascii -> bool) (s : string) :
  (fst (span p s) ++ snd (span p s))%string = s.
Proof.
  induction s as [|c r IH]; simpl; [reflexivity|].
  destruct (p c); [|reflexivity].
  destruct (span p r) as [a b]. simpl in *. now rewrite IH.
Qed.

Lemma length_append (a b : string) :
  String.length (a ++ b)%string = (String.length a + String.length b)%nat.
Proof. induction a as [|c a IH]; simpl; [reflexivity | now rewrite IH]. Qed.

Lemma span_length (p : ascii -> bool) (s : string) :
  String.length s
  = (String.length (fst (span p s)) + String.length (snd (span p s)))%nat.
Proof. now rewrite <- length_append, span_append. Qed.

(** A match is at least three characters long and ends inside [s]. *)
Lemma match_hyphen_shorter (s w1 w2 rest : string) :
  match_hyphen s = Some (w1, w2, rest) ->
  (String.length rest + 3 <= String.length s)%nat.
Proof.
  unfold match_hyphen.
  pose proof (span_length is_word s) as L1.
  destruct (span is_word s) as [a r1]. simpl in L1.
  destruct a as [|a0 a']; [discriminate|].
  destruct r1 as [|h r2]; [discriminate|].
  destruct (Ascii.eqb_spec h "-"%char) as [->|Hh].
  2:{ destruct h as [[] [] [] [] [] [] [] []]; try discriminate.
      now contradiction Hh. }
  pose proof (span_length isspace r2) as L2.
  destruct (span isspace r2) as [sp r3]. simpl in L2.
  pose proof (span_length is_word r3) as L3.
  destruct (span is_word r3) as [b r4]. simpl in L3.
  destruct sp as [|s0 sp']; [discriminate|].
  destruct b as [|b0 b']; [discriminate|].
  intros [= _ _ <-]. simpl in *. lia.
Qed.

Lemma sub_hyphen_fuel (n : nat) :
  forall (s : string) (f1 f2 : nat),
    (String.length s <= n)%nat ->
    (String.length s <= f1)%nat -> (String.length s <= f2)%nat ->
    sub_hyphen f1 s = sub_hyphen f2 s.
Proof.
  induction n as [|n IH]; intros s f1 f2 Hn H1 H2.
  - destruct s; [|simpl in Hn; lia]. now destruct f1, f2.
  - destruct s as [|c t]; [now destruct f1, f2|].
    destruct f1 as [|f1]; [simpl in H1; lia|].
    destruct f2 as [|f2]; [simpl in H2; lia|].
    cbn [sub_hyphen].
    destruct (match_hyphen (String c t)) as [[[w1 w2] rest]|] eqn:E.
    + apply match_hyphen_shorter in E. simpl in *.
      rewrite (IH rest f1 f2); [reflexivity|lia|lia|lia].
    + simpl in *. rewrite (IH t f1 f2); [reflexivity|lia|lia|lia].
Qed.

(** The scan never runs out of fuel: the function satisfies the equation of
    the scan. *)
Lemma clean_hyphenated_text_eq (s : string) :
  clean_hyphenated_text s =
  match s with
  | EmptyString => EmptyString
  | String c t =>
      match match_hyphen s with
      | Some (w1, w2, rest) => (w1 ++ w2 ++ clean_hyphenated_text rest)%string
      | None => String c (clean_hyphenated_text t)
      end
  end.
Proof.
  unfold clean_hyphenated_text. destruct s as [|c t]; [reflexivity|].
  cbn [String.length sub_hyphen].
  destruct (match_hyphen (String c t)) as [[[w1 w2] rest]|] eqn:E.
  - apply match_hyphen_shorter in E. simpl in E.
    rewrite (@sub_hyphen_fuel (String.length t) rest (String.length t)
               (String.length rest)); [reflexivity|lia|lia|lia].
  - reflexivity.
Qed.

(** *** The match is the one the pattern has

    Whatever way the pattern [(\w+)-\s+(\w+)] matches at the start of a
    string, the first group and the run of spaces are forced, and the greedy
    last group extends the one chosen: [match_hyphen] finds that match, and
    what it finds is a match. *)

Lemma span_all (p : ascii -> bool) (a b : string) :
  all_chars p a = true ->
  span p (a ++ b)%string
  = ((a ++ fst (span p b))%string, snd (span p b)).
Proof.
  induction a as [|c a IH]; cbn [all_chars append span]; intros H.
  - now destruct (span p b).
  - apply andb_true_iff in H. destruct H as [Hc Ha]. rewrite Hc, (IH Ha).
    reflexivity.
Qed.

Lemma span_prefix_all (p : ascii -> bool) (s : string) :
  all_chars p (fst (span p s)) = true.
Proof.
  induction s as [|c r IH]; cbn [span]; [reflexivity|].
  destruct (p c) eqn:E; [|reflexivity].
  destruct (span p r). cbn [fst all_chars] in *. now rewrite E, IH.
Qed.

(** What follows the longest prefix does not begin with a [p]. *)
Lemma span_rest_stops (p : ascii -> bool) (s : string) :
  starts_with p (snd (span p s)) = false.
Proof.
  induction s as [|c r IH]; cbn [span]; [reflexivity|].
  destruct (p c) eqn:E.
  - destruct (span p r). exact IH.
  - cbn [snd starts_with]. exact E.
Qed.

Lemma span_stopped (p : ascii -> bool) (s : string) :
  starts_with p s = false -> span p s = (EmptyString, s).
Proof.
  destruct s as [|c r]; cbn [starts_with span]; [reflexivity|].
  now intros ->.
Qed.

Lemma word_not_space (c : ascii) : is_word c = true -> isspace c = false.
Proof.
  destruct c as [[] [] [] [] [] [] [] []]; vm_compute; congruence.
Qed.

Lemma match_hyphen_sound (s w1 w2 rest : string) :
  match_hyphen s = Some (w1, w2, rest) ->
  exists sp,
    s = (w1 ++ "-" ++ sp ++ w2 ++ rest)%string
    /\ nonempty w1 = true /\ nonempty sp = true /\ nonempty w2 = true
    /\ all_chars is_word w1 = true /\ all_chars isspace sp = true
    /\ all_chars is_word w2 = true
    /\ starts_with is_word rest = false.
Proof.
  unfold match_hyphen.
  pose proof (span_append is_word s) as A1.
  pose proof (span_prefix_all is_word s) as P1.
  destruct (span is_word s) as [a r1]. cbn [fst snd] in *.
  destruct a as [|a0 a']; [discriminate|].
  destruct r1 as [|h r2]; [discriminate|].
  destruct (Ascii.eqb_spec h "-"%char) as [->|Hh].
  2:{ destruct h as [[] [] [] [] [] [] [] []]; try discriminate.
      now contradiction Hh. }
  pose proof (span_append isspace r2) as A2.
  pose proof (span_prefix_all isspace r2) as P2.
  destruct (span isspace r2) as [sp r3]. cbn [fst snd] in *.
  pose proof (span_append is_word r3) as A3.
  pose proof (span_prefix_all is_word r3) as P3.
  pose proof (span_rest_stops is_word r3) as S3.
  destruct (span is_word r3) as [b r4]. cbn [fst snd] in *.
  destruct sp as [|s0 sp']; [discriminate|].
  destruct b as [|b0 b']; [discriminate|].
  intros [= <- <- <-]. exists (String s0 sp').
  repeat split; auto.
  rewrite <- A1, <- A2, <- A3. reflexivity.
Qed.

Lemma match_hyphen_complete (w1 sp w2 rest : string) :
  nonempty w1 = true -> nonempty sp = true -> nonempty w2 = true ->
  all_chars is_word w1 = true -> all_chars isspace sp = true ->
  all_chars is_word w2 = true ->
  match_hyphen (w1 ++ "-" ++ sp ++ w2 ++ rest)%string
  = Some (w1, (w2 ++ fst (span is_word rest))%string, snd (span is_word rest)).
Proof.
  intros N1 N2 N3 H1 H2 H3. unfold match_hyphen.
  rewrite (@span_all is_word w1 _ H1).
  rewrite (@span_stopped is_word ("-" ++ sp ++ w2 ++ rest)%string) by reflexivity.
  cbn [fst snd]. rewrite append_nil_r.
  destruct w1 as [|a0 a']; [discriminate|].
  cbn [append]. rewrite (@span_all isspace sp _ H2).
  destruct w2 as [|b0 b']; [discriminate|].
  rewrite (@span_stopped isspace (String b0 b' ++ rest)%string).
  2:{ cbn [append starts_with]. apply word_not_space.
      cbn [all_chars] in H3. now apply andb_true_iff in H3. }
  cbn [fst snd]. rewrite append_nil_r.
  rewrite (@span_all is_word (String b0 b') _ H3).
  destruct sp as [|s0 sp']; [discriminate|].
  reflexivity.
Qed.

(** More fuel changes nothing. *)
Lemma clean_hyphenated_text_fuel (s : string) (fuel : nat) :
  (String.length s <= fuel)%nat -> sub_hyphen fuel s = clean_hyphenated_text s.
Proof.
  intros H. unfold clean_hyphenated_text.
  apply (@sub_hyphen_fuel (String.length s)); lia.
Qed.

(** C2 fails on the code: one pass joins ["a- b"] and goes on after the
    [b], so the hyphen that follows it stays; a second pass removes it. *)
Theorem clean_hyphenated_text_second_pass :
  clean_hyphenated_text "a- b- c" = "ab- c"%string
  /\ clean_hyphenated_text (clean_hyphenated_text "a- b- c") = "abc"%string
  /\ clean_hyphenated_text (clean_hyphenated_text "a- b- c")
     <> clean_hyphenated_text "a- b- c".
Proof.
  repeat split; try reflexivity.
  vm_compute. discriminate.
Qed.

(** ** analyze_font_sizes: the buckets *)

Lemma within_tolerance_false (x g : Q) :
  g <= x -> (within_tolerance x g = false <-> tolerance < fsub x g).
Proof.
  intros H. unfold within_tolerance. rewrite Qle_bool_false_iff.
  rewrite Qabs_pos by now apply fsub_nonneg. reflexivity.
Qed.

(** A size that failed the test against a key below it is more than
    [tolerance] above the key. *)
Lemma within_tolerance_apart (x g : Q) :
  g <= x -> within_tolerance x g = false -> g + tolerance < x.
Proof.
  intros H E. apply (within_tolerance_false H) in E.
  apply Qnot_le_lt. intros Hle.
  assert (Hd : x - g <= tolerance) by lra.
  apply (round64_le_float is_float_tolerance) in Hd. unfold fsub in E. lra.
Qed.

Lemma within_tolerance_self (x : Q) : within_tolerance x x = true.
Proof.
  unfold within_tolerance. rewrite fsub_self. reflexivity.
Qed.

(** The keys passed over: each is below the size and failed the test
    against a size that is not larger. *)
Lemma add_to_group_skip (x : Q) (G H : size_groups_t) :
  (forall g ms, In (g, ms) G -> g <= x /\ tolerance < fsub x g) ->
  add_to_group x (G ++ H) = option_map (app G) (add_to_group x H).
Proof.
  induction G as [|[g ms] G IH]; intros HG; cbn [app add_to_group].
  - now destruct (add_to_group x H).
  - assert (E : Qle_bool (Qabs (fsub x g)) tolerance = false).
    { destruct (HG g ms (or_introl eq_refl)) as [Hg Ht].
      now apply (within_tolerance_false Hg). }
    rewrite E, IH.
    + now destruct (add_to_group x H).
    + intros g' ms' Hin. apply (HG g' ms'). now right.
Qed.

Lemma group_sizes_anchor_runs (rest : list Q) :
  forall (G : size_groups_t) (a : Q) (m : list Q),
    (forall g ms, In (g, ms) G -> g <= a /\ tolerance < fsub a g) ->
    StronglySorted Qle (a :: rest) ->
    fold_left group_step rest (G ++ [(a, m)]) = G ++ anchor_runs a m rest.
Proof.
  induction rest as [|x r IH]; intros G a m HG Hs; [reflexivity|].
  inversion Hs as [|? ? Hs' Ha]; subst.
  inversion Hs' as [|? ? Hr Hx]; subst.
  inversion Ha as [|? ? Hax Har]; subst.
  assert (HGx : forall g ms, In (g, ms) G -> g <= x /\ tolerance < fsub x g).
  { intros g ms Hin. destruct (HG g ms Hin) as [Hg Ht]. split; [lra|].
    eapply Qlt_le_trans; [exact Ht|]. apply fsub_le; [exact Hax|lra]. }
  cbn [fold_left anchor_runs]. unfold group_step at 2.
  rewrite add_to_group_skip by exact HGx.
  cbn [add_to_group option_map]. fold (within_tolerance x a).
  destruct (within_tolerance x a) eqn:E.
  - cbn [option_map]. apply IH; [exact HG|]. constructor; assumption.
  - cbn [option_map].
    rewrite (IH (G ++ [(a, m)]) x [x]).
    + now rewrite <- app_assoc.
    + intros g ms Hin. apply in_app_or in Hin.
      destruct Hin as [Hin|[[= <- <-]|[]]].
      * now apply (HGx g ms).
      * split; [exact Hax|]. now apply (within_tolerance_false Hax).
    + exact Hs'.
Qed.

(** On ascending sizes the loop builds the anchored runs. *)
Lemma group_sizes_anchor (sizes : list Q) :
  StronglySorted Qle sizes -> group_sizes sizes = anchor_clusters sizes.
Proof.
  destruct sizes as [|x r]; [reflexivity|]. intros Hs.
  unfold group_sizes, anchor_clusters. cbn [fold_left].
  change (group_step [] x) with ([] ++ [(x, [x])]).
  rewrite group_sizes_anchor_runs; [reflexivity| |exact Hs].
  intros g ms [].
Qed.

Lemma anchor_runs_spec (rest : list Q) :
  forall (a : Q) (m : list Q),
    bucket_ok (a, m) ->
    List.concat (map snd (anchor_runs a m rest)) = m ++ rest
    /\ Forall bucket_ok (anchor_runs a m rest)
    /\ anchor_runs a m rest <> [].
Proof.
  induction rest as [|x r IH]; intros a m Hok; cbn [anchor_runs].
  - simpl. rewrite !app_nil_r. repeat split; [now constructor|discriminate].
  - destruct (within_tolerance x a) eqn:E.
    + destruct (IH a (m ++ [x])) as (Hc & Hf & Hn).
      * destruct Hok as [Hh Hw]. cbn [fst snd] in *. split.
        -- destruct m; [discriminate|exact Hh].
        -- apply Forall_app. split; [exact Hw|].
           constructor; [exact E|constructor].
      * rewrite Hc, <- app_assoc. repeat split; auto.
    + destruct (IH x [x]) as (Hc & Hf & Hn).
      * split; [reflexivity|]. constructor; [|constructor]. cbn [fst snd].
        apply within_tolerance_self.
      * simpl. rewrite Hc. split; [reflexivity|]. split; [|discriminate].
        now constructor.
Qed.

Lemma anchor_runs_head (rest : list Q) :
  forall (a : Q) (m : list Q),
    exists m' g, anchor_runs a m rest = (a, m') :: g.
Proof.
  induction rest as [|x r IH]; intros a m; cbn [anchor_runs].
  - now exists m, [].
  - destruct (within_tolerance x a).
    + apply IH.
    + now exists m, (anchor_runs x [x] r).
Qed.

Lemma anchor_runs_apart (rest : list Q) :
  forall (a : Q) (m : list Q),
    StronglySorted Qle (a :: rest) -> keys_apart (anchor_runs a m rest).
Proof.
  induction rest as [|x r IH]; intros a m Hs; cbn [anchor_runs].
  - exact I.
  - inversion Hs as [|? ? Hs' Ha]; subst.
    inversion Hs' as [|? ? Hr Hx]; subst.
    inversion Ha as [|? ? Hax Har]; subst.
    destruct (within_tolerance x a) eqn:E.
    + apply IH. constructor; assumption.
    + pose proof (IH x [x] Hs') as Hrest.
      destruct (anchor_runs_head r x [x]) as (m' & g & Eg). rewrite Eg in *.
      split; [exact E|]. split; [|exact Hrest]. cbn [fst].
      now apply within_tolerance_apart.
Qed.

Lemma anchor_clusters_apart (sizes : list Q) :
  StronglySorted Qle sizes -> keys_apart (anchor_clusters sizes).
Proof.
  destruct sizes as [|x r]; [intros _; exact I|]. apply anchor_runs_apart.
Qed.

Lemma sort_sizes_sorted (l : list Q) : StronglySorted Qle (sort_with Qle_bool l).
Proof.
  change (sort_with Qle_bool l) with (sorted_by (fun x : Q => x) l).
  apply (sorted_by_sorted (fun x : Q => x)).
Qed.

Lemma anchor_clusters_spec (sizes : list Q) :
  List.concat (map snd (anchor_clusters sizes)) = sizes
  /\ Forall bucket_ok (anchor_clusters sizes)
  /\ (sizes <> [] -> anchor_clusters sizes <> []).
Proof.
  destruct sizes as [|x r]; [now repeat split|].
  destruct (@anchor_runs_spec r x [x]) as (Hc & Hf & Hn).
  - split; [reflexivity|]. constructor; [|constructor]. cbn [fst snd].
    apply within_tolerance_self.
  - repeat split; auto.
Qed.

(** The fields of the returned dict. *)
Lemma analyze_font_sizes_fields (words : list word) (info : font_info) :
  analyze_font_sizes words = Some info ->
  let buckets := group_sizes (sort_with Qle_bool (font_sizes_of words)) in
  font_sizes_of words <> []
  /\ avg_sizes info = map (fun kv => (fst kv, mean (snd kv))) buckets
  /\ size_frequency info = map (fun kv => (fst kv, List.length (snd kv))) buckets
  /\ all_sizes info = sorted_by (@snd Q Q) (avg_sizes info)
  /\ (footnote_size info, header_size info, body_size info)
     = tiers_of (all_sizes info).
Proof.
  unfold analyze_font_sizes, tiers_of.
  destruct (font_sizes_of words) as [|s0 r] eqn:E; [discriminate|].
  cbv zeta.
  set (sorted_sizes := sorted_by _ _).
  destruct (3 <=? List.length sorted_sizes)%nat eqn:E3;
    [|destruct (List.length sorted_sizes =? 2)%nat eqn:E2];
    intros [= <-]; cbn [avg_sizes size_frequency all_sizes footnote_size
                        header_size body_size]; fold sorted_sizes;
    rewrite ?E3, ?E2; repeat split; discriminate.
Qed.

Lemma analyze_font_sizes_returns (words : list word) :
  font_sizes_of words <> [] -> exists info, analyze_font_sizes words = Some info.
Proof.
  unfold analyze_font_sizes. destruct (font_sizes_of words); [contradiction|].
  intros _. cbv zeta.
  match goal with |- context [if ?c then _ else _] => destruct c end;
    [|match goal with |- context [if ?c then _ else _] => destruct c end];
    eexists; reflexivity.
Qed.

(** C6, as amended: the buckets of a page with at least one sized token are
    the runs of the ascending sizes in which every size is within 0.5 of the
    first (smallest) size of its run, the bucket's key: a size joins the
    open bucket when [abs(size - key) <= 0.5], the difference being the
    float that the subtraction gives, and opens the next bucket otherwise.
    The buckets concatenate to the sorted sizes, each begins with its key
    and holds sizes that pass the test against it, the key of a bucket
    fails the test against the key before and is more than 0.5 above it,
    and the member count and the mean of each bucket, [sum(v)/len(v)] in
    floats, are recorded under its key. *)
Theorem font_size_buckets (words : list word) :
  font_sizes_of words <> [] ->
  exists info,
    analyze_font_sizes words = Some info
    /\ let sizes := sort_with Qle_bool (font_sizes_of words) in
       let buckets := group_sizes sizes in
       StronglySorted Qle sizes
       /\ Permutation (font_sizes_of words) sizes
       /\ buckets = anchor_clusters sizes
       /\ List.concat (map snd buckets) = sizes
       /\ Forall bucket_ok buckets
       /\ keys_apart buckets
       /\ size_frequency info
          = map (fun kv => (fst kv, List.length (snd kv))) buckets
       /\ avg_sizes info = map (fun kv => (fst kv, mean (snd kv))) buckets.
Proof.
  intros Hne. destruct (analyze_font_sizes_returns _ Hne) as [info Hinfo].
  exists info. split; [exact Hinfo|].
  destruct (analyze_font_sizes_fields _ Hinfo) as (_ & Havg & Hfreq & _).
  cbv zeta.
  pose proof (sort_sizes_sorted (font_sizes_of words)) as Hs.
  rewrite (group_sizes_anchor Hs).
  destruct (anchor_clusters_spec (sort_with Qle_bool (font_sizes_of words)))
    as (Hc & Hf & _).
  rewrite (group_sizes_anchor Hs) in Havg, Hfreq.
  repeat split; auto.
  - apply sort_with_perm.
  - now apply anchor_clusters_apart.
Qed.

Lemma font_size_buckets_witness :
  exists info,
    analyze_font_sizes (map sized_word close_sizes) = Some info
    /\ size_frequency info = [(py_float 10, 2%nat); (py_float 10.8, 1%nat)].
Proof.
  destruct (@font_size_buckets (map sized_word close_sizes))
    as (info & Hinfo & _ & _ & _ & _ & _ & _ & Hfreq & _).
  - discriminate.
  - exists info. split; [exact Hinfo|]. rewrite Hfreq.
    vm_compute. reflexivity.
Defined.

(** C6 as stated fails on the floats 10.0, 10.4, 10.8: each is within 0.5
    of the one before, exactly and in floats, so the clustering of the
    specification makes one bucket, while the code compares 10.8 with the
    key 10.0, more than 0.5 below it, and opens a second bucket. *)
Lemma font_size_buckets_counterexample :
  Forall is_float close_sizes
  /\ py_float 10.4 - py_float 10 <= tolerance
  /\ py_float 10.8 - py_float 10.4 <= tolerance
  /\ tolerance < py_float 10.8 - py_float 10
  /\ sort_with Qle_bool close_sizes = close_sizes
  /\ chain_clusters close_sizes = [close_sizes]
  /\ map snd (group_sizes close_sizes)
     = [[py_float 10; py_float 10.4]; [py_float 10.8]]
  /\ option_map size_frequency (analyze_font_sizes (map sized_word close_sizes))
     = Some [(py_float 10, 2%nat); (py_float 10.8, 1%nat)]
  /\ map snd (group_sizes (sort_with Qle_bool close_sizes))
     <> chain_clusters (sort_with Qle_bool close_sizes).
Proof.
  split; [repeat constructor; vm_compute; reflexivity|].
  split; [vm_compute; discriminate|].
  split; [vm_compute; discriminate|].
  split; [vm_compute; reflexivity|].
  split; [vm_compute; reflexivity|].
  split; [vm_compute; reflexivity|].
  split; [vm_compute; reflexivity|].
  split; [vm_compute; reflexivity|].
  vm_compute. discriminate.
Qed.

(** The floats 0.3 and 0.8 are more than 0.5 apart and their difference
    rounds to 0.5: they share a bucket.  The mean of six sizes 6.1 is the
    float after 6.1. *)
Lemma rounded_difference_joins :
  tolerance < py_float 0.8 - py_float 0.3
  /\ fsub (py_float 0.8) (py_float 0.3) == tolerance
  /\ map snd (group_sizes [py_float 0.3; py_float 0.8])
     = [[py_float 0.3; py_float 0.8]].
Proof.
  split; [vm_compute; reflexivity|].
  split; vm_compute; reflexivity.
Qed.

Lemma rounded_mean :
  py_float 6.1 < mean (repeat (py_float 6.1) 6)
  /\ mean (repeat (py_float 6.1) 6) == 6867989431740007 # 1125899906842624.
Proof.
  split; vm_compute; reflexivity.
Qed.

(** ** analyze_font_sizes: the tiers *)

Lemma sorted_snd_at_le (l : list (Q * Q)) :
  StronglySorted (fun a b => snd a <= snd b) l ->
  forall i j, (i <= j)%nat -> (j < List.length l)%nat ->
              snd_at l i <= snd_at l j.
Proof.
  unfold snd_at.
  induction 1 as [|x r Hs IH Hx]; intros i j Hij Hj; [simpl in Hj; lia|].
  destruct j as [|j].
  - assert (i = 0%nat) by lia. subst. apply Qle_refl.
  - simpl in Hj. destruct i as [|i].
    + cbn [nth]. rewrite Forall_forall in Hx. apply Hx.
      apply nth_In. lia.
    + cbn [nth]. apply IH; lia.
Qed.

Lemma in_snd_at (l : list (Q * Q)) (kv : Q * Q) :
  In kv l -> exists i, (i < List.length l)%nat /\ snd kv = snd_at l i.
Proof.
  intros H. destruct (In_nth l kv (0, 0) H) as (i & Hi & E).
  exists i. split; [exact Hi|]. unfold snd_at. now rewrite E.
Qed.

(** C7: the buckets being ordered by mean ([all_sizes], ascending), with
    three or more of them the footnote size is the first (smallest) mean,
    the header size the last (largest) mean and the body size the mean at
    the rank [n / 2], strictly between the two ends; with two, the footnote
    size is the smaller mean and body and header are the larger; with one,
    the three sizes are its mean.  In every case no mean is below the
    footnote size or above the header size. *)
Theorem tier_assignment (words : list word) (info : font_info) :
  analyze_font_sizes words = Some info ->
  let sorted_sizes := all_sizes info in
  let n := List.length sorted_sizes in
  sorted_sizes = sorted_by (@snd Q Q) (avg_sizes info)
  /\ Permutation (avg_sizes info) sorted_sizes
  /\ StronglySorted (fun a b => snd a <= snd b) sorted_sizes
  /\ (1 <= n)%nat
  /\ (forall kv, In kv sorted_sizes ->
        footnote_size info <= snd kv /\ snd kv <= header_size info)
  /\ ((3 <= n)%nat ->
        footnote_size info = snd_at sorted_sizes 0
        /\ header_size info = snd_at sorted_sizes (n - 1)
        /\ body_size info = snd_at sorted_sizes (n / 2)
        /\ (0 < n / 2 < n - 1)%nat)
  /\ (n = 2%nat ->
        footnote_size info = snd_at sorted_sizes 0
        /\ body_size info = snd_at sorted_sizes 1
        /\ header_size info = snd_at sorted_sizes 1)
  /\ (n = 1%nat ->
        footnote_size info = snd_at sorted_sizes 0
        /\ body_size info = snd_at sorted_sizes 0
        /\ header_size info = snd_at sorted_sizes 0).
Proof.
  intros Hinfo. cbv zeta.
  destruct (analyze_font_sizes_fields _ Hinfo) as (Hne & Havg & _ & Hall & Htiers).
  cbv zeta in Havg.
  assert (Hperm : Permutation (avg_sizes info) (all_sizes info))
    by (rewrite Hall; apply sorted_by_perm).
  assert (Hsorted : StronglySorted (fun a b => snd a <= snd b) (all_sizes info))
    by (rewrite Hall; apply sorted_by_sorted).
  assert (Hn : (1 <= List.length (all_sizes info))%nat).
  { rewrite <- (Permutation_length Hperm), Havg, length_map.
    pose proof (sort_sizes_sorted (font_sizes_of words)) as Hs.
    rewrite (group_sizes_anchor Hs).
    destruct (anchor_clusters_spec (sort_with Qle_bool (font_sizes_of words)))
      as (_ & _ & Hnn).
    assert (Hsne : sort_with Qle_bool (font_sizes_of words) <> []).
    { intros E. apply Hne. apply Permutation_nil.
      rewrite <- E. symmetry. apply sort_with_perm. }
    specialize (Hnn Hsne).
    destruct (anchor_clusters _); [contradiction|simpl; lia]. }
  set (l := all_sizes info) in *. set (n := List.length l) in *.
  assert (Hfirst_last :
    footnote_size info = snd_at l 0 /\ header_size info = snd_at l (n - 1)).
  { unfold tiers_of in Htiers. fold n in Htiers.
    destruct (3 <=? n)%nat eqn:E3; [now injection Htiers|].
    apply Nat.leb_gt in E3.
    destruct (n =? 2)%nat eqn:E2.
    - apply Nat.eqb_eq in E2. injection Htiers as -> -> _. now rewrite E2.
    - apply Nat.eqb_neq in E2. injection Htiers as -> -> _.
      now replace (n - 1)%nat with 0%nat by lia. }
  destruct Hfirst_last as [Hfoot Hhead].
  assert (Hcase : forall k, n = k ->
            (footnote_size info, header_size info, body_size info)
            = (if (3 <=? k)%nat then
                 (snd_at l 0, snd_at l (k - 1), snd_at l (k / 2))
               else if (k =? 2)%nat then (snd_at l 0, snd_at l 1, snd_at l 1)
               else (snd_at l 0, snd_at l 0, snd_at l 0))).
  { intros k <-. exact Htiers. }
  repeat split; auto.
  - destruct (in_snd_at _ _ H) as (i & Hi & ->). rewrite Hfoot.
    apply sorted_snd_at_le; [exact Hsorted|lia|exact Hi].
  - destruct (in_snd_at _ _ H) as (i & Hi & ->). rewrite Hhead.
    apply sorted_snd_at_le; [exact Hsorted|fold n; lia|fold n; lia].
  - specialize (Hcase n eq_refl). apply Nat.leb_le in H. rewrite H in Hcase.
    now injection Hcase.
  - apply Nat.div_str_pos. lia.
  - apply Nat.Div0.div_lt_upper_bound; lia.
  - specialize (Hcase 2%nat H). now injection Hcase.
  - specialize (Hcase 2%nat H). now injection Hcase.
  - specialize (Hcase 1%nat H). now injection Hcase.
  - specialize (Hcase 1%nat H). now injection Hcase.
Qed.

Lemma tier_assignment_witness :
  exists info,
    analyze_font_sizes tier_words = Some info
    /\ (forall kv, In kv (all_sizes info) ->
          footnote_size info <= snd kv /\ snd kv <= header_size info).
Proof.
  assert (E : exists info, analyze_font_sizes tier_words = Some info)
    by (vm_compute; eexists; reflexivity).
  destruct E as [info E]. exists info. split; [exact E|].
  exact (proj1 (proj2 (proj2 (proj2 (proj2 (tier_assignment _ E)))))).
Defined.

(** ** extract_titles: one title per rounded height *)

Lemma dict_get_append (k k' : Z) (w : word) (d : list (Z * list word)) :
  dict_get k (dict_append k' w d)
  = if (k' =? k)%Z then dict_get k d ++ [w] else dict_get k d.
Proof.
  induction d as [|[k0 ws] r IH]; cbn [dict_append dict_get].
  - destruct (k' =? k)%Z; reflexivity.
  - destruct (k0 =? k')%Z eqn:E0; cbn [dict_get].
    + apply Z.eqb_eq in E0. subst k0.
      destruct (k' =? k)%Z; reflexivity.
    + rewrite IH. destruct (k0 =? k)%Z eqn:E1; [|reflexivity].
      apply Z.eqb_eq in E1. subst k0. rewrite Z.eqb_sym in E0.
      rewrite E0. reflexivity.
Qed.

Lemma dict_keys_append (k : Z) (w : word) (d : list (Z * list word)) :
  NoDup (map fst d) ->
  NoDup (map fst (dict_append k w d))
  /\ forall x, In x (map fst (dict_append k w d)) <-> In x (map fst d) \/ x = k.
Proof.
  induction d as [|[k0 ws] r IH]; cbn [dict_append map fst]; intros Hnd.
  - split; [repeat constructor; intros []|]. intros x. simpl. intuition.
  - inversion Hnd as [|? ? Hnot Hnd']; subst.
    destruct (k0 =? k)%Z eqn:E0; cbn [map fst].
    + apply Z.eqb_eq in E0. subst k0. split; [exact Hnd|].
      intros x. simpl. intuition.
    + apply Z.eqb_neq in E0. destruct (IH Hnd') as [IH1 IH2]. split.
      * constructor; [|exact IH1]. rewrite IH2. intros [H| ->]; auto.
      * intros x. simpl. rewrite IH2. intuition.
Qed.

Lemma title_groups_fold (ws : list word) :
  forall d : list (Z * list word),
    NoDup (map fst d) ->
    let d' := fold_left (fun d w => dict_append (y_key w) w d) ws d in
    NoDup (map fst d')
    /\ (forall x, In x (map fst d')
                  <-> In x (map fst d) \/ exists w, In w ws /\ y_key w = x)
    /\ (forall k, dict_get k d'
                  = dict_get k d ++ filter (fun w => (y_key w =? k)%Z) ws).
Proof.
  induction ws as [|w r IH]; intros d Hnd; cbn [fold_left].
  - repeat split; auto.
    + intros [H|(w & [] & _)]; exact H.
    + intros k. cbn [filter]. now rewrite app_nil_r.
  - destruct (dict_keys_append (y_key w) w d Hnd) as [Hnd1 Hk1].
    destruct (IH _ Hnd1) as (Hnd2 & Hk2 & Hg2). cbv zeta in *.
    repeat split; auto.
    + intros Hx. apply Hk2 in Hx. destruct Hx as [Hx|(w' & Hw' & E)].
      * apply Hk1 in Hx. destruct Hx as [Hx| ->]; auto.
        right. exists w. split; [now left|reflexivity].
      * right. exists w'. split; [now right|exact E].
    + intros [Hx|(w' & [<-|Hw'] & E)]; apply Hk2.
      * left. apply Hk1. now left.
      * left. apply Hk1. now right.
      * right. now exists w'.
    + intros k. rewrite Hg2, dict_get_append. cbn [filter].
      destruct (y_key w =? k)%Z; [now rewrite <- app_assoc|reflexivity].
Qed.

Lemma Zleb_total (a b : Z) : (a <=? b)%Z = true \/ (b <=? a)%Z = true.
Proof. rewrite !Z.leb_le. lia. Qed.

Lemma singleton_of_nodup (l : list Z) (y : Z) :
  NoDup l -> l <> [] -> (forall x, In x l -> x = y) -> l = [y].
Proof.
  intros Hnd Hne Hall. destruct l as [|a [|b r]]; [contradiction| |].
  - now rewrite (Hall a (or_introl eq_refl)).
  - exfalso. inversion Hnd as [|? ? Hnot _]; subst. apply Hnot.
    rewrite (Hall a), (Hall b); simpl; auto.
Qed.

(** C8, as amended: the title words (a size above 7, a top below 200) make
    one title per value of their top rounded to the nearest integer, in
    ascending order of that value, each the words of the group joined by
    spaces in ascending x-order and stripped, and left out when that is
    empty.  So when the title words all round to the same integer there is a
    single title, all of them joined in ascending x-order. *)
Theorem titles_by_rounded_height (words : list word) :
  let title_words := filter is_title_word words in
  (exists ys : list Z,
     NoDup ys
     /\ Sorted (fun a b => (a <=? b)%Z = true) ys
     /\ (forall y, In y ys <-> exists w, In w title_words /\ y_key w = y)
     /\ extract_titles words
        = flat_map (fun y => title_of_group
                               (filter (fun w => (y_key w =? y)%Z) title_words))
                   ys)
  /\ (forall y : Z,
        title_words <> [] ->
        (forall w, In w title_words -> y_key w = y) ->
        extract_titles words = title_of_group title_words
        /\ StronglySorted (fun a b => x0 a <= x0 b) (sorted_by x0 title_words)
        /\ Permutation title_words (sorted_by x0 title_words)
        /\ (nonempty (strip (line_text (sorted_by x0 title_words))) = true ->
            extract_titles words
            = [strip (line_text (sorted_by x0 title_words))])).
Proof.
  cbv zeta. remember (filter is_title_word words) as tw eqn:Etw.
  destruct (@title_groups_fold tw [] (NoDup_nil Z)) as (Hnd & Hkeys & Hget).
  cbv zeta in *. change (fold_left _ tw []) with (title_groups_of tw) in *.
  set (ys := sort_with Z.leb (map fst (title_groups_of tw))).
  assert (Hperm : Permutation (map fst (title_groups_of tw)) ys)
    by apply sort_with_perm.
  assert (Hys : NoDup ys) by (eapply Permutation_NoDup; eauto).
  assert (Hin : forall y, In y ys <-> exists w, In w tw /\ y_key w = y).
  { intros y. split.
    - intros Hy. apply (Permutation_in y (Permutation_sym Hperm)) in Hy.
      apply Hkeys in Hy. destruct Hy as [[]|H]. exact H.
    - intros H. apply (Permutation_in y Hperm). apply Hkeys. now right. }
  assert (Hext : extract_titles words
            = flat_map (fun y => title_of_group
                                   (filter (fun w => (y_key w =? y)%Z) tw)) ys).
  { unfold extract_titles. rewrite <- Etw. subst ys. clear Etw.
    destruct tw as [|w0 r0]; [reflexivity|].
    apply flat_map_ext. intros y. now rewrite Hget. }
  split.
  - exists ys. repeat split; auto.
    + apply sort_with_sorted. apply Zleb_total.
    + apply Hin.
    + apply Hin.
  - intros y Hne Hall.
    assert (Hone : ys = [y]).
    { apply singleton_of_nodup; auto.
      - destruct tw as [|w0 r0]; [contradiction|]. intros E.
        assert (Hw : In (y_key w0) ys)
          by (apply Hin; exists w0; split; [now left|reflexivity]).
        rewrite E in Hw. destruct Hw.
      - intros x Hx. apply Hin in Hx. destruct Hx as (w & Hw & <-). auto. }
    assert (Hall' : filter (fun w => (y_key w =? y)%Z) tw = tw).
    { clear -Hall. induction tw as [|w r IH]; [reflexivity|]. cbn [filter].
      rewrite (proj2 (Z.eqb_eq _ _) (Hall w (or_introl eq_refl))).
      rewrite IH; [reflexivity|]. intros w' Hw'. apply Hall. now right. }
    assert (Hsingle : extract_titles words = title_of_group tw).
    { rewrite Hext, Hone. cbn [flat_map]. now rewrite Hall', app_nil_r. }
    repeat split.
    + exact Hsingle.
    + apply sorted_by_sorted.
    + apply sorted_by_perm.
    + intros Hnon. rewrite Hsingle. unfold title_of_group. now rewrite Hnon.
Qed.

Lemma titles_by_rounded_height_witness :
  extract_titles one_title = ["DEFINING ARAB NATIONALISM"%string].
Proof.
  apply (proj2 (titles_by_rounded_height one_title) 100%Z).
  - discriminate.
  - intros w [<-|[<-|[<-|[]]]]; reflexivity.
  - reflexivity.
Defined.

(** C8 as stated fails: two title words 0.2 apart in height whose tops
    round to different integers become two titles. *)
Lemma titles_by_rounded_height_counterexample :
  filter is_title_word split_title = split_title
  /\ (forall a b, In a split_title -> In b split_title ->
                  Qabs (top a - top b) <= 1)
  /\ extract_titles split_title = ["ARAB"%string; "NATIONALISM"%string]
  /\ List.length (extract_titles split_title) <> 1%nat.
Proof.
  repeat split; try reflexivity.
  - intros a b [<-|[<-|[]]] [<-|[<-|[]]]; vm_compute; discriminate.
  - vm_compute. discriminate.
Qed.

(** ** extract_body_paragraphs_with_footnote_refs: the small tokens *)

(** A word of the body band is never a footnote reference: its size is at
    least 10, and a reference has a size of at most 6. *)
Lemma body_band_not_footnote_ref (w : word) :
  in_body_band w = true -> is_footnote_ref w = false.
Proof.
  unfold in_body_band, is_footnote_ref.
  rewrite !andb_true_iff. intros [[[[_ H10] _] _] _].
  apply Qle_bool_iff in H10.
  destruct (Qle_bool (size_of w) 6) eqn:E; [|reflexivity].
  apply Qle_bool_iff in E. exfalso. lra.
Qed.

Lemma small_token_not_in_body_band (w : word) :
  Qle_bool (size_of w) 6 = true -> in_body_band w = false.
Proof.
  intros H. apply Qle_bool_iff in H. unfold in_body_band.
  destruct (Qle_bool 10 (size_of w)) eqn:E.
  - apply Qle_bool_iff in E. exfalso. lra.
  - now rewrite andb_false_r.
Qed.

Lemma collect_body_words_filter (words body_words : list word) :
  collect_body_words words body_words
  = Returns (body_words ++ filter in_body_band words).
Proof.
  revert body_words. induction words as [|w r IH]; intros acc; cbn [collect_body_words filter].
  - now rewrite app_nil_r.
  - destruct (in_body_band w) eqn:E.
    + rewrite (body_band_not_footnote_ref _ E), IH, <- app_assoc. reflexivity.
    + apply IH.
Qed.

(** C5 fails on the code: the test for a small numeric token sits inside
    the test that the size is between 10 and 11, so it is never reached; a
    token of size at most 6 is not a body word, the paragraphs are those of
    the page without it, and no bracketed marker is produced. *)
Theorem superscript_reference_dropped :
  (forall words,
     extract_body_paragraphs_with_footnote_refs words
     = Returns (paragraphs_of_lines
                  (group_words_to_lines (filter in_body_band words) 2)))
  /\ (forall pre w post,
        Qle_bool (size_of w) 6 = true ->
        extract_body_paragraphs_with_footnote_refs (pre ++ w :: post)
        = extract_body_paragraphs_with_footnote_refs (pre ++ post))
  /\ extract_body_paragraphs_with_footnote_refs marked_line
     = Returns ["Nasser said"%string].
Proof.
  assert (H : forall words,
     extract_body_paragraphs_with_footnote_refs words
     = Returns (paragraphs_of_lines
                  (group_words_to_lines (filter in_body_band words) 2))).
  { intros words. unfold extract_body_paragraphs_with_footnote_refs.
    now rewrite collect_body_words_filter. }
  repeat split.
  - exact H.
  - intros pre w post Hw. rewrite !H, !filter_app. cbn [filter].
    now rewrite (small_token_not_in_body_band _ Hw).
Qed.

Lemma superscript_reference_dropped_witness :
  extract_body_paragraphs_with_footnote_refs marked_line
  = extract_body_paragraphs_with_footnote_refs
      [mk_word "Nasser" 80 100 111 (Some 10.5) "Times";
       mk_word "said" 118 100 111 (Some 10.5) "Times"].
Proof.
  apply (proj1 (proj2 superscript_reference_dropped)
           [mk_word "Nasser" 80 100 111 (Some 10.5) "Times"]
           (mk_word "7" 112 98 104 (Some 5.5) "Times")
           [mk_word "said" 118 100 111 (Some 10.5) "Times"]).
  reflexivity.
Defined.

(** ** extract_footnotes_improved: the assembly *)

Lemma footnote_step_open (footnotes : list open_footnote)
    (cur : option open_footnote) (line : list word) :
  line <> [] ->
  starts_with_number (cleaned_text line) = true ->
  footnote_step (footnotes, cur) line
  = (with_open footnotes cur, Some (opened_by line)).
Proof.
  intros Hne Hnum. destruct line as [|first_word r]; [contradiction|].
  unfold footnote_step, opened_by, with_open, line_y.
  fold (cleaned_text (first_word :: r)). rewrite Hnum.
  destruct (number_and_rest (cleaned_text (first_word :: r))) as [num rest].
  reflexivity.
Qed.

Lemma footnote_step_continue (footnotes : list open_footnote)
    (cur : open_footnote) (line : list word) :
  line <> [] ->
  starts_with_number (cleaned_text line) = false ->
  footnote_step (footnotes, Some cur) line
  = if within_30 (start_y cur) line
    then (footnotes,
          Some (mk_open_footnote (of_original_id cur)
                  (content cur ++ [cleaned_text line]) (start_y cur)))
    else (footnotes, Some cur).
Proof.
  intros Hne Hnum. destruct line as [|first_word r]; [contradiction|].
  unfold footnote_step, within_30, line_y.
  fold (cleaned_text (first_word :: r)). rewrite Hnum.
  cbn [negb]. now rewrite andb_true_r.
Qed.

(** A line with no number and no footnote open leaves the state as it
    is. *)
Lemma footnote_step_orphan (footnotes : list open_footnote) (line : list word) :
  starts_with_number (cleaned_text line) = false ->
  footnote_step (footnotes, None) line = (footnotes, None).
Proof.
  intros Hnum. destruct line as [|first_word r]; [reflexivity|].
  unfold footnote_step. fold (cleaned_text (first_word :: r)).
  now rewrite Hnum.
Qed.

Lemma finish_step_plain (result : list footnote_out) (fn : open_footnote) :
  of_original_id fn <> "233"%string -> of_original_id fn <> "241"%string ->
  finish_step result fn = result ++ [closed fn].
Proof.
  intros H1 H2. unfold finish_step.
  apply String.eqb_neq in H1. apply String.eqb_neq in H2.
  now rewrite H1, H2.
Qed.

(** *** The loop, against the blocks of the specification *)

Lemma continued_nil (cur : open_footnote) : continued cur [] = cur.
Proof.
  destruct cur as [i c y]. unfold continued. cbn. now rewrite app_nil_r.
Qed.

Lemma continued_cons (cur : open_footnote) (line : list word)
    (following : list (list word)) :
  continued cur (line :: following)
  = continued (if within_30 (start_y cur) line
               then mk_open_footnote (of_original_id cur)
                      (content cur ++ [cleaned_text line]) (start_y cur)
               else cur)
              following.
Proof.
  unfold continued. cbn [filter].
  destruct (within_30 (start_y cur) line); [|reflexivity].
  cbn [map of_original_id content start_y]. now rewrite <- app_assoc.
Qed.

Lemma footnote_fold_blocks (lines : list (list word)) :
  Forall (fun l => l <> []) lines ->
  forall (fs : list open_footnote) (cur : option open_footnote),
    with_open (fst (fold_left footnote_step lines (fs, cur)))
              (snd (fold_left footnote_step lines (fs, cur)))
    = fs ++ open_with cur lines
         ++ map footnote_of_block (footnote_blocks lines).
Proof.
  induction 1 as [|line r Hline Hr IH]; intros fs cur.
  - cbn [fold_left fst snd footnote_blocks map]. rewrite app_nil_r.
    destruct cur as [c|]; cbn [with_open open_with unnumbered_run].
    + now rewrite continued_nil.
    + now rewrite app_nil_r.
  - assert (Hrun : unnumbered_run (line :: r)
                   = if starts_with_number (cleaned_text line) then []
                     else line :: unnumbered_run r) by reflexivity.
    assert (Hblocks : footnote_blocks (line :: r)
                      = if starts_with_number (cleaned_text line)
                        then (line, unnumbered_run r) :: footnote_blocks r
                        else footnote_blocks r) by reflexivity.
    cbn [fold_left]. rewrite Hblocks.
    destruct (starts_with_number (cleaned_text line)) eqn:E.
    + rewrite (footnote_step_open fs cur Hline E), IH.
      cbn [open_with map]. unfold footnote_of_block at 2. cbn [fst snd].
      destruct cur as [c|]; cbn [with_open open_with].
      * rewrite Hrun, continued_nil, <- !app_assoc. reflexivity.
      * reflexivity.
    + destruct cur as [c|].
      * rewrite (footnote_step_continue fs c Hline E).
        cbn [open_with]. rewrite Hrun, continued_cons.
        destruct (within_30 (start_y c) line); now rewrite IH.
      * rewrite (footnote_step_orphan fs line E). now rewrite IH.
Qed.

Lemma footnote_fold_seen (lines : list (list word)) (st : footnote_state) :
  fold_left footnote_step lines st
  = fold_left footnote_step (seen_lines lines) st.
Proof.
  revert st. induction lines as [|line r IH]; intros st; [reflexivity|].
  destruct line as [|w ws].
  - cbn [fold_left seen_lines filter]. fold (seen_lines r).
    destruct st as [fs cur]. cbn [footnote_step]. apply IH.
  - cbn [fold_left seen_lines filter]. fold (seen_lines r).
    cbn [fold_left]. apply IH.
Qed.

Lemma seen_lines_nonempty (lines : list (list word)) :
  Forall (fun l => l <> []) (seen_lines lines).
Proof.
  unfold seen_lines. apply Forall_forall. intros l Hl.
  apply filter_In in Hl. destruct Hl as [_ Hl]. now destruct l.
Qed.

Lemma seen_lines_same (lines : list (list word)) :
  Forall (fun l => l <> []) lines -> seen_lines lines = lines.
Proof.
  induction 1 as [|l r Hl Hr IH]; [reflexivity|].
  unfold seen_lines. cbn [filter]. fold (seen_lines r). rewrite IH.
  now destruct l.
Qed.

Lemma assemble_footnotes_with_open (lines : list (list word)) :
  assemble_footnotes lines
  = with_open (fst (fold_left footnote_step lines ([], None)))
              (snd (fold_left footnote_step lines ([], None))).
Proof.
  unfold assemble_footnotes.
  now destruct (fold_left footnote_step lines ([], None)) as [fs [c|]].
Qed.

(** The first loop gives the footnotes of the blocks, one a numbered
    line. *)
Lemma assemble_footnotes_blocks (lines : list (list word)) :
  assemble_footnotes lines
  = map footnote_of_block (footnote_blocks (seen_lines lines)).
Proof.
  rewrite assemble_footnotes_with_open, footnote_fold_seen.
  now rewrite (footnote_fold_blocks (seen_lines_nonempty lines)).
Qed.

(** *** The test on the distance *)

Lemma within_30_exact (start : Q) (line : list word) :
  within_30 start line = true -> Qabs (line_y line - start) < 30.
Proof.
  unfold within_30. rewrite Qlt_bool_iff. intros H.
  apply round64_abs_lt; [exact is_float_30|exact H].
Qed.

Lemma within_30_float_difference (start : Q) (line : list word) :
  is_float (line_y line - start) ->
  (within_30 start line = true <-> Qabs (line_y line - start) < 30).
Proof.
  intros Hd. split; [apply within_30_exact|].
  unfold within_30, fsub. rewrite Qlt_bool_iff. intros H.
  unfold is_float in Hd. now rewrite Hd.
Qed.

(** Floats from 256 on are multiples of [2 ** -44], and so is their
    difference: below 512 in magnitude it is a float. *)
Lemma within_30_low_on_the_page (start : Q) (line : list word) :
  is_float start -> is_float (line_y line) ->
  256 <= start -> 256 <= line_y line ->
  (within_30 start line = true <-> Qabs (line_y line - start) < 30).
Proof.
  intros Hs Hl Hs256 Hl256. split; [apply within_30_exact|].
  intros H. apply within_30_float_difference; [|exact H].
  apply (@fsub_exact (line_y line) start 8 Hl Hs).
  - exact Hl256.
  - exact Hs256.
  - discriminate.
  - eapply Qlt_trans; [exact H|]. reflexivity.
Qed.

(** *** The second loop *)

Lemma last_id_snoc (result : list footnote_out) (x : footnote_out) :
  last (map (fun r => Some (original_id r)) (result ++ [x])) None
  = Some (original_id x).
Proof.
  rewrite map_app. cbn [map]. apply last_last.
Qed.

Lemma append_to_last_snoc (extra : string) (result : list footnote_out)
    (x : footnote_out) :
  append_to_last extra (result ++ [x])
  = result ++ [mk_footnote_out (original_id x)
                 (source_text x ++ " " ++ extra)%string].
Proof.
  induction result as [|r rest IH]; [reflexivity|].
  cbn [app]. destruct (rest ++ [x]) as [|r' rest'] eqn:E;
    [now destruct rest|].
  change (append_to_last extra (r :: r' :: rest'))
    with (r :: append_to_last extra (r' :: rest')).
  now rewrite IH.
Qed.

Lemma finish_step_not_folded (result : list footnote_out) (fn : open_footnote) :
  folded_id fn = false -> finish_step result fn = result ++ [closed fn].
Proof.
  intros H. unfold finish_step. unfold folded_id in H. now rewrite H.
Qed.

Lemma finish_step_first (fn : open_footnote) : finish_step [] fn = [closed fn].
Proof.
  unfold finish_step. cbn [map last]. now rewrite andb_false_r.
Qed.

Lemma finish_step_not_after_9 (result : list footnote_out) (x : footnote_out)
    (fn : open_footnote) :
  original_id x <> "9"%string ->
  finish_step (result ++ [x]) fn = (result ++ [x]) ++ [closed fn].
Proof.
  intros H. unfold finish_step. rewrite last_id_snoc.
  apply String.eqb_neq in H. now rewrite H, andb_false_r.
Qed.

Lemma finish_step_folded (result : list footnote_out) (x : footnote_out)
    (fn : open_footnote) :
  folded_id fn = true -> original_id x = "9"%string ->
  finish_step (result ++ [x]) fn
  = result ++ [mk_footnote_out "9"
                 (source_text x ++ " " ++ join " " (content fn))%string].
Proof.
  intros Hf Hx. unfold finish_step. rewrite last_id_snoc.
  unfold folded_id in Hf. rewrite Hf, Hx. cbn [andb String.eqb].
  rewrite append_to_last_snoc, Hx. reflexivity.
Qed.

Lemma finish_fold_not_folded (fns : list open_footnote) :
  Forall (fun fn => folded_id fn = false) fns ->
  forall result,
    fold_left finish_step fns result = result ++ map closed fns.
Proof.
  induction 1 as [|fn r Hfn Hr IH]; intros result; cbn [fold_left map].
  - now rewrite app_nil_r.
  - rewrite (@finish_step_not_folded result fn Hfn), IH, <- app_assoc.
    reflexivity.
Qed.

Lemma footnote_lines_nonempty (words : list word) :
  Forall (fun l => l <> []) (footnote_lines_of words).
Proof.
  unfold footnote_lines_of.
  apply (group_words_to_lines_spec
           (sorted_by top (filter in_footnote_band words)) 2).
Qed.

(** C9: the first loop turns every list of lines into the footnotes of its
    blocks.  A block is a line that begins with digits together with the
    lines that follow it up to the next such line; its footnote has the
    digits as [original_id], the stripped remainder of the line as its
    first content line (none when the remainder is empty), the height of
    the line as [start_y], and after that the texts of the following lines
    that are within 30 units of the opening line, in order; the lines before
    the first numbered line and the lines that are not within 30 units are
    dropped, and so are the empty lines.  A footnote is emitted before the
    next one is opened, so the footnotes come out in the order of their
    opening lines.  Within 30 units means [abs(line_y - start_y) < 30] on
    the float difference: it implies that the exact distance is below 30,
    and it is the same as that when the difference is a float, as it is for
    floats from 256 on (the footnote band begins at 450).  The text of a
    closed footnote is its content lines joined by single spaces, an entry
    of its own in the result unless the footnote is 233 or 241 and follows
    a 9, in which case the text goes to the end of that entry.  So a line
    reading [9 Foo bar baz] and a line reading [qux.] 12 units below give
    one footnote, 9, with the text [Foo bar baz qux.]. *)
Theorem footnote_assembly :
  (forall lines,
     assemble_footnotes lines
     = map footnote_of_block (footnote_blocks (seen_lines lines)))
  /\ (forall opening following,
        let fn := footnote_of_block (opening, following) in
        of_original_id fn = fst (span is_decimal (cleaned_text opening))
        /\ start_y fn = line_y opening
        /\ content fn
           = content (opened_by opening)
             ++ map cleaned_text
                  (filter (within_30 (line_y opening)) following)
        /\ join " " (content (opened_by opening))
           = strip (snd (number_and_rest (cleaned_text opening)))
        /\ (List.length (content (opened_by opening)) <= 1)%nat)
  /\ (forall start line,
        (within_30 start line = true -> Qabs (line_y line - start) < 30)
        /\ (is_float (line_y line - start) ->
            (within_30 start line = true
             <-> Qabs (line_y line - start) < 30))
        /\ (is_float start -> is_float (line_y line) ->
            256 <= start -> 256 <= line_y line ->
            (within_30 start line = true
             <-> Qabs (line_y line - start) < 30)))
  /\ (forall result x fn,
        (folded_id fn = false -> finish_step result fn = result ++ [closed fn])
        /\ finish_step [] fn = [closed fn]
        /\ (original_id x <> "9"%string ->
            finish_step (result ++ [x]) fn = (result ++ [x]) ++ [closed fn])
        /\ (folded_id fn = true -> original_id x = "9"%string ->
            finish_step (result ++ [x]) fn
            = result
              ++ [mk_footnote_out "9"
                    (source_text x ++ " " ++ join " " (content fn))%string]))
  /\ (forall words,
        let blocks := footnote_blocks (footnote_lines_of words) in
        Forall (fun b => folded_id (footnote_of_block b) = false) blocks ->
        extract_footnotes_improved words
        = map (fun b => closed (footnote_of_block b)) blocks)
  /\ (forall line1 line2,
        line1 <> [] -> line2 <> [] ->
        cleaned_text line1 = "9 Foo bar baz"%string ->
        cleaned_text line2 = "qux."%string ->
        line_y line2 - line_y line1 == 12 ->
        fold_left finish_step (assemble_footnotes [line1; line2]) []
        = [mk_footnote_out "9" "Foo bar baz qux."])
  /\ extract_footnotes_improved footnote_nine
     = [mk_footnote_out "9" "Foo bar baz qux."].
Proof.
  split; [exact assemble_footnotes_blocks|].
  split; [|split; [|split; [|split; [|split]]]].
  - intros opening following. cbv zeta.
    unfold footnote_of_block, continued. cbn [fst snd].
    cbn [of_original_id start_y content opened_by].
    repeat split.
    + unfold number_and_rest.
      now destruct (span is_decimal (cleaned_text opening)).
    + now destruct (strip (snd (number_and_rest (cleaned_text opening)))).
    + destruct (nonempty _); cbn; lia.
  - intros start line. split; [apply within_30_exact|].
    split; [apply within_30_float_difference|].
    apply within_30_low_on_the_page.
  - intros result x fn.
    split; [apply finish_step_not_folded|].
    split; [apply finish_step_first|].
    split; [apply finish_step_not_after_9|apply finish_step_folded].
  - intros words blocks Hb. unfold extract_footnotes_improved.
    rewrite assemble_footnotes_blocks.
    rewrite (seen_lines_same (footnote_lines_nonempty words)).
    fold blocks. rewrite finish_fold_not_folded.
    + cbn [app]. now rewrite map_map.
    + apply Forall_forall. intros fn Hfn. apply in_map_iff in Hfn.
      destruct Hfn as (b & <- & Hin). rewrite Forall_forall in Hb.
      now apply Hb.
  - intros line1 line2 Hne1 Hne2 H1 H2 Hd.
    unfold assemble_footnotes. cbn [fold_left].
    rewrite (footnote_step_open [] None Hne1) by (rewrite H1; reflexivity).
    rewrite (footnote_step_continue _ (opened_by line1) Hne2)
      by (rewrite H2; reflexivity).
    assert (Hnear : within_30 (start_y (opened_by line1)) line2 = true).
    { apply within_30_float_difference; cbn [start_y opened_by].
      - unfold is_float. rewrite (round64_eq Hd), Hd. reflexivity.
      - rewrite Hd. reflexivity. }
    rewrite Hnear. unfold opened_by. rewrite H1, H2. reflexivity.
  - vm_compute. reflexivity.
Qed.

Lemma footnote_assembly_witness :
  fold_left finish_step (assemble_footnotes [nine_block; nine_wrap]) []
  = [mk_footnote_out "9" "Foo bar baz qux."].
Proof.
  apply (proj1 (proj2 (proj2 (proj2 (proj2 (proj2 footnote_assembly)))))).
  - discriminate.
  - discriminate.
  - reflexivity.
  - reflexivity.
  - reflexivity.
Defined.

Lemma footnote_fold_no_number (lines : list (list word))
    (footnotes : list open_footnote) :
  Forall (fun line => starts_with_number (cleaned_text line) = false) lines ->
  fold_left footnote_step lines (footnotes, None) = (footnotes, None).
Proof.
  induction 1 as [|line r Hline Hr IH]; [reflexivity|].
  cbn [fold_left]. now rewrite (footnote_step_orphan footnotes line Hline).
Qed.

(** When no line begins with a number nothing is extracted. *)
Lemma assemble_footnotes_no_number (lines : list (list word)) :
  Forall (fun line => starts_with_number (cleaned_text line) = false) lines ->
  assemble_footnotes lines = [].
Proof.
  intros H. unfold assemble_footnotes.
  now rewrite (footnote_fold_no_number [] H).
Qed.

(** The footnote-band half of C4 fails: a line of the footnote band with no
    leading number, met while no footnote is open, is left out of the
    result. *)
Lemma orphan_footnote_line_counterexample :
  filter in_footnote_band nine_wrap = nine_wrap
  /\ starts_with_number (cleaned_text nine_wrap) = false
  /\ footnote_lines_of nine_wrap = [nine_wrap]
  /\ extract_footnotes_improved nine_wrap = [].
Proof.
  repeat split.
Qed.

(** ** clean_hyphenated_text: one break, no break, never longer *)

Lemma all_chars_app (p : ascii -> bool) (a b : string) :
  all_chars p (a ++ b)%string = all_chars p a && all_chars p b.
Proof.
  induction a as [|c a IH]; [reflexivity|].
  cbn [append all_chars]. now rewrite IH, andb_assoc.
Qed.

(** A word, a hyphen, spaces and a word are joined into one word, and the
    text after them is cleaned in turn. *)
Theorem clean_hyphenated_text_joins (w1 sp w2 rest : string) :
  nonempty w1 = true -> nonempty sp = true -> nonempty w2 = true ->
  all_chars is_word w1 = true -> all_chars isspace sp = true ->
  all_chars is_word w2 = true -> starts_with is_word rest = false ->
  clean_hyphenated_text (w1 ++ "-" ++ sp ++ w2 ++ rest)%string
  = (w1 ++ w2 ++ clean_hyphenated_text rest)%string.
Proof.
  intros N1 Ns N2 A1 As A2 Hrest.
  rewrite clean_hyphenated_text_eq.
  rewrite (@match_hyphen_complete w1 sp w2 rest N1 Ns N2 A1 As A2).
  rewrite (span_stopped _ _ Hrest). cbn [fst snd].
  rewrite append_nil_r.
  destruct w1 as [|c w1]; [discriminate|]. reflexivity.
Qed.

Lemma clean_hyphenated_text_joins_witness :
  clean_hyphenated_text "nation- alism, he said"
  = "nationalism, he said"%string.
Proof.
  exact (@clean_hyphenated_text_joins "nation" " " "alism" ", he said"
           eq_refl eq_refl eq_refl eq_refl eq_refl eq_refl eq_refl).
Defined.

Lemma match_hyphen_has_hyphen (s w1 w2 rest : string) :
  match_hyphen s = Some (w1, w2, rest) -> no_hyphen s = false.
Proof.
  intros H. destruct (@match_hyphen_sound _ _ _ _ H) as (sp & -> & _).
  unfold no_hyphen. rewrite all_chars_app.
  cbn [append all_chars Ascii.eqb Bool.eqb negb andb].
  apply andb_false_r.
Qed.

(** A text without a hyphen is returned as it is. *)
Theorem clean_hyphenated_text_no_hyphen (s : string) :
  no_hyphen s = true -> clean_hyphenated_text s = s.
Proof.
  induction s as [|c t IH]; intros H; [reflexivity|].
  rewrite clean_hyphenated_text_eq.
  destruct (match_hyphen (String c t)) as [[[w1 w2] rest]|] eqn:E.
  - apply match_hyphen_has_hyphen in E. congruence.
  - f_equal. apply IH. unfold no_hyphen in *. cbn [all_chars] in H.
    now apply andb_true_iff in H.
Qed.

Lemma clean_hyphenated_text_no_hyphen_witness :
  clean_hyphenated_text "Nasser said  so." = "Nasser said  so."%string.
Proof. exact (@clean_hyphenated_text_no_hyphen "Nasser said  so." eq_refl). Defined.

(** The result is never longer than the text, and a replacement makes it
    shorter by at least two characters. *)
Theorem clean_hyphenated_text_length (s : string) :
  (String.length (clean_hyphenated_text s) <= String.length s)%nat
  /\ (forall w1 w2 rest,
        match_hyphen s = Some (w1, w2, rest) ->
        String.length (clean_hyphenated_text s) + 2 <= String.length s)%nat.
Proof.
  assert (Hlen : forall n s, (String.length s <= n)%nat ->
            (String.length (clean_hyphenated_text s) <= String.length s)%nat).
  { induction n as [|n IH]; intros s0 Hn.
    - destruct s0; [apply le_n|simpl in Hn; lia].
    - rewrite clean_hyphenated_text_eq. destruct s0 as [|c t]; [apply le_n|].
      destruct (match_hyphen (String c t)) as [[[w1 w2] rest]|] eqn:E.
      + pose proof (@match_hyphen_shorter _ _ _ _ E) as Hs.
        destruct (@match_hyphen_sound _ _ _ _ E) as (sp & Es & _ & Nsp & _).
        assert (Hr : (String.length (clean_hyphenated_text rest)
                      <= String.length rest)%nat)
          by (apply IH; simpl in Hn; simpl in Hs; lia).
        rewrite Es, !length_append. cbn [String.length]. lia.
      + cbn [String.length]. apply le_n_S, IH. simpl in Hn. lia. }
  split; [now apply (Hlen (String.length s))|].
  intros w1 w2 rest E.
  rewrite clean_hyphenated_text_eq. destruct s as [|c t]; [discriminate|].
  rewrite E.
  destruct (@match_hyphen_sound _ _ _ _ E) as (sp & Es & _ & Nsp & _).
  pose proof (Hlen _ rest (le_n _)) as Hr.
  destruct sp; [discriminate|].
  rewrite Es, !length_append. cbn [String.length]. lia.
Qed.

(** ** extract_footnotes_improved: the sort before the grouping *)

Lemma group_words_to_lines_presorted (l : list word) (t : Q) :
  group_words_to_lines (sorted_by top l) t = group_words_to_lines l t.
Proof.
  destruct l as [|a r]; [reflexivity|].
  unfold group_words_to_lines. rewrite sorted_by_idem.
  destruct (sorted_by top (a :: r)) eqn:E; [|reflexivity].
  pose proof (sorted_by_perm top (a :: r)) as P. rewrite E in P.
  apply Permutation_sym, Permutation_nil in P. discriminate.
Qed.

(** Sorting the footnote words by height before grouping them changes
    nothing: the grouping sorts its words itself, and the sort is stable. *)
Lemma footnote_sort_redundant (words : list word) :
  footnote_lines_of words
  = group_words_to_lines (filter in_footnote_band words) 2.
Proof. unfold footnote_lines_of. apply group_words_to_lines_presorted. Qed.

(** ** analyze_font_sizes: the tables of the result *)

Lemma list_sum_lengths (A : Type) (ls : list (list A)) :
  list_sum (map (@List.length A) ls) = List.length (List.concat ls).
Proof.
  induction ls as [|l r IH]; [reflexivity|].
  cbn [map List.concat]. rewrite length_app, <- IH. reflexivity.
Qed.

Lemma keys_apart_sorted (groups : size_groups_t) :
  keys_apart groups -> StronglySorted Qlt (map fst groups).
Proof.
  intros H. apply Sorted_StronglySorted; [intros a b c; apply Qlt_trans|].
  induction groups as [|kv1 r IH]; [constructor|].
  destruct r as [|kv2 r'].
  - repeat constructor.
  - destruct H as (_ & Hlt & Hr). cbn [map]. constructor.
    + apply IH. exact Hr.
    + constructor. unfold tolerance in Hlt. lra.
Qed.

Lemma bucket_ok_key_in (groups : size_groups_t) :
  Forall bucket_ok groups ->
  Forall (fun k => In k (List.concat (map snd groups))) (map fst groups).
Proof.
  induction 1 as [|[k m] r [Hh _] Hr IH]; [constructor|].
  cbn [map List.concat fst snd] in *. constructor.
  - apply in_or_app. left. destruct m as [|a m']; [discriminate|].
    injection Hh as ->. now left.
  - eapply Forall_impl; [|exact IH]. intros a Ha. apply in_or_app. now right.
Qed.

(** The two tables of the result list the buckets under the same keys, in
    the same order; the keys ascend, each more than [tolerance] above the
    one before, and each is the size of a word; every bucket counts at
    least one word and the counts add up to the number of words that have a
    size. *)
Theorem font_size_tables (words : list word) (info : font_info) :
  analyze_font_sizes words = Some info ->
  map fst (size_frequency info) = map fst (avg_sizes info)
  /\ StronglySorted Qlt (map fst (size_frequency info))
  /\ Sorted (fun a b => a + tolerance < b) (map fst (size_frequency info))
  /\ Forall (fun k => In k (font_sizes_of words))
            (map fst (size_frequency info))
  /\ Forall (fun kn => (1 <= snd kn)%nat) (size_frequency info)
  /\ list_sum (map snd (size_frequency info))
     = List.length (filter has_size words).
Proof.
  intros Hinfo.
  destruct (analyze_font_sizes_fields _ Hinfo) as (_ & Havg & Hfreq & _).
  cbv zeta in *.
  pose proof (sort_sizes_sorted (font_sizes_of words)) as Hs.
  rewrite (group_sizes_anchor Hs) in Havg, Hfreq.
  destruct (anchor_clusters_spec (sort_with Qle_bool (font_sizes_of words)))
    as (Hc & Hf & _).
  pose proof (anchor_clusters_apart Hs) as Hap.
  set (buckets := anchor_clusters (sort_with Qle_bool (font_sizes_of words)))
    in *.
  assert (Hk : map fst (size_frequency info) = map fst buckets)
    by (rewrite Hfreq, map_map; reflexivity).
  assert (Hka : map fst (avg_sizes info) = map fst buckets)
    by (rewrite Havg, map_map; reflexivity).
  split; [now rewrite Hk, Hka|].
  split; [rewrite Hk; now apply keys_apart_sorted|].
  split.
  { rewrite Hk. clear -Hap. induction buckets as [|kv1 r IH]; [constructor|].
    destruct r as [|kv2 r']; [repeat constructor|].
    destruct Hap as (_ & H2 & H3). cbn [map]. constructor.
    - apply IH. exact H3.
    - constructor. exact H2. }
  split.
  { rewrite Hk. pose proof (bucket_ok_key_in Hf) as Hin. rewrite Hc in Hin.
    eapply Forall_impl; [|exact Hin]. intros k Hk'.
    eapply Permutation_in; [|exact Hk'].
    symmetry. apply sort_with_perm. }
  split.
  { rewrite Hfreq. apply Forall_forall. intros kn Hkn.
    apply in_map_iff in Hkn. destruct Hkn as ([k m] & <- & Hin).
    rewrite Forall_forall in Hf. destruct (Hf _ Hin) as [Hh _].
    cbn [fst snd] in *. destruct m; [discriminate|cbn; lia]. }
  rewrite Hfreq, map_map. cbn [snd].
  rewrite <- (map_map (@snd Q (list Q)) (@List.length Q)).
  rewrite list_sum_lengths, Hc.
  rewrite <- (Permutation_length (sort_with_perm Qle_bool (font_sizes_of words))).
  unfold font_sizes_of. apply length_map.
Qed.

Lemma font_size_tables_witness :
  exists info,
    analyze_font_sizes tier_words = Some info
    /\ map fst (size_frequency info) = map fst (avg_sizes info)
    /\ list_sum (map snd (size_frequency info)) = 4%nat.
Proof.
  destruct (analyze_font_sizes tier_words) as [info|] eqn:E;
    [|vm_compute in E; discriminate E].
  exists info. split; [reflexivity|].
  destruct (@font_size_tables tier_words info E) as (H1 & _ & _ & _ & _ & H4).
  split; [exact H1|exact H4].
Defined.

(** ** extract_body_paragraphs_with_footnote_refs: the paragraphs cut the lines *)

Lemma seen_lines_snoc (L : list (list word)) (line : list word) :
  seen_lines (L ++ [line])
  = seen_lines L ++ match line with [] => [] | _ => [line] end.
Proof.
  unfold seen_lines. rewrite filter_app. cbn [filter].
  destruct line; [reflexivity|reflexivity].
Qed.

Lemma para_step_cases (ps : list string) (cur : list para_line) (fp : bool)
    (first_word : word) (rest : list word) :
  let new_line := mk_para_line (cleaned_text (first_word :: rest))
                               (x0 first_word) (top first_word) in
  (exists fp', cur <> []
     /\ para_step (ps, cur, fp) (first_word :: rest)
        = (ps ++ [join " " (map pl_text cur)], [new_line], fp'))
  \/ (exists fp', para_step (ps, cur, fp) (first_word :: rest)
                  = (ps, cur ++ [new_line], fp')).
Proof.
  cbv zeta. unfold para_step, cleaned_text.
  destruct fp.
  - destruct (Qlt_bool 90 (x0 first_word)).
    + destruct cur as [|c0 cur'].
      * right. eexists. reflexivity.
      * left. eexists. split; [discriminate|reflexivity].
    + right. eexists. reflexivity.
  - destruct (Qle_bool (x0 first_word) 90).
    + destruct (starts_AZ (clean_hyphenated_text (line_text (first_word :: rest)))
                && (2 <? split_len (clean_hyphenated_text
                                      (line_text (first_word :: rest))))%nat).
      * destruct cur as [|c0 cur'].
        -- right. eexists. reflexivity.
        -- left. eexists. split; [discriminate|reflexivity].
      * right. eexists. reflexivity.
    + right. eexists. reflexivity.
Qed.

Lemma para_fold_partition (L : list (list word)) :
  let '(ps, cur, _) := fold_left para_step L ([], [], true) in
  exists groups,
    ps = map (join " ") groups
    /\ Forall (fun g => g <> []) groups
    /\ List.concat groups ++ map pl_text cur = map cleaned_text (seen_lines L).
Proof.
  induction L as [|line L IH] using rev_ind.
  - exists []. repeat split. constructor.
  - rewrite fold_left_app. cbn [fold_left].
    destruct (fold_left para_step L ([], [], true)) as [[ps cur] fp].
    destruct IH as (groups & Hps & Hne & Hcat).
    rewrite seen_lines_snoc, map_app.
    destruct line as [|first_word rest].
    + cbn [para_step]. exists groups. cbn [map]. rewrite app_nil_r. auto.
    + destruct (para_step_cases ps cur fp first_word rest)
        as [(fp' & Hcur & ->) | (fp' & ->)].
      * exists (groups ++ [map pl_text cur]). repeat split.
        -- now rewrite map_app, Hps.
        -- apply Forall_app. split; [exact Hne|]. constructor; [|constructor].
           destruct cur; [congruence|discriminate].
        -- rewrite concat_app. cbn [List.concat]. rewrite app_nil_r.
           cbn [map pl_text]. rewrite <- Hcat. now rewrite <- !app_assoc.
      * exists groups. repeat split; auto.
        rewrite map_app. cbn [map pl_text]. rewrite <- Hcat.
        now rewrite app_assoc.
Qed.

Lemma paragraphs_of_lines_partition (L : list (list word)) :
  exists groups,
    paragraphs_of_lines L = map (join " ") groups
    /\ Forall (fun g => g <> []) groups
    /\ List.concat groups = map cleaned_text (seen_lines L).
Proof.
  unfold paragraphs_of_lines. pose proof (para_fold_partition L) as H.
  destruct (fold_left para_step L ([], [], true)) as [[ps cur] fp].
  destruct H as (groups & Hps & Hne & Hcat).
  destruct cur as [|c0 cur'].
  - exists groups. cbn [map] in Hcat. rewrite app_nil_r in Hcat. auto.
  - exists (groups ++ [map pl_text (c0 :: cur')]). repeat split.
    + now rewrite map_app, Hps.
    + apply Forall_app. split; [exact Hne|]. constructor; [|constructor].
      discriminate.
    + rewrite concat_app. cbn [List.concat]. now rewrite app_nil_r.
Qed.

Lemma seen_lines_id (L : list (list word)) :
  Forall (fun l => l <> []) L -> seen_lines L = L.
Proof.
  induction 1 as [|l r Hl Hr IH]; [reflexivity|].
  unfold seen_lines in *. cbn [filter]. destruct l; [congruence|].
  now rewrite IH.
Qed.

(** The function returns for every page, and its paragraphs cut the cleaned
    lines of the body into consecutive groups: no line is lost, doubled or
    moved, and every paragraph holds a line. *)
Theorem body_paragraphs_partition (words : list word) :
  exists groups,
    extract_body_paragraphs_with_footnote_refs words
    = Returns (map (join " ") groups)
    /\ Forall (fun g => g <> []) groups
    /\ List.concat groups
       = map cleaned_text (group_words_to_lines (filter in_body_band words) 2).
Proof.
  unfold extract_body_paragraphs_with_footnote_refs.
  rewrite collect_body_words_filter. cbn [app].
  destruct (paragraphs_of_lines_partition
              (group_words_to_lines (filter in_body_band words) 2))
    as (groups & Hp & Hne & Hcat).
  exists groups. repeat split; [now rewrite Hp|exact Hne|].
  rewrite Hcat. f_equal. apply seen_lines_id.
  apply group_words_to_lines_spec.
Qed.

Lemma para_fold_flush_left (L : list (list word)) :
  Forall flush_left L ->
  fold_left para_step L ([], [], true)
  = ([], map (fun line => mk_para_line (cleaned_text line)
                            (x0 (hd (word_at 0) line))
                            (top (hd (word_at 0) line)))
             (seen_lines L), true).
Proof.
  induction L as [|line L IH] using rev_ind; intros H; [reflexivity|].
  apply Forall_app in H. destruct H as [HL Hline].
  inversion Hline as [|? ? Hl _]; subst.
  rewrite fold_left_app, (IH HL). cbn [fold_left].
  rewrite seen_lines_snoc, map_app.
  destruct line as [|first_word rest].
  - cbn [para_step map]. now rewrite app_nil_r.
  - cbn [para_step map hd]. cbn [flush_left] in Hl.
    apply Qlt_bool_false_iff in Hl. rewrite Hl. reflexivity.
Qed.

(** As long as no line is indented the page is one paragraph: a line at the
    left margin never starts a paragraph before an indented line has been
    seen, whatever it begins with. *)
Theorem flush_left_page_is_one_paragraph (lines : list (list word)) :
  Forall flush_left lines -> seen_lines lines <> [] ->
  paragraphs_of_lines lines
  = [join " " (map cleaned_text (seen_lines lines))].
Proof.
  intros H Hne. unfold paragraphs_of_lines. rewrite (para_fold_flush_left H).
  destruct (seen_lines lines) as [|l r]; [congruence|].
  cbn [map app]. rewrite !map_map. reflexivity.
Qed.

Lemma flush_left_page_is_one_paragraph_witness :
  paragraphs_of_lines
    [[mk_word "First." 80 100 111 (Some 10.5) "Times"];
     [mk_word "Second" 80 112 123 (Some 10.5) "Times";
      mk_word "sentence" 120 112 123 (Some 10.5) "Times";
      mk_word "here." 170 112 123 (Some 10.5) "Times"]]
  = ["First. Second sentence here."%string].
Proof.
  refine (@flush_left_page_is_one_paragraph
            [[mk_word "First." 80 100 111 (Some 10.5) "Times"];
             [mk_word "Second" 80 112 123 (Some 10.5) "Times";
              mk_word "sentence" 120 112 123 (Some 10.5) "Times";
              mk_word "here." 170 112 123 (Some 10.5) "Times"]] _ _).
  - repeat constructor; cbn; lra.
  - discriminate.
Defined.

(** ** extract_footnotes_improved: the ids of the result *)

Lemma number_and_rest_number (s : string) :
  starts_with_number s = true -> is_number (fst (number_and_rest s)).
Proof.
  intros H. unfold number_and_rest.
  pose proof (span_prefix_all is_decimal s) as Hall.
  destruct s as [|c t]; [discriminate|]. cbn [starts_with_number] in H.
  cbn [span] in *. rewrite H in *.
  destruct (span is_decimal t) as [a b]. cbn [fst] in *.
  split; [reflexivity|exact Hall].
Qed.

Lemma footnote_step_ids (st : footnote_state) (line : list word) :
  Forall (fun f => is_number (of_original_id f)) (with_open (fst st) (snd st)) ->
  Forall (fun f => is_number (of_original_id f))
         (with_open (fst (footnote_step st line))
                    (snd (footnote_step st line))).
Proof.
  destruct st as [fs cur]. cbn [fst snd]. intros H.
  destruct line as [|first_word rest]; [exact H|].
  unfold footnote_step.
  destruct (starts_with_number
              (clean_hyphenated_text (line_text (first_word :: rest)))) eqn:E.
  - pose proof (number_and_rest_number _ E) as Hn.
    destruct (number_and_rest
                (clean_hyphenated_text (line_text (first_word :: rest))))
      as [num r].
    cbn [fst snd with_open] in *. apply Forall_app. split.
    + destruct cur; [exact H|exact H].
    + constructor; [exact Hn|constructor].
  - destruct cur as [cur|]; [|exact H].
    destruct (Qlt_bool (Qabs (fsub (top first_word) (start_y cur))) 30
              && negb false);
      [|exact H].
    cbn [fst snd with_open] in *.
    apply Forall_app in H. destruct H as [Hfs Hc].
    apply Forall_app. split; [exact Hfs|].
    inversion Hc; subst. constructor; [assumption|constructor].
Qed.

Lemma assemble_footnotes_ids (lines : list (list word)) :
  Forall (fun f => is_number (of_original_id f)) (assemble_footnotes lines).
Proof.
  unfold assemble_footnotes.
  assert (H : Forall (fun f => is_number (of_original_id f))
                (with_open (fst (fold_left footnote_step lines ([], None)))
                           (snd (fold_left footnote_step lines ([], None))))).
  { induction lines as [|line L IH] using rev_ind; [constructor|].
    rewrite fold_left_app. cbn [fold_left]. now apply footnote_step_ids. }
  destruct (fold_left footnote_step lines ([], None)) as [fs cur].
  exact H.
Qed.

Lemma append_to_last_ids (extra : string) (result : list footnote_out) :
  map original_id (append_to_last extra result) = map original_id result.
Proof.
  induction result as [|r rest IH]; [reflexivity|].
  destruct rest as [|r' rest']; [reflexivity|].
  change (append_to_last extra (r :: r' :: rest'))
    with (r :: append_to_last extra (r' :: rest')).
  cbn [map] in *. now rewrite IH.
Qed.

Lemma no_fold_pair_snoc (ids : list string) (x : string) :
  no_fold_pair ids ->
  ~ (last (map Some ids) None = Some "9"%string
     /\ (x = "233"%string \/ x = "241"%string)) ->
  no_fold_pair (ids ++ [x]).
Proof.
  induction ids as [|a r IH]; intros H Hx; [exact I|].
  destruct r as [|b r'].
  - cbn [app no_fold_pair]. split; [|exact I].
    intros [Ha Hb]. apply Hx. split; [now subst|exact Hb].
  - change ((a :: b :: r') ++ [x]) with (a :: (b :: r') ++ [x]).
    destruct H as [Hab Hr].
    change (no_fold_pair (a :: (b :: r') ++ [x]))
      with (~ (a = "9"%string /\ (b = "233"%string \/ b = "241"%string))
            /\ no_fold_pair ((b :: r') ++ [x])).
    split; [exact Hab|]. apply IH; [exact Hr|].
    intros [Hl Hx']. apply Hx. split; [|exact Hx'].
    cbn [map last] in *. exact Hl.
Qed.

Lemma finish_step_ids (result : list footnote_out) (fn : open_footnote) :
  is_number (of_original_id fn) ->
  Forall (fun r => is_number (original_id r)) result ->
  no_fold_pair (map original_id result) ->
  Forall (fun r => is_number (original_id r)) (finish_step result fn)
  /\ no_fold_pair (map original_id (finish_step result fn)).
Proof.
  intros Hn Hall Hpair. unfold finish_step.
  destruct (((of_original_id fn =? "233") || (of_original_id fn =? "241"))%string
            && match last (map (fun r => Some (original_id r)) result) None with
               | Some i => (i =? "9")%string
               | None => false
               end) eqn:E.
  - split.
    + apply Forall_forall. intros r Hr.
      assert (Hin : In (original_id r)
                       (map original_id
                            (append_to_last (join " " (content fn)) result)))
        by now apply in_map.
      rewrite append_to_last_ids in Hin. apply in_map_iff in Hin.
      destruct Hin as (r0 & <- & Hr0).
      rewrite Forall_forall in Hall. now apply Hall.
    + now rewrite append_to_last_ids.
  - split.
    + apply Forall_app. split; [exact Hall|]. constructor; [exact Hn|constructor].
    + rewrite map_app. cbn [map original_id]. apply no_fold_pair_snoc; [exact Hpair|].
      intros [Hl Hx]. rewrite map_map in Hl.
      rewrite Hl in E. cbn in E.
      destruct Hx as [Hx|Hx]; rewrite Hx in E; discriminate E.
Qed.

(** Every footnote of the result is numbered by a string of decimal digits,
    and no footnote 233 or 241 stands right after a footnote 9: there the
    two have been made one. *)
Theorem footnote_ids (words : list word) :
  Forall (fun r => is_number (original_id r)) (extract_footnotes_improved words)
  /\ no_fold_pair (map original_id (extract_footnotes_improved words)).
Proof.
  unfold extract_footnotes_improved.
  pose proof (assemble_footnotes_ids (footnote_lines_of words)) as H.
  induction (assemble_footnotes (footnote_lines_of words)) as [|fn L IH]
    using rev_ind.
  - split; [constructor|exact I].
  - apply Forall_app in H. destruct H as [HL Hfn].
    inversion Hfn as [|? ? Hfn1 _]; subst.
    rewrite fold_left_app. cbn [fold_left].
    destruct (IH HL) as [Hids Hpair]. now apply finish_step_ids.
Qed.

(** ** pdf_to_json_final: the units of a page *)

Lemma count_from_S (first : Z) (n : nat) :
  count_from first (S n) = first :: count_from (first + 1) n.
Proof.
  unfold count_from. cbn [seq map]. rewrite Z.add_0_r. f_equal.
  rewrite <- seq_shift, map_map. apply map_ext. intros k. lia.
Qed.

Lemma count_from_app (first : Z) (n m : nat) :
  count_from first (n + m)
  = count_from first n ++ count_from (first + Z.of_nat n) m.
Proof.
  revert first. induction n as [|n IH]; intros first.
  - cbn [Nat.add Z.of_nat app]. now rewrite Z.add_0_r.
  - cbn [Nat.add]. rewrite !count_from_S, IH. cbn [app]. do 3 f_equal. lia.
Qed.

Lemma count_from_length (first : Z) (n : nat) :
  List.length (count_from first n) = n.
Proof. unfold count_from. now rewrite length_map, length_seq. Qed.

Section UnitsFrom.
Variable A : Type.
Variable ty : unit_type.
Variable oid : A -> option string.
Variable src : A -> string.

Lemma append_units_eq (xs : list A) (units : list content_unit) (cid : Z) :
  append_units ty oid src xs (units, cid)
  = (units ++ units_from ty oid src cid xs,
     (cid + Z.of_nat (List.length xs))%Z).
Proof.
  revert units cid. induction xs as [|x r IH]; intros units cid.
  - cbn. now rewrite app_nil_r, Z.add_0_r.
  - unfold append_units in *. cbn [fold_left append_unit units_from].
    rewrite IH, <- app_assoc. cbn [app List.length]. f_equal. lia.
Qed.

Lemma units_from_length (cid : Z) (xs : list A) :
  List.length (units_from ty oid src cid xs) = List.length xs.
Proof.
  revert cid. induction xs as [|x r IH]; intros cid; [reflexivity|].
  cbn [units_from List.length]. now rewrite IH.
Qed.

Lemma units_from_ids (cid : Z) (xs : list A) :
  map unit_id (units_from ty oid src cid xs) = count_from cid (List.length xs).
Proof.
  revert cid. induction xs as [|x r IH]; intros cid; [reflexivity|].
  cbn [units_from List.length map]. now rewrite count_from_S, IH.
Qed.

Lemma units_from_kinds (cid : Z) (xs : list A) :
  kinds (units_from ty oid src cid xs) = repeat ty (List.length xs).
Proof.
  revert cid. induction xs as [|x r IH]; intros cid; [reflexivity|].
  unfold kinds in *. cbn [units_from List.length map repeat]. now rewrite IH.
Qed.

Lemma units_from_texts (cid : Z) (xs : list A) :
  map unit_source_text (units_from ty oid src cid xs) = map src xs.
Proof.
  revert cid. induction xs as [|x r IH]; intros cid; [reflexivity|].
  cbn [units_from map]. now rewrite IH.
Qed.

Lemma units_from_original_ids (cid : Z) (xs : list A) :
  map unit_original_id (units_from ty oid src cid xs) = map oid xs.
Proof.
  revert cid. induction xs as [|x r IH]; intros cid; [reflexivity|].
  cbn [units_from map]. now rewrite IH.
Qed.

Lemma units_from_constants (cid : Z) (xs : list A) :
  Forall (fun u => unit_status u = "pending"%string
                   /\ unit_azure_translation u = EmptyString
                   /\ unit_ai_second_draft u = EmptyString)
         (units_from ty oid src cid xs).
Proof.
  revert cid. induction xs as [|x r IH]; intros cid; constructor; auto.
Qed.
End UnitsFrom.

Lemma extract_body_returns (words : list word) :
  extract_body_paragraphs_with_footnote_refs words
  = Returns (body_paragraphs words).
Proof.
  unfold extract_body_paragraphs_with_footnote_refs.
  now rewrite collect_body_words_filter.
Qed.

Lemma page_units_eq (words : list word) (cid : Z) :
  let ts := units_from title (fun _ => None) (fun t => t) cid
                       (extract_titles words) in
  let hs := header_units words (cid + Z.of_nat (List.length ts)) in
  let ps := units_from paragraph (fun _ => None) (fun t => t)
              (cid + Z.of_nat (List.length (ts ++ hs))) (body_paragraphs words) in
  let fs := units_from footnote (fun f => Some (original_id f)) source_text
              (cid + Z.of_nat (List.length (ts ++ hs ++ ps)))
              (extract_footnotes_improved words) in
  page_units words cid
  = Returns (ts ++ hs ++ ps ++ fs,
             (cid + Z.of_nat (List.length (ts ++ hs ++ ps ++ fs)))%Z).
Proof.
  intros ts hs ps fs. unfold page_units.
  rewrite extract_body_returns, append_units_eq. cbn [app]. fold ts.
  assert (Hh : match extract_titles words with
               | [] =>
                   if nonempty (extract_page_header words)
                   then append_unit header (fun _ : string => None)
                          (fun t : string => t)
                          (ts, (cid + Z.of_nat (List.length (extract_titles words)))%Z)
                          (extract_page_header words)
                   else (ts, (cid + Z.of_nat (List.length (extract_titles words)))%Z)
               | _ :: _ => (ts, (cid + Z.of_nat (List.length (extract_titles words)))%Z)
               end
               = (ts ++ hs, (cid + Z.of_nat (List.length (ts ++ hs)))%Z)).
  { subst hs. unfold header_units.
    assert (Hl : List.length ts = List.length (extract_titles words))
      by apply units_from_length.
    rewrite length_app, Hl.
    destruct (extract_titles words) as [|t r].
    - destruct (nonempty (extract_page_header words)).
      + cbn [append_unit List.length]. f_equal; lia.
      + cbn [List.length]. rewrite app_nil_r. f_equal; lia.
    - cbn [List.length]. rewrite app_nil_r. f_equal; lia. }
  rewrite Hh, !append_units_eq. fold ps.
  assert (Hps : List.length ps = List.length (body_paragraphs words))
    by apply units_from_length.
  rewrite <- Hps.
  replace (cid + Z.of_nat (List.length (ts ++ hs)) + Z.of_nat (List.length ps))%Z
    with (cid + Z.of_nat (List.length (ts ++ hs ++ ps)))%Z
    by (rewrite !length_app; lia).
  fold fs.
  assert (Hfs : List.length fs = List.length (extract_footnotes_improved words))
    by apply units_from_length.
  rewrite <- Hfs, <- !app_assoc. f_equal. f_equal.
  rewrite !length_app. lia.
Qed.

Lemma header_units_spec (words : list word) (cid : Z) :
  (List.length (header_units words cid) <= 1)%nat
  /\ (extract_titles words <> [] -> header_units words cid = [])
  /\ (forall u, In u (header_units words cid) ->
        unit_id u = cid /\ unit_kind u = header
        /\ unit_original_id u = None
        /\ unit_source_text u = extract_page_header words
        /\ nonempty (unit_source_text u) = true
        /\ unit_status u = "pending"%string
        /\ unit_azure_translation u = EmptyString
        /\ unit_ai_second_draft u = EmptyString).
Proof.
  unfold header_units. destruct (extract_titles words) as [|t r].
  - destruct (nonempty (extract_page_header words)) eqn:E.
    + cbn [List.length]. repeat split; try congruence; try lia;
        destruct H as [<-|[]]; try reflexivity. exact E.
    + cbn [List.length]. repeat split; try lia; destruct H.
  - cbn [List.length]. repeat split; try lia; destruct H.
Qed.

Lemma page_units_blocks (words : list word) (content_id : Z) :
  exists ts hs ps fs,
    page_units words content_id
    = Returns (ts ++ hs ++ ps ++ fs,
               (content_id
                + Z.of_nat (List.length (ts ++ hs ++ ps ++ fs)))%Z)
    /\ map unit_id (ts ++ hs ++ ps ++ fs)
       = count_from content_id (List.length (ts ++ hs ++ ps ++ fs))
    /\ kinds ts = repeat title (List.length ts)
    /\ map unit_source_text ts = extract_titles words
    /\ kinds hs = repeat header (List.length hs)
    /\ (List.length hs <= 1)%nat
    /\ (ts <> [] -> hs = [])
    /\ (forall u, In u hs ->
          unit_source_text u = extract_page_header words
          /\ nonempty (unit_source_text u) = true)
    /\ kinds ps = repeat paragraph (List.length ps)
    /\ extract_body_paragraphs_with_footnote_refs words
       = Returns (map unit_source_text ps)
    /\ kinds fs = repeat footnote (List.length fs)
    /\ map unit_original_id fs
       = map (fun f => Some (original_id f)) (extract_footnotes_improved words)
    /\ map unit_source_text fs
       = map source_text (extract_footnotes_improved words)
    /\ Forall (fun u => unit_original_id u = None) (ts ++ hs ++ ps)
    /\ Forall (fun u => unit_status u = "pending"%string
                        /\ unit_azure_translation u = EmptyString
                        /\ unit_ai_second_draft u = EmptyString)
              (ts ++ hs ++ ps ++ fs).
Proof.
  pose proof (page_units_eq words content_id) as E. cbv zeta in E.
  set (ts := units_from title (fun _ : string => None) (fun t => t) content_id
               (extract_titles words)) in *.
  set (hs := header_units words (content_id + Z.of_nat (List.length ts))) in *.
  set (ps := units_from paragraph (fun _ : string => None) (fun t => t)
               (content_id + Z.of_nat (List.length (ts ++ hs)))
               (body_paragraphs words)) in *.
  set (fs := units_from footnote (fun f => Some (original_id f)) source_text
               (content_id + Z.of_nat (List.length (ts ++ hs ++ ps)))
               (extract_footnotes_improved words)) in *.
  destruct (header_units_spec words (content_id + Z.of_nat (List.length ts)))
    as (Hh1 & Hh2 & Hh3). fold hs in Hh1, Hh2, Hh3.
  assert (Hhid : map unit_id hs
                 = count_from (content_id + Z.of_nat (List.length ts))
                              (List.length hs)).
  { destruct hs as [|u [|u' r]]; [reflexivity| |cbn [List.length] in Hh1; lia].
    destruct (Hh3 u (or_introl eq_refl)) as (Hid & _).
    cbn [map List.length]. rewrite count_from_S. cbn [count_from map seq].
    now rewrite Hid. }
  assert (Hhk : kinds hs = repeat header (List.length hs)).
  { destruct hs as [|u [|u' r]]; [reflexivity| |cbn [List.length] in Hh1; lia].
    destruct (Hh3 u (or_introl eq_refl)) as (_ & Hk & _).
    unfold kinds. cbn [map List.length repeat]. now rewrite Hk. }
  exists ts, hs, ps, fs. split; [exact E|]. split.
  { rewrite !map_app. unfold ts at 1, ps at 1, fs at 1.
    rewrite !units_from_ids, Hhid.
    rewrite <- (units_from_length title (fun _ : string => None) (fun t => t)
                  content_id (extract_titles words)).
    rewrite <- (units_from_length paragraph (fun _ : string => None) (fun t => t)
                  (content_id + Z.of_nat (List.length (ts ++ hs)))
                  (body_paragraphs words)).
    rewrite <- (units_from_length footnote (fun f => Some (original_id f))
                  source_text
                  (content_id + Z.of_nat (List.length (ts ++ hs ++ ps)))
                  (extract_footnotes_improved words)).
    fold ts ps fs.
    rewrite !length_app, !count_from_app, !Nat2Z.inj_add, ?Z.add_assoc.
    rewrite <- ?app_assoc. reflexivity. }
  split. { unfold ts. rewrite units_from_kinds, units_from_length. reflexivity. }
  split. { unfold ts. now rewrite units_from_texts, map_id. }
  split; [exact Hhk|]. split; [exact Hh1|]. split.
  { intros Hts. apply Hh2. intros Ht. apply Hts. unfold ts. now rewrite Ht. }
  split. { intros u Hu. destruct (Hh3 u Hu) as (_ & _ & _ & Ht & Hn & _). auto. }
  split. { unfold ps. rewrite units_from_kinds, units_from_length. reflexivity. }
  split. { rewrite extract_body_returns. unfold ps. now rewrite units_from_texts, map_id. }
  split. { unfold fs. rewrite units_from_kinds, units_from_length. reflexivity. }
  split; [apply units_from_original_ids|].
  split; [apply units_from_texts|].
  split.
  - rewrite !Forall_app. repeat split.
    + apply Forall_forall. intros u Hu.
      assert (Hin : In (unit_original_id u) (map unit_original_id ts))
        by now apply in_map.
      unfold ts in Hin. rewrite units_from_original_ids in Hin.
      apply in_map_iff in Hin. now destruct Hin as (? & <- & _).
    + apply Forall_forall. intros u Hu. now destruct (Hh3 u Hu) as (_ & _ & Ho & _).
    + apply Forall_forall. intros u Hu.
      assert (Hin : In (unit_original_id u) (map unit_original_id ps))
        by now apply in_map.
      unfold ps in Hin. rewrite units_from_original_ids in Hin.
      apply in_map_iff in Hin. now destruct Hin as (? & <- & _).
  - rewrite !Forall_app. repeat split; try apply units_from_constants.
    apply Forall_forall. intros u Hu.
    destruct (Hh3 u Hu) as (_ & _ & _ & _ & _ & H1 & H2 & H3). auto.
Qed.

(** The units of a page come in four blocks, titles, header, paragraphs and
    footnotes, numbered on from [content_id]; a page with a title has no
    header, only footnotes carry an ['original_id'], and the extraction of
    a page never raises. *)
Theorem page_units_layout (words : list word) (content_id : Z) :
  exists ts hs ps fs,
    page_units words content_id
    = Returns (ts ++ hs ++ ps ++ fs,
               (content_id
                + Z.of_nat (List.length (ts ++ hs ++ ps ++ fs)))%Z)
    /\ map unit_id (ts ++ hs ++ ps ++ fs)
       = count_from content_id (List.length (ts ++ hs ++ ps ++ fs))
    /\ kinds ts = repeat title (List.length ts)
    /\ map unit_source_text ts = extract_titles words
    /\ kinds hs = repeat header (List.length hs)
    /\ (List.length hs <= 1)%nat
    /\ (ts <> [] -> hs = [])
    /\ (forall u, In u hs ->
          unit_source_text u = extract_page_header words
          /\ nonempty (unit_source_text u) = true)
    /\ kinds ps = repeat paragraph (List.length ps)
    /\ extract_body_paragraphs_with_footnote_refs words
       = Returns (map unit_source_text ps)
    /\ kinds fs = repeat footnote (List.length fs)
    /\ map unit_original_id fs
       = map (fun f => Some (original_id f)) (extract_footnotes_improved words)
    /\ map unit_source_text fs
       = map source_text (extract_footnotes_improved words)
    /\ Forall (fun u => unit_original_id u = None) (ts ++ hs ++ ps)
    /\ Forall (fun u => unit_status u = "pending"%string
                        /\ unit_azure_translation u = EmptyString
                        /\ unit_ai_second_draft u = EmptyString)
              (ts ++ hs ++ ps ++ fs).
Proof. apply page_units_blocks. Qed.

Lemma page_units_returns (words : list word) (cid : Z) :
  exists units,
    page_units words cid
    = Returns (units, (cid + Z.of_nat (List.length units))%Z)
    /\ map unit_id units = count_from cid (List.length units).
Proof.
  destruct (page_units_blocks words cid) as (ts & hs & ps & fs & E & Hids & _).
  eexists. split; [exact E|exact Hids].
Qed.

(** ** pdf_to_json_final: the loop over the pages *)


Lemma py_index_valid (A : Type) (l : list A) (i : Z) :
  (- Z.of_nat (List.length l) <= i < Z.of_nat (List.length l))%Z ->
  exists a, py_index l i = Some a.
Proof.
  intros H. unfold py_index.
  destruct ((0 <=? i) && (i <? Z.of_nat (List.length l)))%Z eqn:E1.
  - apply andb_true_iff in E1. destruct E1 as [E0 E1].
    destruct (nth_error l (Z.to_nat i)) eqn:En; [eauto|].
    apply nth_error_None in En. lia.
  - assert (E2 : ((- Z.of_nat (List.length l) <=? i) && (i <? 0))%Z = true).
    { apply andb_false_iff in E1. apply andb_true_iff. lia. }
    rewrite E2.
    destruct (nth_error l (Z.to_nat (i + Z.of_nat (List.length l)))) eqn:En;
      [eauto|].
    apply nth_error_None in En. lia.
Qed.

Lemma py_index_invalid (A : Type) (l : list A) (i : Z) :
  (i < - Z.of_nat (List.length l) \/ Z.of_nat (List.length l) <= i)%Z ->
  py_index l i = None.
Proof.
  intros H. unfold py_index.
  destruct ((0 <=? i) && (i <? Z.of_nat (List.length l)))%Z eqn:E1.
  - apply andb_true_iff in E1. lia.
  - destruct ((- Z.of_nat (List.length l) <=? i) && (i <? 0))%Z eqn:E2;
      [|reflexivity].
    apply andb_true_iff in E2. lia.
Qed.

Lemma in_count_from (first : Z) (n : nat) (i : Z) :
  In i (count_from first n) <-> (first <= i < first + Z.of_nat n)%Z.
Proof.
  unfold count_from. rewrite in_map_iff. split.
  - intros (k & <- & Hk). apply in_seq in Hk. lia.
  - intros H. exists (Z.to_nat (i - first)). split; [lia|].
    apply in_seq. lia.
Qed.

Lemma py_range_count (start stop : Z) :
  py_range start stop = count_from start (Z.to_nat (stop - start)).
Proof. reflexivity. Qed.

Lemma pages_loop_valid (pages : list (list word)) (page_nums : list Z) :
  forall result content_id,
    Forall (fun i => (- Z.of_nat (List.length pages) <= i
                      < Z.of_nat (List.length pages))%Z) page_nums ->
    exists added,
      pages_loop pages page_nums result content_id = Finished (result ++ added)
      /\ Forall2 (page_of pages) page_nums added.
Proof.
  induction page_nums as [|i r IH]; intros result cid H.
  - exists []. rewrite app_nil_r. split; [reflexivity|constructor].
  - inversion H as [|? ? Hi Hr]; subst.
    destruct (py_index_valid pages Hi) as [words Hw].
    destruct (page_units_returns words cid) as (units & Hu & _).
    cbn [pages_loop]. rewrite Hw, Hu.
    destruct (IH (result ++ [mk_page_content (i + 1) units])
                 (cid + Z.of_nat (List.length units))%Z Hr)
      as (added & -> & Hadded).
    exists (mk_page_content (i + 1) units :: added).
    rewrite <- app_assoc. split; [reflexivity|].
    constructor; [|exact Hadded].
    split; [reflexivity|]. exists words, cid. eexists. split; [exact Hw|exact Hu].
Qed.

Lemma pages_loop_invalid (pages : list (list word)) (page_nums : list Z) :
  forall result content_id,
    (exists i, In i page_nums /\ py_index pages i = None) ->
    pages_loop pages page_nums result content_id = Raised IndexError.
Proof.
  induction page_nums as [|i r IH]; intros result cid (j & Hj & Hnone).
  - destruct Hj.
  - cbn [pages_loop]. destruct (py_index pages i) as [words|] eqn:Hw;
      [|reflexivity].
    destruct (page_units_returns words cid) as (units & Hu & _). rewrite Hu.
    apply IH. exists j. split; [|exact Hnone].
    destruct Hj as [->|Hj]; [congruence|exact Hj].
Qed.

Lemma pages_loop_ids (pages : list (list word)) (page_nums : list Z) :
  forall result content_id final,
    pages_loop pages page_nums result content_id = Finished final ->
    all_unit_ids result
    = count_from 1 (List.length (flat_map content_units result)) ->
    content_id
    = (1 + Z.of_nat (List.length (flat_map content_units result)))%Z ->
    all_unit_ids final
    = count_from 1 (List.length (flat_map content_units final)).
Proof.
  induction page_nums as [|i r IH]; intros result cid final Hrun Hids Hcid.
  - cbn [pages_loop] in Hrun. now injection Hrun as <-.
  - cbn [pages_loop] in Hrun.
    destruct (py_index pages i) as [words|]; [|discriminate].
    destruct (page_units_returns words cid) as (units & Hu & Huids).
    rewrite Hu in Hrun. apply IH in Hrun; [exact Hrun| |].
    + unfold all_unit_ids in *. rewrite flat_map_app, map_app, length_app.
      cbn [flat_map content_units]. rewrite app_nil_r.
      rewrite Hids, Huids, count_from_app, Hcid. reflexivity.
    + rewrite flat_map_app, length_app. cbn [flat_map content_units].
      rewrite app_nil_r. lia.
Qed.

(** The ids of a result run from 1 on without a gap, over all pages. *)
Theorem pdf_to_json_final_ids (pages : list (list word))
    (start_page end_page : option Z) (result : list page_content) :
  pdf_to_json_final pages start_page end_page = Finished result ->
  all_unit_ids result
  = count_from 1 (List.length (flat_map content_units result)).
Proof.
  unfold pdf_to_json_final. intros H.
  eapply pages_loop_ids; [exact H|reflexivity|reflexivity].
Qed.

Lemma pdf_to_json_final_ids_witness :
  exists result,
    pdf_to_json_final [example_page; example_page_2] None None
    = Finished result
    /\ all_unit_ids result = [1; 2; 3; 4; 5]%Z.
Proof.
  destruct (pdf_to_json_final [example_page; example_page_2] None None)
    as [result|e] eqn:E; [|vm_compute in E; discriminate E].
  exists result. split; [reflexivity|].
  rewrite (pdf_to_json_final_ids _ _ _ E).
  vm_compute in E. injection E as <-. reflexivity.
Defined.

Lemma page_numbers_of_range (pages : list (list word)) (k : nat) :
  forall (s : Z) (added : list page_content),
    Forall2 (page_of pages) (count_from (s - 1) k) added ->
    map page_number added = count_from s k.
Proof.
  induction k as [|k IH]; intros s added Hp.
  - inversion Hp. reflexivity.
  - rewrite count_from_S in Hp. inversion Hp as [|? pg ? r [Hn _] Hr]; subst.
    rewrite count_from_S. cbn [map]. f_equal; [lia|].
    apply IH. replace (s + 1 - 1)%Z with (s - 1 + 1)%Z by lia. exact Hr.
Qed.

(** The run returns when the range of pages is empty or lies within the
    document, a page before the first one being counted from the end: page
    [p] of the result holds the units of [pages[p - 1]], which for [p <= 0]
    is a page at the end of the document. *)
Theorem pdf_to_json_final_returns (pages : list (list word))
    (start_page end_page : option Z) :
  let n := Z.of_nat (List.length pages) in
  let s := match start_page with Some s => s | None => 1%Z end in
  let e := match end_page with Some e => e | None => (n + 1)%Z end in
  (e <= s \/ (- n < s /\ e <= n + 1))%Z ->
  exists result,
    pdf_to_json_final pages start_page end_page = Finished result
    /\ Forall2 (page_of pages) (py_range (s - 1) (e - 1)) result
    /\ map page_number result = py_range s e.
Proof.
  intros n s e H. unfold pdf_to_json_final. fold n. fold s. fold e.
  destruct (@pages_loop_valid pages (py_range (s - 1) (e - 1)) [] 1%Z)
    as (added & Hrun & Hpages).
  { apply Forall_forall. intros i Hi. rewrite py_range_count in Hi.
    apply in_count_from in Hi. fold n. lia. }
  exists added. cbn [app] in Hrun. repeat split; [exact Hrun|exact Hpages|].
  rewrite !py_range_count in *.
  replace (Z.to_nat (e - 1 - (s - 1))) with (Z.to_nat (e - s)) in Hpages by lia.
  now apply page_numbers_of_range with pages.
Qed.

Lemma pdf_to_json_final_returns_witness :
  exists result,
    pdf_to_json_final [example_page; example_page_2] (Some 0%Z) (Some 2%Z)
    = Finished result
    /\ Forall2 (page_of [example_page; example_page_2]) [(-1)%Z; 0%Z] result
    /\ map page_number result = [0%Z; 1%Z].
Proof.
  refine (@pdf_to_json_final_returns [example_page; example_page_2]
            (Some 0%Z) (Some 2%Z) _).
  right. cbn. lia.
Defined.

(** A range that is not empty and leaves the document on either side ends
    in the [IndexError] of [pdf.pages[page_num]]: nothing is returned and
    nothing is written. *)
Theorem pdf_to_json_final_index_error (pages : list (list word))
    (start_page end_page : option Z) :
  let n := Z.of_nat (List.length pages) in
  let s := match start_page with Some s => s | None => 1%Z end in
  let e := match end_page with Some e => e | None => (n + 1)%Z end in
  (s < e)%Z -> (s <= - n \/ n + 1 < e)%Z ->
  pdf_to_json_final pages start_page end_page = Raised IndexError.
Proof.
  intros n s e Hse H. unfold pdf_to_json_final. fold n. fold s. fold e.
  apply pages_loop_invalid.
  destruct (Z_le_gt_dec s (- n)) as [Hs|Hs].
  - exists (s - 1)%Z. split.
    + rewrite py_range_count. apply in_count_from. lia.
    + apply py_index_invalid. fold n. lia.
  - destruct (Z_le_gt_dec s n) as [Hsn|Hsn].
    + exists n. split.
      * rewrite py_range_count. apply in_count_from. lia.
      * apply py_index_invalid. fold n. lia.
    + exists (s - 1)%Z. split.
      * rewrite py_range_count. apply in_count_from. lia.
      * apply py_index_invalid. fold n. lia.
Qed.

Lemma pdf_to_json_final_index_error_witness :
  pdf_to_json_final [example_page; example_page_2] (Some 2%Z) (Some 4%Z)
  = Raised IndexError.
Proof.
  refine (@pdf_to_json_final_index_error [example_page; example_page_2]
            (Some 2%Z) (Some 4%Z) _ _).
  - cbn. lia.
  - right. cbn. lia.
Defined.

(** ** The zones of a page *)

Lemma filter_drop (A : Type) (p : A -> bool) (pre post : list A) (w : A) :
  p w = false -> filter p (pre ++ w :: post) = filter p (pre ++ post).
Proof. intros H. rewrite !filter_app. cbn [filter]. now rewrite H. Qed.

Lemma page_units_filters (words words' : list word) (cid : Z) :
  filter is_title_word words = filter is_title_word words' ->
  filter is_header_word words = filter is_header_word words' ->
  filter in_body_band words = filter in_body_band words' ->
  filter in_footnote_band words = filter in_footnote_band words' ->
  page_units words cid = page_units words' cid.
Proof.
  intros Ht Hh Hb Hf.
  assert (Et : extract_titles words = extract_titles words')
    by (unfold extract_titles; now rewrite Ht).
  assert (Eh : extract_page_header words = extract_page_header words')
    by (unfold extract_page_header; now rewrite Hh).
  assert (Eb : extract_body_paragraphs_with_footnote_refs words
               = extract_body_paragraphs_with_footnote_refs words')
    by (rewrite !extract_body_returns; unfold body_paragraphs; now rewrite Hb).
  assert (Ef : extract_footnotes_improved words
               = extract_footnotes_improved words')
    by (unfold extract_footnotes_improved, footnote_lines_of; now rewrite Hf).
  unfold page_units. now rewrite Et, Eh, Eb, Ef.
Qed.

(** A word that is in no zone leaves no trace in the units of its page.
    Such are the words between the heights 400 and 450, the words without a
    size above the footnotes, and below the height 200 the words of the
    body whose size is not between 10 and 11. *)
Theorem word_outside_zones_dropped (pre post : list word) (w : word)
    (content_id : Z) :
  top w <= 450 ->
  (400 <= top w \/ has_size w = false
   \/ (200 <= top w /\ (size_of w < 10 \/ 11 < size_of w))) ->
  page_units (pre ++ w :: post) content_id
  = page_units (pre ++ post) content_id.
Proof.
  intros Hlow H.
  assert (Hf : in_footnote_band w = false)
    by (unfold in_footnote_band; now apply Qlt_bool_false_iff).
  assert (Hzones : is_title_word w = false /\ is_header_word w = false
                   /\ in_body_band w = false).
  { unfold is_title_word, is_header_word, in_body_band.
    destruct H as [H | [H | [H1 H2]]].
    - assert (E200 : Qlt_bool (top w) 200 = false)
        by (apply Qlt_bool_false_iff; lra).
      assert (E70 : Qlt_bool (top w) 70 = false)
        by (apply Qlt_bool_false_iff; lra).
      assert (E400 : Qlt_bool (top w) 400 = false)
        by (apply Qlt_bool_false_iff; lra).
      rewrite E200, E70, E400, !andb_false_r. auto.
    - rewrite H. auto.
    - assert (E200 : Qlt_bool (top w) 200 = false)
        by (apply Qlt_bool_false_iff; lra).
      assert (E70 : Qlt_bool (top w) 70 = false)
        by (apply Qlt_bool_false_iff; lra).
      rewrite E200, E70, !andb_false_r. repeat split.
      destruct H2 as [H2|H2].
      + apply Qle_bool_false_iff in H2. rewrite H2, !andb_false_r. reflexivity.
      + apply Qle_bool_false_iff in H2. rewrite H2, !andb_false_r. reflexivity. }
  destruct Hzones as (Ht & Hh & Hb).
  apply page_units_filters; now apply filter_drop.
Qed.

Lemma word_outside_zones_dropped_witness :
  page_units (example_page
              ++ mk_word "Heading" 80 300 315 (Some 14) "Times-Bold" :: []) 1%Z
  = page_units (example_page ++ []) 1%Z.
Proof.
  refine (@word_outside_zones_dropped example_page []
            (mk_word "Heading" 80 300 315 (Some 14) "Times-Bold") 1%Z _ _).
  - cbn. lra.
  - right. right. cbn. split; [lra|right; lra].
Defined.

(** The zones of the titles and of the body overlap between the heights 70
    and 200: a word of the body there is a title word as well.  A header
    word is in no other zone, and a word of the footnotes is neither a
    title word nor a word of the body. *)
Theorem zones_overlap :
  (forall words w,
     In w words -> in_body_band w = true -> top w < 200 ->
     In w (filter is_title_word words) /\ In w (filter in_body_band words))
  /\ (forall w,
        is_header_word w = true ->
        is_title_word w = false /\ in_body_band w = false
        /\ in_footnote_band w = false)
  /\ (forall w,
        in_footnote_band w = true ->
        is_title_word w = false /\ in_body_band w = false
        /\ is_header_word w = false).
Proof.
  split; [|split].
  - intros words w Hin Hb Ht. split; apply filter_In; split; auto.
    unfold in_body_band in Hb. unfold is_title_word.
    repeat (apply andb_true_iff in Hb; destruct Hb as [Hb ?]).
    rewrite Hb. cbn [andb]. apply andb_true_iff. split.
    + apply Qlt_bool_iff. apply Qle_bool_iff in H2. lra.
    + now apply Qlt_bool_iff.
  - intros w H. unfold is_header_word in H.
    repeat (apply andb_true_iff in H; destruct H as [H ?]).
    apply Qlt_bool_iff in H0, H1.
    unfold is_title_word, in_body_band, in_footnote_band.
    assert (E1 : Qlt_bool 7 (size_of w) = false)
      by (apply Qlt_bool_false_iff; lra).
    assert (E2 : Qle_bool 10 (size_of w) = false)
      by (apply Qle_bool_false_iff; lra).
    assert (E3 : Qlt_bool 450 (top w) = false)
      by (apply Qlt_bool_false_iff; lra).
    rewrite E1, E2, E3, !andb_false_r. auto.
  - intros w H. unfold in_footnote_band in H. apply Qlt_bool_iff in H.
    unfold is_title_word, in_body_band, is_header_word.
    assert (E1 : Qlt_bool (top w) 200 = false)
      by (apply Qlt_bool_false_iff; lra).
    assert (E2 : Qlt_bool (top w) 400 = false)
      by (apply Qlt_bool_false_iff; lra).
    assert (E3 : Qlt_bool (top w) 70 = false)
      by (apply Qlt_bool_false_iff; lra).
    rewrite E1, E2, E3, !andb_false_r. auto.
Qed.

Lemma zones_overlap_witness :
  In (mk_word "Nasser" 80 150 161 (Some 10.5) "Times")
     (filter is_title_word [mk_word "Nasser" 80 150 161 (Some 10.5) "Times"])
  /\ In (mk_word "Nasser" 80 150 161 (Some 10.5) "Times")
        (filter in_body_band [mk_word "Nasser" 80 150 161 (Some 10.5) "Times"]).
Proof.
  refine (proj1 zones_overlap
            [mk_word "Nasser" 80 150 161 (Some 10.5) "Times"]
            (mk_word "Nasser" 80 150 161 (Some 10.5) "Times") _ _ _).
  - now left.
  - reflexivity.
  - cbn. lra.
Defined.

(** ** extract_titles: the texts *)

Lemma title_of_group_trimmed (g : list word) :
  Forall trimmed (title_of_group g) /\ (List.length (title_of_group g) <= 1)%nat.
Proof.
  unfold title_of_group.
  destruct (nonempty (strip (line_text (sorted_by x0 g)))) eqn:E.
  - split; [|cbn; lia]. constructor; [|constructor]. now apply strip_trimmed.
  - split; [constructor|cbn; lia].
Qed.

Lemma dict_append_length (k : Z) (w : word) (d : list (Z * list word)) :
  (List.length (dict_append k w d) <= S (List.length d))%nat.
Proof.
  induction d as [|[k' ws] r IH]; [cbn; lia|].
  cbn [dict_append]. destruct (k' =? k)%Z; cbn [List.length]; lia.
Qed.

Lemma title_groups_length (tw : list word) :
  (List.length (title_groups_of tw) <= List.length tw)%nat.
Proof.
  unfold title_groups_of.
  induction tw as [|w r IH] using rev_ind; [cbn; lia|].
  rewrite fold_left_app, length_app. cbn [fold_left List.length].
  pose proof (dict_append_length (py_round (top w)) w
                (fold_left (fun d w0 => dict_append (py_round (top w0)) w0 d) r []))
    as H.
  lia.
Qed.

Lemma flat_map_length_le (A B : Type) (f : A -> list B) (l : list A) :
  (forall a, List.length (f a) <= 1)%nat ->
  (List.length (flat_map f l) <= List.length l)%nat.
Proof.
  intros Hf. induction l as [|a r IH]; [cbn; lia|].
  cbn [flat_map]. rewrite length_app. specialize (Hf a). cbn [List.length]. lia.
Qed.

(** A title is never empty and has no space at either end, and a page has
    at most as many titles as it has title words. *)
Theorem extract_titles_texts (words : list word) :
  Forall trimmed (extract_titles words)
  /\ (List.length (extract_titles words)
      <= List.length (filter is_title_word words))%nat.
Proof.
  unfold extract_titles.
  destruct (filter is_title_word words) as [|w r] eqn:E; [split; [constructor|cbn; lia]|].
  split.
  - apply Forall_flat_map. apply Forall_forall. intros y _.
    apply title_of_group_trimmed.
  - eapply Nat.le_trans.
    + apply flat_map_length_le. intros y. apply title_of_group_trimmed.
    + rewrite <- (Permutation_length (sort_with_perm Z.leb _)), length_map.
      apply title_groups_length.
Qed.

End PdfToJsonFinalProofs.

(* ================================================================== *)
(** * The text of a page and the tables, verified *)
(* ================================================================== *)
Module PdfToMdProofs.

Import PyStr PyStrFacts PdfToJsonFinal PdfToJsonFinalProofs.
Local Open Scope string_scope.
Local Open Scope Q_scope.
Local Open Scope list_scope.

(** ** The two groupings agree *)

Lemma md_fold_agrees (t : Q) (ws : list word) :
  fold_left (PdfToMd.lines_step t) ws ([], [], None)
  = fold_left (PdfToJsonFinal.lines_step t) ws ([], [], None)
  /\ (let '(_, current_line, last) :=
        fold_left (PdfToJsonFinal.lines_step t) ws ([], [], None) in
      last = None \/ current_line <> []).
Proof.
  induction ws as [|w r IH] using rev_ind.
  - split; [reflexivity|now left].
  - rewrite !fold_left_app. cbn [fold_left]. destruct IH as [-> Hinv].
    destruct (fold_left (PdfToJsonFinal.lines_step t) r ([], [], None))
      as [[lines cur] last].
    unfold PdfToMd.lines_step, PdfToJsonFinal.lines_step.
    destruct last as [lt|].
    + destruct (Qlt_bool (Qabs (fsub (top w) lt)) t).
      * split; [reflexivity|]. right. now destruct cur.
      * split; [|right; discriminate].
        destruct Hinv as [Hinv|Hinv]; [discriminate|].
        destruct cur; [congruence|reflexivity].
    + split; [reflexivity|]. right. now destruct cur.
Qed.

Lemma md_lines_agree (words : list word) (t : Q) :
  PdfToMd.group_words_to_lines words t
  = PdfToJsonFinal.group_words_to_lines words t.
Proof.
  unfold PdfToMd.group_words_to_lines, PdfToJsonFinal.group_words_to_lines.
  destruct words as [|w r]; [reflexivity|].
  now rewrite (proj1 (md_fold_agrees t (sorted_by top (w :: r)))).
Qed.

(** The grouping nested in [pdf_to_md] and the one of [pdf_to_json_final]
    give the same lines on every page: the two tests that the first one
    lacks never decide anything. *)
Theorem md_group_words_to_lines_agrees (words : list word) (t : Q) :
  PdfToMd.group_words_to_lines words t
  = PdfToJsonFinal.group_words_to_lines words t.
Proof. apply md_lines_agree. Qed.

(** ** The paragraphs cut the lines *)

Lemma paragraphs_fold_partition (it pg : Q) (lines : list (list word)) :
  Forall (fun l => l <> []) lines ->
  exists paragraphs current_para last_x0 last_line_top,
    fold_left (PdfToMd.paragraphs_step it pg) lines (Some ([], [], None, None))
    = Some (paragraphs, current_para, last_x0, last_line_top)
    /\ Forall (fun p => p <> []) paragraphs
    /\ List.concat paragraphs ++ current_para = lines.
Proof.
  induction lines as [|line L IH] using rev_ind; intros H.
  - exists [], [], None, None. repeat split. constructor.
  - apply Forall_app in H. destruct H as [HL Hline].
    inversion Hline as [|? ? Hl _]; subst.
    destruct (IH HL) as (ps & cur & lx & lt & E & Hne & Hcat).
    rewrite fold_left_app, E. cbn [fold_left].
    destruct line as [|first_word rest]; [congruence|].
    cbn [PdfToMd.paragraphs_step].
    match goal with
    | |- context [if ?c then _ else _] => destruct c
    end.
    + do 4 eexists. split; [reflexivity|]. split.
      * unfold PdfToMd.close_para. destruct cur; [exact Hne|].
        apply Forall_app. split; [exact Hne|]. constructor; [discriminate|constructor].
      * unfold PdfToMd.close_para. destruct cur as [|c0 cur'].
        -- rewrite app_nil_r in Hcat. now rewrite Hcat.
        -- rewrite concat_app. cbn [List.concat]. rewrite app_nil_r, Hcat.
           reflexivity.
    + do 4 eexists. split; [reflexivity|]. split; [exact Hne|].
      now rewrite app_assoc, Hcat.
Qed.

(** On the lines of a page the loop never meets an empty line, and its
    paragraphs cut the lines into consecutive groups, none of them empty:
    every word of the page is in exactly one paragraph.  An empty line
    would end the loop in an [IndexError]. *)
Theorem md_paragraphs_partition (it pg t : Q) (words : list word) :
  (exists paragraphs,
     PdfToMd.paragraphs_of it pg (PdfToMd.group_words_to_lines words t)
     = Some paragraphs
     /\ Forall (fun p => p <> []) paragraphs
     /\ List.concat paragraphs = PdfToMd.group_words_to_lines words t
     /\ List.concat (List.concat paragraphs) = sorted_by top words)
  /\ (forall pre post, PdfToMd.paragraphs_of it pg (pre ++ [] :: post) = None).
Proof.
  split.
  - rewrite md_lines_agree.
    destruct (group_words_to_lines_spec words t) as (Hcat & Hne & _).
    cbv zeta in *.
    destruct (paragraphs_fold_partition it pg Hne)
      as (ps & cur & lx & lt & E & Hp & Hc).
    unfold PdfToMd.paragraphs_of. rewrite E.
    assert (Hclose : List.concat (PdfToMd.close_para ps cur)
                     = PdfToJsonFinal.group_words_to_lines words t).
    { unfold PdfToMd.close_para. destruct cur as [|c0 cur'].
      - now rewrite app_nil_r in Hc.
      - rewrite concat_app. cbn [List.concat]. now rewrite app_nil_r. }
    eexists. split; [reflexivity|]. repeat split.
    + unfold PdfToMd.close_para. destruct cur; [exact Hp|].
      apply Forall_app. split; [exact Hp|]. constructor; [discriminate|constructor].
    + exact Hclose.
    + now rewrite Hclose.
  - intros pre post. unfold PdfToMd.paragraphs_of.
    rewrite fold_left_app. cbn [fold_left].
    assert (Hnone : forall l, fold_left (PdfToMd.paragraphs_step it pg) l None = None).
    { induction l as [|x r IH]; [reflexivity|exact IH]. }
    destruct (fold_left (PdfToMd.paragraphs_step it pg) pre
                        (Some ([], [], None, None))) as [st|].
    + cbn [PdfToMd.paragraphs_step]. destruct st as [[[a b] c] d].
      now rewrite Hnone.
    + cbn [PdfToMd.paragraphs_step]. now rewrite Hnone.
Qed.

(** ** The lines of a table *)

Local Open Scope string_scope.

Lemma split_lines_line (l rest : string) :
  PdfToMd.one_line l = true ->
  split_lines (l ++ PdfToMd.nl ++ rest) = l :: split_lines rest.
Proof.
  induction l as [|c l IH]; intros H; [reflexivity|].
  unfold PdfToMd.one_line in *. cbn [all_chars] in H.
  apply andb_true_iff in H. destruct H as [Hc Hl].
  cbn [append split_lines]. apply negb_true_iff in Hc. rewrite Hc.
  now rewrite (IH Hl).
Qed.

Lemma one_line_app (a b : string) :
  PdfToMd.one_line (a ++ b) = PdfToMd.one_line a && PdfToMd.one_line b.
Proof. apply all_chars_app. Qed.

Lemma one_line_join (sep : string) (l : list string) :
  PdfToMd.one_line sep = true ->
  Forall (fun s => PdfToMd.one_line s = true) l ->
  PdfToMd.one_line (join sep l) = true.
Proof.
  intros Hsep H. induction H as [|x r Hx Hr IH]; [reflexivity|].
  unfold join in *. cbn [String.concat]. destruct r as [|y r']; [exact Hx|].
  now rewrite !one_line_app, Hx, Hsep, IH.
Qed.

Lemma one_line_row (cells : list string) :
  Forall (fun s => PdfToMd.one_line s = true) cells ->
  PdfToMd.one_line ("| " ++ join " | " cells ++ " |") = true.
Proof.
  intros H. rewrite !one_line_app, (one_line_join " | " eq_refl H). reflexivity.
Qed.

Lemma table_fold (rows : list (list string)) (init : string) :
  fold_left (fun acc row => acc ++ PdfToMd.row_line row) rows init
  = init ++ fold_left (fun acc row => acc ++ PdfToMd.row_line row) rows "".
Proof.
  revert init. induction rows as [|r rows IH]; intros init.
  - cbn [fold_left]. now rewrite append_nil_r.
  - cbn [fold_left]. rewrite IH, (IH ("" ++ PdfToMd.row_line r)).
    cbn [append]. now rewrite append_assoc.
Qed.

Lemma table_rows_lines (rows : list (list (option string))) :
  Forall (Forall (fun c => PdfToMd.one_line (PdfToMd.cell_text c) = true)) rows ->
  split_lines
    (fold_left (fun acc row => acc ++ PdfToMd.row_line row)
               (map (map PdfToMd.cell_text) rows) "" ++ PdfToMd.nl)
  = (map PdfToMd.row_text rows ++ [""; ""])%list.
Proof.
  induction 1 as [|r rows Hr Hrows IH]; [reflexivity|].
  cbn [map fold_left]. rewrite table_fold. cbn [append].
  unfold PdfToMd.row_line at 1. rewrite !append_assoc.
  rewrite <- (append_assoc "| "), <- (append_assoc _ " |").
  rewrite split_lines_line.
  - rewrite IH. cbn [app]. f_equal; unfold PdfToMd.row_text;
      now rewrite ?append_assoc.
  - rewrite append_assoc. apply one_line_row.
    apply Forall_forall. intros s Hs. apply in_map_iff in Hs.
    destruct Hs as (c & <- & Hc). rewrite Forall_forall in Hr. now apply Hr.
Qed.

(** The Markdown of a table whose cells hold no line feed has one line a
    row, the separator after the first row, and a blank line at the end; a
    cell that is [None] is written as an empty cell, and rows are written
    with the cells they have.  An empty table gives the empty string. *)
Theorem table_markdown_lines (first_row : list (option string))
    (rows : list (list (option string))) :
  Forall (Forall (fun c => PdfToMd.one_line (PdfToMd.cell_text c) = true))
         (first_row :: rows) ->
  split_lines (PdfToMd.extract_table_markdown (first_row :: rows))
  = (PdfToMd.row_text first_row :: PdfToMd.separator first_row
     :: map PdfToMd.row_text rows ++ [""; ""])%list.
Proof.
  intros H. inversion H as [|? ? Hfirst Hrows]; subst.
  unfold PdfToMd.extract_table_markdown. cbn [map].
  rewrite table_fold, length_map.
  unfold PdfToMd.row_line at 1 2. rewrite !append_assoc.
  rewrite <- (append_assoc "| "), <- (append_assoc _ " |").
  rewrite split_lines_line.
  - f_equal.
    rewrite <- (append_assoc "| "), <- (append_assoc _ " |").
    rewrite split_lines_line.
    + f_equal. now apply table_rows_lines.
    + rewrite append_assoc. apply one_line_row.
      apply Forall_forall. intros s Hs. apply repeat_spec in Hs. now subst.
  - rewrite append_assoc. apply one_line_row.
    apply Forall_forall. intros s Hs. apply in_map_iff in Hs.
    destruct Hs as (c & <- & Hc). rewrite Forall_forall in Hfirst. now apply Hfirst.
Qed.

Lemma table_markdown_lines_witness :
  split_lines (PdfToMd.extract_table_markdown PdfToMd.example_table)
  = ["| Year | Event |"; "| --- | --- |"; "| 1958 |  |"; ""; ""].
Proof.
  refine (@table_markdown_lines [Some "Year"; Some "Event"]
            [[Some "1958"; None]] _).
  repeat constructor.
Defined.

End PdfToMdProofs.

(* ================================================================== *)
(** * What is translated and what comes back, verified *)
(* ================================================================== *)
Module AzureTranslatorProofs.

Import PyStr PyStrFacts PyJson AzureTranslator.
Local Open Scope string_scope.

(** ** Loops *)

Lemma enumerate_from_in (A : Type) (l : list A) :
  forall (k i : nat) (x : A),
    In (i, x) (combine (seq k (List.length l)) l)
    <-> (k <= i)%nat /\ nth_error l (i - k) = Some x.
Proof.
  induction l as [|a r IH]; intros k i x.
  - cbn. split; [intros []|]. intros [_ H]. destruct (i - k)%nat; discriminate.
  - cbn [List.length seq combine In]. rewrite IH. split.
    + intros [E | [Hk Hn]].
      * injection E as <- <-. rewrite Nat.sub_diag. split; [lia|reflexivity].
      * split; [lia|]. replace (i - k)%nat with (S (i - S k)) by lia. exact Hn.
    + intros [Hk Hn]. destruct (Nat.eq_dec i k) as [->|Hne].
      * rewrite Nat.sub_diag in Hn. cbn in Hn. injection Hn as <-. now left.
      * right. split; [lia|].
        replace (i - k)%nat with (S (i - S k)) in Hn by lia. exact Hn.
Qed.

Lemma for_each_const (A S : Type) (f : S -> A -> outcome S) (l : list A) (s : S) :
  (forall a, In a l -> f s a = Returns s) -> for_each f l s = Returns s.
Proof.
  induction l as [|a r IH]; intros H; [reflexivity|].
  cbn [for_each]. rewrite (H a (or_introl eq_refl)). cbn [bind].
  apply IH. intros b Hb. apply H. now right.
Qed.

Lemma for_each_flat_map (A B : Type) (f : list B -> A -> outcome (list B))
    (g : A -> list B) (l : list A) :
  forall s,
    (forall s a, In a l -> f s a = Returns (s ++ g a)%list) ->
    for_each f l s = Returns (s ++ flat_map g l)%list.
Proof.
  induction l as [|a r IH]; intros s H.
  - cbn. now rewrite app_nil_r.
  - cbn [for_each flat_map]. rewrite (H s a (or_introl eq_refl)). cbn [bind].
    rewrite IH; [now rewrite app_assoc|]. intros s' b Hb. apply H. now right.
Qed.

(** ** extract_texts_for_translation: the entries and their units *)

Lemma unit_step_spec (c u : nat) (unit : json) (acc r : list item) :
  unit_step c acc (u, unit) = Returns r ->
  exists new,
    r = (acc ++ new)%list
    /\ (forall it, In it new <->
          it = mk_item c u (text it) (type it)
          /\ wanted unit (text it) (type it))
    /\ (List.length new <= 1)%nat.
Proof.
  unfold unit_step. intros H.
  assert (Hskip :
             r = acc -> (forall s ty, wanted unit s ty -> False) ->
             exists new, r = (acc ++ new)%list
               /\ (forall it, In it new <->
                     it = mk_item c u (text it) (type it)
                     /\ wanted unit (text it) (type it))
               /\ (List.length new <= 1)%nat).
  { intros -> Hno. exists []. rewrite app_nil_r. split; [reflexivity|].
    split; [|cbn; lia].
    intros it. split; [intros []|]. intros [_ Hw]. exact (Hno _ _ Hw). }
  destruct unit as [| | | |items|fields]; try discriminate H.
  destruct (dict_get fields "type") as [vty|] eqn:Ety.
  2:{ injection H as <-. apply (Hskip eq_refl).
      intros s ty (f & Ef & Ht & _). injection Ef as <-. congruence. }
  destruct vty as [| | |ty| |];
    try (injection H as <-; apply (Hskip eq_refl);
         intros s ty' (f & Ef & Ht & _); injection Ef as <-; congruence).
  destruct ((ty =? "title") || (ty =? "paragraph")) eqn:Ewant.
  2:{ injection H as <-. apply (Hskip eq_refl).
      intros s ty' (f & Ef & Ht & Hty & _). injection Ef as <-.
      rewrite Ety in Ht. injection Ht as <-.
      destruct Hty as [->| ->]; discriminate Ewant. }
  destruct (dict_get fields "text") as [vtext|] eqn:Etext.
  2:{ injection H as <-. apply (Hskip eq_refl).
      intros s ty' (f & Ef & _ & _ & Hs & _). injection Ef as <-. congruence. }
  destruct vtext as [|b|q|s|items|fs];
    try (destruct (truthy _); [discriminate H|];
         injection H as <-; apply (Hskip eq_refl);
         intros s' ty' (f & Ef & _ & _ & Hs & _); injection Ef as <-; congruence).
  destruct (translatable s) eqn:Etr.
  - injection H as <-. exists [mk_item c u s ty]. split; [reflexivity|].
    split; [|cbn; lia].
    intros it. split.
    + intros [<-|[]]. cbn [text type]. split; [reflexivity|].
      exists fields. repeat split; auto.
      apply orb_true_iff in Ewant.
      destruct Ewant as [E|E]; apply String.eqb_eq in E; auto.
    + intros [Eit (f & Ef & Ht & _ & Hs & _)]. injection Ef as <-.
      rewrite Ety in Ht. rewrite Etext in Hs.
      injection Ht as Ht. injection Hs as Hs. left. rewrite Eit. congruence.
  - injection H as <-. apply (Hskip eq_refl).
    intros s' ty' (f & Ef & _ & _ & Hs & Htr). injection Ef as <-.
    rewrite Etext in Hs. injection Hs as <-. congruence.
Qed.

Lemma units_loop_spec (c : nat) (units : list json) :
  forall (k : nat) (acc r : list item),
    for_each (unit_step c) (combine (seq k (List.length units)) units) acc
    = Returns r ->
    exists new,
      r = (acc ++ new)%list
      /\ (forall it, In it new <->
            exists u unit,
              nth_error units u = Some unit
              /\ it = mk_item c (k + u) (text it) (type it)
              /\ wanted unit (text it) (type it))
      /\ StronglySorted before new
      /\ Forall (fun it => chapter_idx it = c /\ (k <= unit_idx it)%nat) new.
Proof.
  induction units as [|unit rest IH]; intros k acc r H.
  - cbn in H. injection H as <-. exists []. rewrite app_nil_r.
    split; [reflexivity|]. split; [|split; constructor].
    intros it. split; [intros []|].
    intros (u & x & Hn & _). destruct u; discriminate.
  - cbn [List.length seq combine for_each] in H.
    destruct (unit_step c acc (k, unit)) as [acc1|e] eqn:E1; [|discriminate H].
    cbn [bind] in H.
    destruct (unit_step_spec _ _ _ _ E1) as (n1 & -> & Hn1 & Hlen).
    destruct (IH _ _ _ H) as (n2 & -> & Hn2 & Hs2 & Hf2).
    exists (n1 ++ n2)%list. rewrite app_assoc. split; [reflexivity|].
    assert (Hf1 : Forall (fun it => chapter_idx it = c /\ unit_idx it = k) n1).
    { apply Forall_forall. intros it Hit. apply Hn1 in Hit.
      destruct Hit as [-> _]. split; reflexivity. }
    split; [|split].
    + intros it. rewrite in_app_iff, Hn1, Hn2. split.
      * intros [[Eit Hw] | (u & x & Hx & Eit & Hw)].
        -- exists 0%nat, unit. rewrite Nat.add_0_r. auto.
        -- exists (S u), x. split; [exact Hx|]. split; [|exact Hw].
           rewrite Eit. cbn [text type]. f_equal. lia.
      * intros ([|u] & x & Hx & Eit & Hw).
        -- left. cbn in Hx. injection Hx as <-.
           rewrite Nat.add_0_r in Eit. auto.
        -- right. exists u, x. split; [exact Hx|]. split; [|exact Hw].
           rewrite Eit. cbn [text type]. f_equal. lia.
    + destruct n1 as [|a [|a' n1']]; [exact Hs2| |cbn in Hlen; lia].
      cbn [app]. constructor; [exact Hs2|].
      inversion Hf1 as [|? ? [Ha1 Ha2] _]; subst.
      eapply Forall_impl; [|exact Hf2]. cbn beta. intros b [Hb1 Hb2].
      right. split; [congruence|lia].
    + apply Forall_app. split.
      * eapply Forall_impl; [|exact Hf1]. cbn beta. intros b [Hb1 Hb2].
        split; [exact Hb1|lia].
      * eapply Forall_impl; [|exact Hf2]. cbn beta. intros b [Hb1 Hb2].
        split; [exact Hb1|lia].
Qed.

Lemma strongly_sorted_app_intro (A : Type) (R : A -> A -> Prop) (a b : list A) :
  StronglySorted R a -> StronglySorted R b ->
  (forall x y, In x a -> In y b -> R x y) ->
  StronglySorted R (a ++ b).
Proof.
  intros Ha Hb Hab. induction Ha as [|x a Ha IH Hx]; [exact Hb|].
  cbn [app]. constructor.
  - apply IH. intros x' y Hx' Hy. apply Hab; [now right|exact Hy].
  - apply Forall_app. split; [exact Hx|].
    apply Forall_forall. intros y Hy. apply Hab; [now left|exact Hy].
Qed.

(** The entries that a chapter adds. *)
Lemma chapter_step_spec (c : nat) (chapter : json) (acc r : list item) :
  chapter_step acc (c, chapter) = Returns r ->
  exists new,
    r = (acc ++ new)%list
    /\ (forall it, In it new <->
          chapter_idx it = c
          /\ exists fields units unit,
               chapter = JObj fields
               /\ dict_get fields "content_units" = Some (JArr units)
               /\ nth_error units (unit_idx it) = Some unit
               /\ wanted unit (text it) (type it))
    /\ StronglySorted before new.
Proof.
  unfold chapter_step. intros H.
  assert (Hskip :
            r = acc -> (forall f us, chapter = JObj f ->
                          dict_get f "content_units" = Some (JArr us) -> False) ->
            exists new, r = (acc ++ new)%list
              /\ (forall it, In it new <->
                    chapter_idx it = c
                    /\ exists fields units unit,
                         chapter = JObj fields
                         /\ dict_get fields "content_units" = Some (JArr units)
                         /\ nth_error units (unit_idx it) = Some unit
                         /\ wanted unit (text it) (type it))
              /\ StronglySorted before new).
  { intros -> Hno. exists []. rewrite app_nil_r. split; [reflexivity|].
    split; [|constructor]. intros it. split; [intros []|].
    intros (_ & f & us & _ & Ef & Hg & _). exact (Hno f us Ef Hg). }
  assert (Hloop : forall units,
            for_each (unit_step c) (enumerate units) acc = Returns r ->
            exists new, r = (acc ++ new)%list
              /\ (forall it, In it new <->
                    chapter_idx it = c
                    /\ exists unit,
                         nth_error units (unit_idx it) = Some unit
                         /\ wanted unit (text it) (type it))
              /\ StronglySorted before new).
  { intros units Hrun. unfold enumerate in Hrun.
    destruct (units_loop_spec _ _ _ _ Hrun) as (new & -> & Hin & Hs & Hf).
    exists new. split; [reflexivity|]. split; [|exact Hs].
    intros it. rewrite Hin. split.
    - intros (u & x & Hx & Eit & Hw). rewrite Eit. cbn [chapter_idx unit_idx].
      split; [reflexivity|]. exists x. rewrite Eit in Hw. cbn [text type] in Hw.
      rewrite Eit. cbn [text type]. auto.
    - intros (Hc & x & Hx & Hw). exists (unit_idx it), x.
      split; [exact Hx|]. split; [|exact Hw].
      destruct it as [ci ui tx ty]. cbn in *. now subst. }
  assert (Hstrings : forall units,
            Forall (fun x => exists s, x = JStr s) units ->
            for_each (unit_step c) (enumerate units) acc = Returns r ->
            r = acc).
  { intros units Hall Hrun.
    destruct units as [|x rest].
    - cbn in Hrun. now injection Hrun as <-.
    - inversion Hall as [|? ? [s ->] _]; subst. cbn in Hrun. discriminate Hrun. }
  destruct chapter as [| | |s|items|fields]; cbn [py_in bind] in H;
    try discriminate H.
  - destruct (contains "content_units" s); [discriminate H|].
    injection H as <-. apply (Hskip eq_refl). intros f us Ef. discriminate Ef.
  - destruct (existsb _ items); [discriminate H|].
    injection H as <-. apply (Hskip eq_refl). intros f us Ef. discriminate Ef.
  - destruct (dict_get fields "content_units") as [cu|] eqn:Ecu.
    2:{ injection H as <-. apply (Hskip eq_refl).
        intros f us Ef Hg. injection Ef as <-. congruence. }
    cbn [py_getitem bind] in H. rewrite Ecu in H. cbn [bind] in H.
    destruct cu as [| | |s|units|fs]; cbn [py_iter bind] in H;
      try discriminate H.
    + apply Hstrings in H.
      * apply (Hskip H). intros f us Ef Hg. injection Ef as <-. congruence.
      * apply Forall_forall. intros x Hx. apply in_map_iff in Hx.
        destruct Hx as (ch & <- & _). eauto.
    + destruct (Hloop units H) as (new & -> & Hin & Hs).
      exists new. split; [reflexivity|]. split; [|exact Hs].
      intros it. rewrite Hin. split.
      * intros (Hc & x & Hx & Hw). split; [exact Hc|].
        exists fields, units, x. auto.
      * intros (Hc & f & us & x & Ef & Hg & Hx & Hw). injection Ef as <-.
        rewrite Ecu in Hg. injection Hg as <-. split; [exact Hc|].
        exists x. auto.
    + apply Hstrings in H.
      * apply (Hskip H). intros f us Ef Hg. injection Ef as <-. congruence.
      * apply Forall_forall. intros x Hx. apply in_map_iff in Hx.
        destruct Hx as (kv & <- & _). eauto.
Qed.

Lemma chapters_loop_spec (data : list json) :
  forall (k : nat) (acc r : list item),
    for_each chapter_step (combine (seq k (List.length data)) data) acc
    = Returns r ->
    exists new,
      r = (acc ++ new)%list
      /\ (forall it, In it new <->
            (k <= chapter_idx it)%nat
            /\ exists fields units unit,
                 nth_error data (chapter_idx it - k) = Some (JObj fields)
                 /\ dict_get fields "content_units" = Some (JArr units)
                 /\ nth_error units (unit_idx it) = Some unit
                 /\ wanted unit (text it) (type it))
      /\ StronglySorted before new.
Proof.
  induction data as [|chapter rest IH]; intros k acc r H.
  - cbn in H. injection H as <-. exists []. rewrite app_nil_r.
    split; [reflexivity|]. split; [|constructor].
    intros it. split; [intros []|].
    intros (_ & f & us & x & Hn & _). destruct (chapter_idx it - k)%nat; discriminate.
  - cbn [List.length seq combine for_each] in H.
    destruct (chapter_step acc (k, chapter)) as [acc1|e] eqn:E1;
      [|discriminate H].
    cbn [bind] in H.
    destruct (chapter_step_spec _ _ _ E1) as (n1 & -> & Hn1 & Hs1).
    destruct (IH _ _ _ H) as (n2 & -> & Hn2 & Hs2).
    exists (n1 ++ n2)%list. rewrite app_assoc. split; [reflexivity|].
    split.
    + intros it. rewrite in_app_iff, Hn1, Hn2. split.
      * intros [(Hc & f & us & x & Ef & Hg & Hx & Hw)
               | (Hc & f & us & x & Ef & Hg & Hx & Hw)].
        -- split; [lia|]. exists f, us, x. rewrite Hc, Nat.sub_diag.
           cbn [nth_error]. rewrite Ef. auto.
        -- split; [lia|]. exists f, us, x.
           replace (chapter_idx it - k)%nat with (S (chapter_idx it - S k))
             by lia.
           cbn [nth_error]. auto.
      * intros (Hc & f & us & x & Ef & Hg & Hx & Hw).
        destruct (Nat.eq_dec (chapter_idx it) k) as [Hk|Hk].
        -- left. split; [exact Hk|]. rewrite Hk, Nat.sub_diag in Ef.
           cbn in Ef. injection Ef as ->. exists f, us, x. auto.
        -- right. split; [lia|]. exists f, us, x.
           replace (chapter_idx it - k)%nat with (S (chapter_idx it - S k))
             in Ef by lia.
           cbn [nth_error] in Ef. auto.
    + apply strongly_sorted_app_intro; [exact Hs1|exact Hs2|].
      intros x y Hx Hy. apply Hn1 in Hx. apply Hn2 in Hy.
      left. destruct Hx as [-> _]. destruct Hy as [Hy _]. lia.
Qed.

(** When the extraction returns, its entries are the titles and the
    paragraphs with a text that is not blank, each with the place of its
    unit: [data[chapter_idx]['content_units'][unit_idx]] is the unit the
    text and the type were read from.  The entries come in the order of the
    data, and no unit has two of them. *)
Theorem extracted_texts_point_back (data : list json) (items : list item) :
  extract_texts_for_translation data = Returns items ->
  (forall it,
     In it items <->
     exists unit,
       unit_at data (chapter_idx it) (unit_idx it) = Some unit
       /\ wanted unit (text it) (type it))
  /\ StronglySorted before items.
Proof.
  unfold extract_texts_for_translation, enumerate. intros H.
  destruct (chapters_loop_spec _ _ _ H) as (new & -> & Hin & Hs).
  cbn [app]. split; [|exact Hs].
  intros it. rewrite Hin, Nat.sub_0_r. unfold unit_at. split.
  - intros (_ & f & us & x & Ef & Hg & Hx & Hw). exists x.
    rewrite Ef, Hg. auto.
  - intros (x & Hx & Hw). split; [lia|].
    destruct (nth_error data (chapter_idx it)) as [[| | | | |f]|];
      try discriminate Hx.
    destruct (dict_get f "content_units") as [[| | | |us|]|] eqn:Eg;
      try discriminate Hx.
    exists f, us, x. auto.
Qed.

Lemma extracted_texts_point_back_witness :
  exists unit,
    unit_at example_data 0 0 = Some unit
    /\ wanted unit "The Arab world." "paragraph".
Proof.
  assert (E : extract_texts_for_translation example_data
              = Returns [mk_item 0 0 "The Arab world." "paragraph"])
    by (vm_compute; reflexivity).
  exact (proj1 (proj1 (@extracted_texts_point_back example_data _ E)
                      (mk_item 0 0 "The Arab world." "paragraph"))
               (or_introl eq_refl)).
Defined.

(** ** The translator on the output of the two producers *)

Lemma enumerate_map (A B : Type) (h : A -> B) (l : list A) :
  enumerate (map h l) = map (fun ix => (fst ix, h (snd ix))) (enumerate l).
Proof.
  unfold enumerate. rewrite length_map. generalize 0%nat.
  induction l as [|a r IH]; intros k; [reflexivity|].
  cbn [List.length seq combine map fst snd]. now rewrite IH.
Qed.

Lemma pdf_unit_step (c i : nat) (u : PdfToJsonFinal.content_unit)
    (acc : list item) :
  unit_step c acc (i, pdf_unit_json u) = Returns acc.
Proof.
  unfold unit_step, pdf_unit_json.
  destruct (PdfToJsonFinal.unit_kind u), (PdfToJsonFinal.unit_original_id u);
    reflexivity.
Qed.

(** In the output of [pdf_to_json_final] the translator finds nothing to
    translate: the units keep their text under ['source_text'], and the
    translator reads ['text']. *)
Theorem nothing_to_translate_in_pdf_output
    (result : list PdfToJsonFinal.page_content) :
  extract_texts_for_translation (map pdf_page_json result) = Returns [].
Proof.
  unfold extract_texts_for_translation. apply for_each_const.
  intros [c chapter] Hin. apply in_combine_r in Hin. apply in_map_iff in Hin.
  destruct Hin as (pg & <- & _).
  unfold chapter_step, pdf_page_json. cbn [py_in dict_get String.eqb bind].
  cbn. apply for_each_const.
  intros [i unit] Hin. apply in_combine_r in Hin. apply in_map_iff in Hin.
  destruct Hin as (u & <- & _). apply pdf_unit_step.
Qed.

Lemma rstrip_id (s : string) : ends_with isspace s = false -> rstrip s = s.
Proof.
  induction s as [|c r IH]; [reflexivity|]. cbn [ends_with rstrip].
  destruct r as [|d r'].
  - cbn [rstrip]. now intros ->.
  - intros H. rewrite (IH H). reflexivity.
Qed.

Lemma trimmed_translatable (s : string) : trimmed s -> translatable s = true.
Proof.
  intros (Hn & Hb & He). unfold translatable, strip.
  now rewrite (lstrip_id _ Hb), (rstrip_id _ He), Hn.
Qed.

Lemma txt_unit_step (c i : nat) (u : TxtToJsonParser.content_unit)
    (acc : list item) :
  trimmed (TxtToJsonParser.text u) ->
  unit_step c acc (i, txt_unit_json u)
  = Returns (acc ++ match TxtToJsonParser.utype u with
                    | TxtToJsonParser.paragraph =>
                        [mk_item c i (TxtToJsonParser.text u) "paragraph"]
                    | TxtToJsonParser.title =>
                        [mk_item c i (TxtToJsonParser.text u) "title"]
                    | _ => []
                    end)%list.
Proof.
  intros Ht. apply trimmed_translatable in Ht.
  unfold unit_step, txt_unit_json.
  destruct (TxtToJsonParser.utype u), (TxtToJsonParser.original_id u),
    (TxtToJsonParser.note u); cbn; rewrite ?Ht, ?app_nil_r; reflexivity.
Qed.

(** In the chapters of [txt_to_json_parser], the translator takes every
    paragraph and nothing else, in the order of the text: no paragraph is
    blank, and the footnotes are left out. *)
Theorem paragraphs_are_translated (chapters : list (json * string * string)) :
  extract_texts_for_translation
    (map (fun ch => txt_chapter_json (fst (fst ch)) (snd (fst ch)) (snd ch))
         chapters)
  = Returns
      (flat_map (fun ic =>
                   paragraph_items
                     (fst ic)
                     (TxtToJsonParser.parse_chapter_content (snd (snd ic))))
                (enumerate chapters)).
Proof.
  unfold extract_texts_for_translation. rewrite enumerate_map.
  rewrite (@for_each_flat_map _ _ chapter_step
             (fun ic : nat * json =>
                match snd ic with
                | JObj [_; _; (_, JArr units)] =>
                    flat_map (fun iu : nat * json =>
                                match unit_step (fst ic) [] iu with
                                | Returns l => l
                                | Raises _ => []
                                end) (enumerate units)
                | _ => []
                end)).
  - cbn [app]. rewrite flat_map_concat_map, map_map, <- flat_map_concat_map.
    f_equal. apply flat_map_ext. intros [c [[num title] content]].
    cbn [fst snd txt_chapter_json]. unfold paragraph_items.
    rewrite enumerate_map, !flat_map_concat_map, map_map. f_equal.
    apply map_ext_in. intros [i u] Hin. cbn [fst snd].
    apply in_combine_r in Hin.
    pose proof (TxtToJsonParserProofs.parse_chapter_content_plain content) as Hall.
    rewrite Forall_forall in Hall. destruct (Hall u Hin) as [Ht Hty].
    rewrite (txt_unit_step c i u [] Ht). cbn [app].
    destruct Hty as [-> | ->]; reflexivity.
  - intros s [c chapter] Hin. apply in_map_iff in Hin.
    destruct Hin as ([c' [[num title] content]] & E & Hin).
    cbn [fst snd] in E. injection E as <- <-.
    unfold chapter_step, txt_chapter_json. cbn [py_in dict_get String.eqb bind].
    cbn [snd fst]. cbn -[for_each enumerate flat_map unit_step
                          TxtToJsonParser.parse_chapter_content txt_unit_json].
    apply for_each_flat_map.
    intros s' [i unit] Hu. rewrite enumerate_map in Hu. apply in_map_iff in Hu.
    destruct Hu as ([i' u] & E & Hu). cbn [fst snd] in E. injection E as <- <-.
    apply in_combine_r in Hu.
    pose proof (TxtToJsonParserProofs.parse_chapter_content_plain content) as Hall.
    rewrite Forall_forall in Hall. destruct (Hall u Hu) as [Ht _].
    now rewrite !(txt_unit_step c' _ u _ Ht).
Qed.

(** ** translate_batch: one translation a text *)

Lemma realign_spec (translations : list json) (texts : list string) :
  forall (valid_idx : nat) (acc r : list json),
    realign texts translations valid_idx acc = Returns r ->
    exists new,
      r = (acc ++ new)%list
      /\ Forall2 blank_kept texts new
      /\ translated texts new
         = firstn (List.length (filter translatable texts))
                  (skipn valid_idx translations).
Proof.
  induction texts as [|text rest IH]; intros k acc r H.
  - cbn in H. injection H as <-. exists []. rewrite app_nil_r.
    repeat split. constructor.
  - cbn [realign] in H. unfold translated in *. cbn [filter combine].
    destruct (translatable text) eqn:Et.
    + destruct (nth_error translations k) as [t|] eqn:En; [|discriminate H].
      destruct (IH _ _ _ H) as (new & -> & Hb & Htr).
      exists (t :: new). rewrite <- app_assoc. split; [reflexivity|].
      split; [constructor; [intros E; congruence|exact Hb]|].
      cbn [combine filter fst]. rewrite Et. cbn [map snd List.length].
      rewrite Htr.
      assert (Hs : skipn k translations = t :: skipn (S k) translations).
      { clear - En. revert k En. induction translations as [|x l IHl];
          intros [|k] En; try discriminate.
        - cbn in En. now injection En as ->.
        - cbn [skipn]. apply IHl. exact En. }
      rewrite Hs. reflexivity.
    + destruct (IH _ _ _ H) as (new & -> & Hb & Htr).
      exists (JStr EmptyString :: new). rewrite <- app_assoc.
      split; [reflexivity|].
      split; [constructor; [intros _; reflexivity|exact Hb]|].
      cbn [combine filter fst]. rewrite Et. exact Htr.
Qed.

Lemma blanks_kept (texts : list string) :
  Forall2 blank_kept texts (blanks (List.length texts)).
Proof.
  induction texts as [|t r IH]; [constructor|].
  cbn [List.length blanks repeat]. constructor; [intros _; reflexivity|exact IH].
Qed.

Lemma read_reply_kept (r : reply) (texts : list string) (result : list json) :
  read_reply r texts = Some result -> Forall2 blank_kept texts result.
Proof.
  unfold read_reply. destruct r as [|status body]; [discriminate|].
  destruct (is_error_status status); [discriminate|].
  destruct body as [response|]; [|discriminate].
  destruct (translations_of response) as [ts|e]; [|discriminate].
  cbn [bind]. destruct (realign texts ts 0 []) as [res|e] eqn:E; [|discriminate].
  intros H. injection H as <-.
  destruct (realign_spec _ _ _ _ E) as (new & -> & Hb & _). exact Hb.
Qed.

Lemma retry_loop_kept (post : nat -> list string -> reply)
    (valid_texts texts : list string) (max_retries : nat) (attempts : list nat) :
  Forall2 blank_kept texts
    (AzureTranslatorResume.retry_loop post valid_texts texts max_retries attempts).
Proof.
  induction attempts as [|a rest IH]; cbn [AzureTranslatorResume.retry_loop].
  - apply blanks_kept.
  - unfold AzureTranslatorResume.attempt_on.
    destruct (post a valid_texts) as [|status body] eqn:Ep.
    + destruct (a <? max_retries - 1)%nat; [exact IH|apply blanks_kept].
    + destruct (status =? 429)%Z; [exact IH|].
      destruct (read_reply (Response status body) texts) as [res|] eqn:E.
      * now apply read_reply_kept in E.
      * destruct (a <? max_retries - 1)%nat; [exact IH|apply blanks_kept].
Qed.

(** Whatever the service answers, and whether it answers at all, the
    batch gets exactly one translation a text, and a blank text gets the
    empty one; so does the variant with retries, which without an attempt
    asks nothing and translates nothing. *)
Theorem translate_batch_one_per_text (post : nat -> list string -> reply)
    (texts : list string) (max_retries : nat) :
  Forall2 blank_kept texts (translate_batch post texts)
  /\ Forall2 blank_kept texts
       (AzureTranslatorResume.translate_batch post texts max_retries)
  /\ List.length (translate_batch post texts) = List.length texts
  /\ List.length (AzureTranslatorResume.translate_batch post texts max_retries)
     = List.length texts
  /\ AzureTranslatorResume.translate_batch post texts 0
     = blanks (List.length texts).
Proof.
  assert (H1 : Forall2 blank_kept texts (translate_batch post texts)).
  { unfold translate_batch. destruct texts as [|t r]; [constructor|].
    destruct (filter translatable (t :: r)) as [|v vs]; [apply blanks_kept|].
    match goal with
    | |- context [read_reply ?x ?y] =>
        destruct (read_reply x y) as [res|] eqn:E
    end.
    - now apply read_reply_kept in E.
    - apply blanks_kept. }
  assert (H2 : Forall2 blank_kept texts
                 (AzureTranslatorResume.translate_batch post texts max_retries)).
  { unfold AzureTranslatorResume.translate_batch.
    destruct texts as [|t r]; [constructor|].
    destruct (filter translatable (t :: r)) as [|v vs]; [apply blanks_kept|].
    apply retry_loop_kept. }
  repeat split; auto.
  - symmetry. eapply Forall2_length. exact H1.
  - symmetry. eapply Forall2_length. exact H2.
  - unfold AzureTranslatorResume.translate_batch.
    destruct texts as [|t r]; [reflexivity|].
    destruct (filter translatable (t :: r)); reflexivity.
Qed.

(** When the service answers in order, with a translation for each text
    that is not blank, these texts get their translations in that order. *)
Theorem translate_batch_in_order (post : nat -> list string -> reply)
    (texts : list string) (status_code : Z) (response : json)
    (translations : list json) :
  post 0%nat (filter translatable texts) = Response status_code (Some response) ->
  status_code <> 429%Z -> is_error_status status_code = false ->
  translations_of response = Returns translations ->
  (List.length (filter translatable texts) <= List.length translations)%nat ->
  translated texts (translate_batch post texts)
  = firstn (List.length (filter translatable texts)) translations.
Proof.
  intros Hpost H429 Herr Hts Hlen. unfold translate_batch.
  destruct texts as [|t r]; [reflexivity|].
  destruct (filter translatable (t :: r)) as [|v vs] eqn:Ef.
  { unfold translated.
    assert (Hnone : forall l : list string,
              filter translatable l = [] ->
              filter (fun p : string * json => translatable (fst p))
                     (combine l (blanks (List.length l))) = []).
    { induction l as [|x l IH]; [reflexivity|]. cbn [filter].
      destruct (translatable x) eqn:Ex; [discriminate|].
      intros Hl. cbn [List.length blanks repeat combine filter fst].
      rewrite Ex. now apply IH. }
    now rewrite (Hnone _ Ef). }
  rewrite Hpost. apply Z.eqb_neq in H429. rewrite H429.
  unfold read_reply. rewrite Herr, Hts. cbn [bind].
  assert (Hreal : forall texts k acc,
            (k + List.length (filter translatable texts)
             <= List.length translations)%nat ->
            exists res, realign texts translations k acc = Returns res).
  { clear. induction texts as [|x l IH]; intros k acc Hk; [cbn; eauto|].
    cbn [realign]. cbn [filter] in Hk. destruct (translatable x).
    - cbn [List.length] in Hk.
      destruct (nth_error translations k) as [tr|] eqn:En.
      + apply IH. lia.
      + apply nth_error_None in En. lia.
    - now apply IH. }
  destruct (Hreal (t :: r) 0%nat []) as [res Hres]; [rewrite Ef; exact Hlen|].
  rewrite Hres. destruct (realign_spec _ _ _ _ Hres) as (new & -> & _ & Htr).
  cbn [app]. rewrite Htr, Ef. reflexivity.
Qed.

Lemma translate_batch_in_order_witness :
  translated ["one"; "  "; "two"]
    (translate_batch (always (Response 200 (Some two_translations)))
                     ["one"; "  "; "two"])
  = [JStr "un"; JStr "deux"].
Proof.
  exact (@translate_batch_in_order
           (always (Response 200 (Some two_translations)))
           ["one"; "  "; "two"] 200 two_translations
           [JStr "un"; JStr "deux"]
           eq_refl ltac:(discriminate) eq_refl eq_refl (le_n 2)).
Defined.

(** ** The variant with the global index *)

Lemma indexed_snoc (items : list AzureTranslatorResume.item)
    (it : AzureTranslatorResume.item) :
  AzureTranslatorResume.indexed items ->
  AzureTranslatorResume.global_index it = List.length items ->
  AzureTranslatorResume.indexed (items ++ [it]).
Proof.
  unfold AzureTranslatorResume.indexed. intros H Hi.
  rewrite map_app, length_app, H. cbn [map List.length].
  rewrite Nat.add_1_r, seq_S, Hi. reflexivity.
Qed.

Lemma resume_unit_step (c : nat) (iu : nat * json)
    (acc : list AzureTranslatorResume.item) :
  AzureTranslatorResume.indexed acc ->
  AzureTranslatorResume.same_run
    (AzureTranslatorResume.unit_step c acc iu)
    (unit_step c (map AzureTranslatorResume.plain acc) iu).
Proof.
  intros Hacc. destruct iu as [u unit].
  unfold AzureTranslatorResume.unit_step, unit_step.
  destruct unit as [| | | | |fields]; try reflexivity.
  destruct (dict_get fields "type") as [[| | |ty| |]|];
    try (split; [reflexivity|exact Hacc]).
  destruct ((ty =? "title") || (ty =? "paragraph"));
    [|split; [reflexivity|exact Hacc]].
  destruct (dict_get fields "text") as [[|b|q|s|items|fs]|];
    try (split; [reflexivity|exact Hacc]);
    try (destruct (truthy _); [reflexivity|split; [reflexivity|exact Hacc]]).
  destruct (translatable s); [|split; [reflexivity|exact Hacc]].
  split; [now rewrite map_app|]. now apply indexed_snoc.
Qed.

Lemma resume_for_each (A : Type)
    (f' : list AzureTranslatorResume.item -> A
          -> outcome (list AzureTranslatorResume.item))
    (f : list item -> A -> outcome (list item)) (l : list A) :
  (forall acc a,
     AzureTranslatorResume.indexed acc ->
     AzureTranslatorResume.same_run
       (f' acc a) (f (map AzureTranslatorResume.plain acc) a)) ->
  forall acc,
    AzureTranslatorResume.indexed acc ->
    AzureTranslatorResume.same_run
      (for_each f' l acc)
      (for_each f l (map AzureTranslatorResume.plain acc)).
Proof.
  intros Hstep. induction l as [|a r IH]; intros acc Hacc.
  - split; [reflexivity|exact Hacc].
  - cbn [for_each]. pose proof (Hstep acc a Hacc) as H.
    destruct (f' acc a) as [acc1|e]; cbn [AzureTranslatorResume.same_run] in H.
    + destruct H as [-> H1]. cbn [bind]. now apply IH.
    + rewrite H. reflexivity.
Qed.

Lemma resume_chapter_step (ic : nat * json)
    (acc : list AzureTranslatorResume.item) :
  AzureTranslatorResume.indexed acc ->
  AzureTranslatorResume.same_run
    (AzureTranslatorResume.chapter_step acc ic)
    (chapter_step (map AzureTranslatorResume.plain acc) ic).
Proof.
  intros Hacc. destruct ic as [c chapter].
  unfold AzureTranslatorResume.chapter_step, chapter_step.
  destruct (py_in "content_units" chapter) as [[|]|e]; cbn [bind];
    [|split; [reflexivity|exact Hacc]|reflexivity].
  destruct (py_getitem chapter "content_units") as [cu|e]; cbn [bind];
    [|reflexivity].
  destruct (py_iter cu) as [units|e]; cbn [bind]; [|reflexivity].
  apply resume_for_each; [|exact Hacc].
  intros acc' a Ha. now apply resume_unit_step.
Qed.

Lemma resume_same_run (data : list json) :
  AzureTranslatorResume.same_run
    (AzureTranslatorResume.extract_texts_for_translation data)
    (extract_texts_for_translation data).
Proof.
  unfold AzureTranslatorResume.extract_texts_for_translation,
    extract_texts_for_translation.
  apply (@resume_for_each _ AzureTranslatorResume.chapter_step chapter_step
           (enumerate data)
           (fun acc a H => resume_chapter_step a H) []).
  reflexivity.
Qed.

(** The variant that can resume extracts the same entries as the plain
    one, and fails where it fails; the global index of an entry is its
    place in the list. *)
Theorem resume_extracts_the_same (data : list json) :
  match AzureTranslatorResume.extract_texts_for_translation data with
  | Returns items =>
      extract_texts_for_translation data
      = Returns (map AzureTranslatorResume.plain items)
      /\ map AzureTranslatorResume.global_index items
         = seq 0 (List.length items)
  | Raises e => extract_texts_for_translation data = Raises e
  end.
Proof. exact (resume_same_run data). Qed.

End AzureTranslatorProofs.

(* ================================================================== *)
(** * Fragments with nothing to attach to *)
(* ================================================================== *)

Module OrphanFragments.

Import PyStr.

(** C4, as amended: a lowercase continuation fragment with no paragraph
    before it is kept, appended to the merger's output as it is, and the
    final output has a unit with its id and type whose text begins with the
    fragment's text.  The footnote assembler has no such case: a line that
    does not begin with a number, met while no footnote is open, leaves its
    state as it is, and when no line of the band begins with a number
    nothing is extracted. *)
Theorem orphan_fragments :
  (forall (us : list TxtToJsonParser.content_unit) (i : nat)
          (u : TxtToJsonParser.content_unit),
     TxtToJsonParser.cross_boundary_fragment us i u ->
     (forall j p, (j < i)%nat -> nth_error us j = Some p ->
                  TxtToJsonParser.utype p <> TxtToJsonParser.paragraph) ->
     TxtToJsonParser.merge_upto us (S i)
     = TxtToJsonParser.merge_upto us i ++ [u]
     /\ exists final,
          nth_error (TxtToJsonParser.merge_split_paragraphs us)
                    (List.length (TxtToJsonParser.merge_upto us i))
          = Some final
          /\ TxtToJsonParser.extends u final)
  /\ (forall (footnotes : list PdfToJsonFinal.open_footnote)
             (line : list PdfToJsonFinal.word),
        PdfToJsonFinal.starts_with_number (PdfToJsonFinal.cleaned_text line)
        = false ->
        PdfToJsonFinal.footnote_step (footnotes, None) line = (footnotes, None))
  /\ (forall lines : list (list PdfToJsonFinal.word),
        Forall (fun line =>
                  PdfToJsonFinal.starts_with_number
                    (PdfToJsonFinal.cleaned_text line) = false) lines ->
        PdfToJsonFinal.assemble_footnotes lines = []).
Proof.
  split; [|split].
  - intros us i u Hc Hnone.
    now apply TxtToJsonParserProofs.merge_orphan_kept.
  - intros footnotes line H.
    now apply PdfToJsonFinalProofs.footnote_step_orphan.
  - intros lines H.
    now apply PdfToJsonFinalProofs.assemble_footnotes_no_number.
Qed.

Lemma orphan_fragments_witness :
  TxtToJsonParser.merge_upto
    [TxtToJsonParser.foot_2; TxtToJsonParser.frag_3] 2
  = TxtToJsonParser.merge_upto
      [TxtToJsonParser.foot_2; TxtToJsonParser.frag_3] 1
    ++ [TxtToJsonParser.frag_3].
Proof.
  apply (proj1 orphan_fragments
           [TxtToJsonParser.foot_2; TxtToJsonParser.frag_3] 1%nat
           TxtToJsonParser.frag_3).
  - repeat split; try reflexivity.
    + exists TxtToJsonParser.foot_2. repeat split; try reflexivity. lia.
    + exists "m"%char, "arched on the capital."%string. split; reflexivity.
  - intros [|j] p Hj Hp; [|lia]. injection Hp as <-. discriminate.
Defined.

End OrphanFragments.
